(** * GOG installer update checker: identity resolution and version
      reconciliation

    A shallow embedding of the decision logic of [main.py] and
    [gog_installer_update_checker.py].  The two files implement the same
    engine; where their code is the same it is embedded once, where it
    differs the two variants live in [Module Main] and [Module Checker].

    Python [str] values are embedded as [string]: every [ascii] stands for
    the code point of the same number, so the embedding covers the strings
    over U+0000..U+00FF (Basic Latin and Latin-1 Supplement).  On that
    repertoire [str.isspace], [str.lower] and the character classes of the
    regular expressions below are exactly the tables written out here. *)

From Stdlib Require Import String Ascii List ZArith NArith Bool Lia Arith.
From Stdlib Require Import Permutation Sorted DecimalString.
Import ListNotations.
Open Scope string_scope.

(* ================================================================== *)
(** ** Python strings *)

Definition code (c : ascii) : N := N_of_ascii c.

Definition between (lo hi : N) (c : ascii) : bool :=
  ((lo <=? code c) && (code c <=? hi))%N.

(** [str.isspace] on one character: TAB..CR, FS..US, SPACE, NEL, NBSP. *)
Definition isspace (c : ascii) : bool :=
  between 9 13 c || between 28 32 c || (code c =? 133)%N || (code c =? 160)%N.

(** Simple lower-casing (what [str.lower] and the case-insensitive regex
    matcher do to one character): A-Z and the capitals of Latin-1 except
    the multiplication sign move up by 32. *)
Definition lower_char (c : ascii) : ascii :=
  if between 65 90 c || (between 192 222 c && negb (code c =? 215)%N)
  then ascii_of_N (code c + 32) else c.

Fixpoint lower (s : string) : string :=
  match s with
  | "" => ""
  | String c t => String (lower_char c) (lower t)
  end.

Fixpoint lstrip_by (p : ascii -> bool) (s : string) : string :=
  match s with
  | "" => ""
  | String c t => if p c then lstrip_by p t else s
  end.

Fixpoint rstrip_by (p : ascii -> bool) (s : string) : string :=
  match s with
  | "" => ""
  | String c t =>
      match rstrip_by p t with
      | "" => if p c then "" else String c ""
      | t' => String c t'
      end
  end.

(** [s.strip()] *)
Definition strip (s : string) : string := rstrip_by isspace (lstrip_by isspace s).

(** [s.endswith(c)] for a one-character suffix. *)
Fixpoint ends_with (c : ascii) (s : string) : bool :=
  match s with
  | "" => false
  | String d "" => Ascii.eqb d c
  | String _ t => ends_with c t
  end.

Fixpoint contains_char (c : ascii) (s : string) : bool :=
  match s with
  | "" => false
  | String d t => Ascii.eqb d c || contains_char c t
  end.

(** Every character of [s] satisfies [p]. *)
Fixpoint all_chars (p : ascii -> bool) (s : string) : bool :=
  match s with
  | "" => true
  | String c t => p c && all_chars p t
  end.

Fixpoint drop (n : nat) (s : string) : string :=
  match n, s with
  | O, _ => s
  | S _, "" => ""
  | S m, String _ t => drop m t
  end.

(** [s.replace(old, new)]: every non-overlapping occurrence, left to right.
    [skip] counts the characters of a matched occurrence still to be passed
    over.  With an empty [old] Python inserts [new] around every character. *)
Fixpoint replace_from (old new : string) (skip : nat) (s : string) : string :=
  match s with
  | "" => ""
  | String c t =>
      match skip with
      | S k => replace_from old new k t
      | O =>
          if prefix old s
          then new ++ replace_from old new (String.length old - 1) t
          else String c (replace_from old new 0 t)
      end
  end.

Definition replace (old new s : string) : string :=
  match old with
  | "" => new ++ (fix ins (s : string) : string :=
                    match s with
                    | "" => ""
                    | String c t => String c (new ++ ins t)
                    end) s
  | _ => replace_from old new 0 s
  end.

(** [s.split()]: the maximal runs of non-whitespace characters. *)
Fixpoint split_ws (cur : string) (s : string) : list string :=
  match s with
  | "" => match cur with "" => [] | _ => [cur] end
  | String c t =>
      if isspace c
      then match cur with "" => split_ws "" t | _ => cur :: split_ws "" t end
      else split_ws (cur ++ String c "") t
  end.

Definition split (s : string) : list string := split_ws "" s.

(** [x in l] for a list of strings. *)
Definition str_in (x : string) (l : list string) : bool :=
  existsb (String.eqb x) l.

(** [str(n)] for an [int]. *)
Definition str_of_int (z : Z) : string := NilZero.string_of_int (Z.to_int z).

(** A [while guard(s): s = body(s)] loop run for at most [fuel] rounds. *)
Fixpoint while (fuel : nat) (guard : string -> bool) (body : string -> string)
  (s : string) : string :=
  match fuel with
  | O => s
  | S f => if guard s then while f guard body (body s) else s
  end.

(* ================================================================== *)
(** ** normalize_version_name *)

Definition newline : ascii := ascii_of_N 10.

(** Where [$] can match: at the end of the string or just before a newline
    that is its last character.  Returns the text before that point and the
    newline left over (if any). *)
Fixpoint split_final_newline (s : string) : string * string :=
  match s with
  | "" => ("", "")
  | String c "" => if Ascii.eqb c newline then ("", s) else (s, "")
  | String c t => let (w, nl) := split_final_newline t in (String c w, nl)
  end.

Definition starts_with (c : ascii) (s : string) : bool :=
  match s with
  | "" => false
  | String d _ => Ascii.eqb d c
  end.

(** The part of [s] that [^ ... $] has to cover, when there is one: [.]
    does not match a newline, so it must be free of newlines. *)
Definition line_of (s : string) : option (string * string) :=
  let (w, nl) := split_final_newline s in
  if contains_char newline w then None else Some (w, nl).

(** [re.match(r"^" + re.escape(c) + "+.+$", s)] *)
Definition lead_match (c : ascii) (s : string) : bool :=
  match line_of s with
  | Some (w, _) => starts_with c w && (2 <=? String.length w)%nat
  | None => false
  end.

(** [re.sub(r"^" + re.escape(c) + "+(.+)$", r"\1", s)]: the greedy [c+]
    takes the whole leading run but gives one character back when nothing
    else is left for the group. *)
Definition lead_sub (c : ascii) (s : string) : string :=
  if lead_match c s then
    match line_of s with
    | Some (w, nl) =>
        match lstrip_by (Ascii.eqb c) w with
        | "" => String c nl
        | r => r ++ nl
        end
    | None => s
    end
  else s.

(** [re.match(r"^.+?" + re.escape(c) + "+$", s)] *)
Definition trail_match (c : ascii) (s : string) : bool :=
  match line_of s with
  | Some (w, _) => ends_with c w && (2 <=? String.length w)%nat
  | None => false
  end.

(** [re.sub(r"^(.+?)" + re.escape(c) + r"+$", r"\1", s)]: the lazy group
    is the shortest non-empty prefix followed only by [c]s. *)
Definition trail_sub (c : ascii) (s : string) : string :=
  if trail_match c s then
    match line_of s with
    | Some (w, nl) =>
        match rstrip_by (Ascii.eqb c) w with
        | "" => String c nl
        | v => v ++ nl
        end
    | None => s
    end
  else s.

Definition illegal_characters : list ascii :=
  ["#"; "!"; "?"; "\"; "/"; "~"; "|"; "&"; "$"]%char.

(** One round of the [for character in illegal_characters] loop. *)
Definition strip_illegal (s : string) (c : ascii) : string :=
  let s1 := while (String.length s) (lead_match c) (lead_sub c) s in
  while (String.length s1) (trail_match c) (trail_sub c) s1.

Definition normalize_version_name (version_name : string) : string :=
  let new_version_name := fold_left strip_illegal illegal_characters version_name in
  let new_version_name := replace "_" " " (strip new_version_name) in
  rstrip_by (Ascii.eqb ".") new_version_name.

(** Nothing for the normalizer to do: no loop guard fires, no whitespace at
    either end, no underscore, no trailing period. *)
Definition settled (s : string) : bool :=
  forallb (fun c => negb (lead_match c s) && negb (trail_match c s)) illegal_characters
  && String.eqb (strip s) s
  && negb (contains_char "_" s)
  && negb (ends_with "." s).

(* ================================================================== *)
(** ** Hyphen-spacing repair in get_product_id *)

(** The class [[a-zá-úñ]] under [re.IGNORECASE]: the matcher lower-cases
    the character and looks it up in the set. *)
Definition letter_class (c : ascii) : bool :=
  let l := lower_char c in
  between 97 122 l || between 225 250 l || (code l =? 241)%N.

Definition hyphen : ascii := "-"%char.

(** [re.search(r"[a-zá-úñ]-", s, flags=re.IGNORECASE)] *)
Fixpoint hyphen_search (s : string) : bool :=
  match s with
  | "" => false
  | String c t => (letter_class c && starts_with hyphen t) || hyphen_search t
  end.

(** [re.sub(r"([a-zá-úñ])-\s", r"\1 - ", s, flags=re.IGNORECASE)]: every
    letter, hyphen, whitespace triple, scanning from the left. *)
Fixpoint hyphen_sub (s : string) : string :=
  match s with
  | "" => ""
  | String c t =>
      match t with
      | String h (String w u) =>
          if letter_class c && Ascii.eqb h hyphen && isspace w
          then String c (" - " ++ hyphen_sub u)
          else String c (hyphen_sub t)
      | _ => String c (hyphen_sub t)
      end
  end.

(** The substitution rewrites at [c] when [c] is a letter and what follows
    is a hyphen and a whitespace character. *)
Definition hyphen_hit (c : ascii) (t : string) : bool :=
  match t with
  | String h (String w _) => letter_class c && Ascii.eqb h hyphen && isspace w
  | _ => false
  end.

(** The loop
    [while re.search(...): product_name = re.sub(...)]
    run for at most [fuel] tests of its guard; [None] when it is still
    running after that. *)
Fixpoint hyphen_repair (fuel : nat) (product_name : string) : option string :=
  match fuel with
  | O => None
  | S f =>
      if hyphen_search product_name
      then hyphen_repair f (hyphen_sub product_name)
      else Some product_name
  end.

(* ================================================================== *)
(** ** Exceptions, dictionaries, sorting *)

(** The exceptions of the engine.  [OtherError] stands for an exception of
    any other class, named by its class: a request that fails, an answer
    that is not JSON, a pattern that the regex compiler refuses. *)
Inductive exn :=
| TypeError
| ValueError
| KeyError
| IndexError
| OtherError (class : string).

Inductive result (A : Type) :=
| Ok (a : A)
| Raise (e : exn).
Arguments Ok {A} a.
Arguments Raise {A} e.

Definition bind {A B : Type} (r : result A) (k : A -> result B) : result B :=
  match r with
  | Ok a => k a
  | Raise e => Raise e
  end.

Notation "x <- r ;; k" := (bind r (fun x => k))
  (at level 61, r at next level, right associativity).

(** A Python [dict] with [str] keys: the items in insertion order, every
    key at most once. *)
Definition dict (V : Type) : Type := list (string * V).

Definition keys {V : Type} (d : dict V) : list string := map fst d.

Fixpoint dict_get {V : Type} (k : string) (d : dict V) : option V :=
  match d with
  | [] => None
  | (k', v) :: t => if String.eqb k k' then Some v else dict_get k t
  end.

(** [d[k] = v]: an existing key keeps its place, a new one goes last. *)
Fixpoint dict_set {V : Type} (k : string) (v : V) (d : dict V) : dict V :=
  match d with
  | [] => [(k, v)]
  | (k', v') :: t =>
      if String.eqb k k' then (k, v) :: t else (k', v') :: dict_set k v t
  end.

Definition dict_has {V : Type} (k : string) (d : dict V) : bool :=
  match dict_get k d with Some _ => true | None => false end.

(** The items of [d] visited by [for k in ks: ... d[k] ...], for [ks] drawn
    from the keys of [d]. *)
Definition items_at {V : Type} (d : dict V) (ks : list string) : list (string * V) :=
  flat_map (fun k => match dict_get k d with Some v => [(k, v)] | None => [] end) ks.

Fixpoint insert_sorted (x : string) (l : list string) : list string :=
  match l with
  | [] => [x]
  | y :: t => if String.leb x y then x :: l else y :: insert_sorted x t
  end.

(** [sorted(l)] on strings: ascending code-point order. *)
Definition sorted (l : list string) : list string := fold_right insert_sorted [] l.

(** The order [sorted] puts strings in. *)
Definition le_str (a b : string) : Prop := String.leb a b = true.

(** Building a [set] by adding the elements of [l] one by one. *)
Definition distinct (l : list string) : list string :=
  fold_left (fun acc x => if str_in x acc then acc else (acc ++ [x])%list) l [].

(* ================================================================== *)
(** ** JSON scalars read from descriptors and from the data file *)

Inductive jatom :=
| JNull
| JBool (b : bool)
| JInt (z : Z)
| JStr (s : string).

Definition is_none (j : jatom) : bool :=
  match j with JNull => true | _ => false end.

(** Python [==] on these values ([bool] is an [int]). *)
Definition py_eq (a b : jatom) : bool :=
  match a, b with
  | JNull, JNull => true
  | JStr s, JStr t => String.eqb s t
  | JInt x, JInt y => (x =? y)%Z
  | JBool x, JBool y => Bool.eqb x y
  | JBool x, JInt y | JInt y, JBool x => ((if x then 1 else 0) =? y)%Z
  | _, _ => false
  end.

(** Python [str(...)] on these values. *)
Definition py_str (j : jatom) : string :=
  match j with
  | JNull => "None"
  | JBool true => "True"
  | JBool false => "False"
  | JInt z => str_of_int z
  | JStr s => s
  end.

Definition of_opt (o : option string) : jatom :=
  match o with Some s => JStr s | None => JNull end.

(** [x in l] for a list of JSON scalars. *)
Definition j_in (x : jatom) (l : list jatom) : bool := existsb (py_eq x) l.

(** The fields [is_main_game] reads with [installer_info.get(...)]; a
    missing key and a JSON null both read as [JNull]. *)
Record installer_info := {
  dependencyGameId : jatom;
  gameId : jatom;
  rootGameId : jatom
}.

(* ================================================================== *)
(** ** The remote text search *)

Record product := { prod_id : Z; title : string }.

(** The answer of the catalog to a text search (the JSON that
    [download_data] returns). *)
Record search_response := {
  totalGamesFound : Z;
  products : list product
}.

(** The branches of [search_product_id_on_gog] after the zero-result case,
    the same in both files. *)
Definition pick_product (product_name : string) (gog_info : search_response)
  : result (option string) :=
  if (totalGamesFound gog_info =? 1)%Z then
    match products gog_info with
    | p :: _ => Ok (Some (str_of_int (prod_id p)))
    | [] => Raise IndexError
    end
  else
    match find (fun p => String.eqb (lower product_name) (lower (title p)))
               (products gog_info) with
    | Some p => Ok (Some (str_of_int (prod_id p)))
    | None => Ok None
    end.

Definition backspace : ascii := ascii_of_N 8.

(** The characters with a meaning of their own in a regular expression. *)
Definition regex_special (c : ascii) : bool :=
  contains_char c ".^$*+?{}[]\|()".

(** A text that, compiled as a regular expression, matches itself and
    nothing else. *)
Definition regex_plain (s : string) : bool :=
  all_chars (fun c => negb (regex_special c)) s.

(** [re.sub(pattern, repl, s, 1)] for a pattern that is a literal string
    (no regex metacharacter) and a replacement without backslash: the
    leftmost occurrence only. *)
Fixpoint sub_first (pattern repl s : string) : string :=
  match s with
  | "" => ""
  | String c t =>
      if prefix pattern s then repl ++ drop (String.length pattern) s
      else String c (sub_first pattern repl t)
  end.

(** The inner loop of [dedup_installers_id],
    [for key in sorted(installers_dict.keys()): if installers_dict[key] ==
    product_id: ... break]: the first path, in sorted order, mapped to
    [product_id]. *)
Definition first_path (installers_dict : dict string) (product_id : string)
  : option string :=
  find (fun key => match dict_get key installers_dict with
                   | Some i => String.eqb i product_id
                   | None => false
                   end)
       (sorted (keys installers_dict)).

(** One round of the loop over the ids; [None] when [while not found]
    never ends, because no path has the id. *)
Definition add_first_path (installers_dict : dict string)
  (acc : option (dict (dict string))) (product_id : string)
  : option (dict (dict string)) :=
  match acc with
  | None => None
  | Some deduped_installers_dict_aux =>
      match first_path installers_dict product_id with
      | Some key =>
          Some (dict_set key [("product_id", product_id)] deduped_installers_dict_aux)
      | None => None
      end
  end.

(** The last loop of [dedup_installers_id]: the items copied in the order
    of the sorted paths. *)
Definition resort (deduped_installers_dict_aux : dict (dict string))
  : dict (dict string) :=
  fold_left (fun deduped_installers_dict kv =>
               dict_set (fst kv) (snd kv) deduped_installers_dict)
            (items_at deduped_installers_dict_aux
                      (sorted (keys deduped_installers_dict_aux)))
            [].

Module Main.

Section Search.
(** The values of [ROMAN_NUMERALS]: the data file is not validated, so
    they are JSON values of any kind, and [str] is what [str(...)] makes
    of them. *)
Variable value : Type.
Variable str : value -> string.
(** [ROMAN_NUMERALS] of the data file, in the order of the file. *)
Variable ROMAN_NUMERALS : dict value.
(** [download_data] on the search URL: [None] on an answer with a status
    other than 200; a request that fails and an answer that is not JSON
    raise. *)
Variable download_data : string -> result (option search_response).

(** The [for numeral in ROMAN_NUMERALS.keys()] loop. *)
Definition substitute_numerals (product_name : string) : bool * string :=
  fold_left
    (fun (st : bool * string) (kv : string * value) =>
       let (found_numeral, product_name) := st in
       let (numeral, value) := kv in
       if str_in numeral (split product_name)
       then (true, replace numeral (str value) product_name)
       else (found_numeral, product_name))
    ROMAN_NUMERALS (false, product_name).

(** Returns the searches sent to the catalog, in order, and the value
    returned; [None] when the recursion is still going on after [fuel]
    calls. *)
Fixpoint search_product_id_on_gog (fuel : nat) (product_name : string)
  : list string * option (result (option string)) :=
  match fuel with
  | O => ([], None)
  | S f =>
      match download_data product_name with
      | Raise e => ([product_name], Some (Raise e))
      | Ok None => ([product_name], Some (Ok None))
      | Ok (Some gog_info) =>
          if (totalGamesFound gog_info =? 0)%Z then
            let (found_numeral, product_name') := substitute_numerals product_name in
            if found_numeral then
              let (sent, r) := search_product_id_on_gog f product_name' in
              (product_name :: sent, r)
            else ([product_name], Some (Ok None))
          else ([product_name], Some (pick_product product_name gog_info))
      end
  end.
End Search.
Arguments substitute_numerals {value} str ROMAN_NUMERALS product_name.
Arguments search_product_id_on_gog {value} str ROMAN_NUMERALS download_data fuel
  product_name.

(** [GOODIES_ID] is a dict keyed by product id. *)
Definition is_main_game (GOODIES_ID : dict string) (installer_info : installer_info) : bool :=
  if negb (is_none (dependencyGameId installer_info)) then
    if negb (py_eq (dependencyGameId installer_info) (JStr "")) then false
    else true
  else if negb (py_eq (gameId installer_info) (rootGameId installer_info)) then false
  else if dict_has (py_str (rootGameId installer_info)) GOODIES_ID then false
  else true.

(** An element of [MATCH_VERSIONS[product_id]]: a JSON list, or something
    else. *)
Inductive group :=
| VersionList (l : list jatom)
| NotAList.

(** The value under a product id as [for version_list in ...] meets it
    (the data file is not validated): what the loop runs over (the
    elements of a list; for a string its characters and for an object its
    keys, none of which is a list), or a value that cannot be iterated (a
    number, a boolean, null), on which the loop raises [TypeError]. *)
Inductive match_value :=
| Groups (l : list group)
| NotIterable.

Definition versions_should_match (MATCH_VERSIONS : dict match_value)
  (product_id local_version : string) (online_version : option string)
  : result bool :=
  if (List.length MATCH_VERSIONS =? 0)%nat then Ok false
  else
    match dict_get product_id MATCH_VERSIONS with
    | Some (Groups groups) =>
        Ok (existsb
              (fun g =>
                 match g with
                 | NotAList => false
                 | VersionList version_list =>
                     if negb (List.length version_list =? 2)%nat then false
                     else j_in (of_opt online_version) version_list
                          && j_in (JStr local_version) version_list
                 end)
              groups)
    | Some NotIterable => Raise TypeError
    | None => Ok false
    end.

(** [None]: the [while not found] loop never ends. *)
Definition dedup_installers_id (installers_dict : dict string)
  : option (dict (dict string)) :=
  let id_list :=
    distinct (map snd (items_at installers_dict (sorted (keys installers_dict)))) in
  match fold_left (add_first_path installers_dict) (sorted id_list) (Some []) with
  | None => None
  | Some deduped_installers_dict_aux => Some (resort deduped_installers_dict_aux)
  end.

End Main.

Module Checker.

Section Search.
(** [re.sub(pattern, repl, s, 1)] for a pattern that has a regex
    metacharacter in it: the new string, or the exception of the regex
    compiler. *)
Variable re_sub_first : string -> string -> string -> result string.
(** [DATA.Roman_Numerals : dict[str, int] | None] *)
Variable Roman_Numerals : option (dict Z).
(** [download_data] on the search URL: [None] on a failed request; an
    answer that is not JSON raises. *)
Variable download_data : string -> result (option search_response).

(** The pattern [f"\b{numeral}\b"]: the string literal is not raw, so
    each [\b] is the backspace character U+0008. *)
Definition numeral_pattern (numeral : string) : string :=
  String backspace (numeral ++ String backspace "").

(** [re.sub(f"\b{numeral}\b", repl, s, 1)]: the numeral is compiled as a
    regular expression; without a metacharacter in it the pattern is the
    literal text.  [repl] is [str] of an [int] and has no backslash. *)
Definition sub_numeral (numeral repl s : string) : result string :=
  if regex_plain numeral
  then Ok (sub_first (numeral_pattern numeral) repl s)
  else re_sub_first (numeral_pattern numeral) repl s.

(** The [for numeral in DATA.Roman_Numerals] loop. *)
Definition substitute_numerals (numerals : dict Z) (product_name : string)
  : result (bool * string) :=
  fold_left
    (fun (acc : result (bool * string)) (kv : string * Z) =>
       st <- acc ;;
       let (found_numeral, product_name) := st in
       let (numeral, value) := kv in
       if str_in numeral (split product_name)
       then
         product_name <- sub_numeral numeral (str_of_int value) product_name ;;
         Ok (true, product_name)
       else Ok (found_numeral, product_name))
    numerals (Ok (false, product_name)).

Fixpoint search_product_id_on_gog (fuel : nat) (product_name : string)
  : list string * option (result (option string)) :=
  match fuel with
  | O => ([], None)
  | S f =>
      match download_data product_name with
      | Raise e => ([product_name], Some (Raise e))
      | Ok None => ([product_name], Some (Ok None))
      | Ok (Some gog_info) =>
          if (totalGamesFound gog_info =? 0)%Z then
            match Roman_Numerals with
            | Some numerals =>
                match substitute_numerals numerals product_name with
                | Raise e => ([product_name], Some (Raise e))
                | Ok (found_numeral, product_name') =>
                    if found_numeral then
                      let (sent, r) := search_product_id_on_gog f product_name' in
                      (product_name :: sent, r)
                    else ([product_name], Some (Ok None))
                end
            | None => ([product_name], Some (Ok None))
            end
          else ([product_name], Some (pick_product product_name gog_info))
      end
  end.
End Search.

Definition is_main_game (Goodies_ID : option (dict string))
  (installer_info : installer_info) : bool :=
  if negb (is_none (dependencyGameId installer_info)) then
    if negb (py_eq (dependencyGameId installer_info) (JStr "")) then false
    else true
  else if negb (py_eq (gameId installer_info) (rootGameId installer_info)) then false
  else
    match Goodies_ID with
    | Some goodies =>
        if dict_has (py_str (rootGameId installer_info)) goodies then false
        else true
    | None => true
    end.

(** [DATA.Match_Versions : dict[str, list[tuple[str, str]]] | None]; the
    data file has been validated, so nothing raises here. *)
Definition versions_should_match (Match_Versions : option (dict (list (string * string))))
  (product_id local_version : string) (online_version : option string)
  : result bool :=
  match Match_Versions with
  | None => Ok false
  | Some match_versions =>
      if (List.length match_versions =? 0)%nat then Ok false
      else
        match dict_get product_id match_versions with
        | Some groups =>
            Ok (existsb
                  (fun version_list : string * string =>
                     let l := [JStr (fst version_list); JStr (snd version_list)] in
                     j_in (of_opt online_version) l && j_in (JStr local_version) l)
                  groups)
        | None => Ok false
        end
  end.

Section Dedup.
(** The order in which [for product_id in id_list] visits the set
    [set(installers_dict.values())]. *)
Variable set_iter : list string -> list string.

Definition dedup_installers_id (installers_dict : dict string)
  : option (dict (dict string)) :=
  let id_list := set_iter (map snd installers_dict) in
  match fold_left (add_first_path installers_dict) id_list (Some []) with
  | None => None
  | Some deduped_installers_dict_aux => Some (resort deduped_installers_dict_aux)
  end.
End Dedup.

End Checker.

(* ================================================================== *)
(** ** Version reconciliation *)

Definition UNKNOWN : string := "Unknown".

(** One entry of [local_info].  The product name is [None] when neither
    the executable nor the descriptor of the installer has one. *)
Record local_installer := {
  product_id : string;
  product_name : option string;
  old_version : bool;
  build_id : option string;
  version_name : option string
}.

(** One entry of [online_info]. *)
Record online_entry := {
  remote_version_name : option string;
  remote_build_id : option string;
  remote_old_version : option bool
}.

(** What [load_online_data] stores for a product the catalog does not
    know. *)
Definition not_found_online : online_entry :=
  {| remote_version_name := None; remote_build_id := None; remote_old_version := None |}.

(** A build as the report shows it: the integer read by [int(...)], or a
    string. *)
Inductive build :=
| BuildNum (z : Z)
| BuildText (s : string).

(** One entry of [new_versions_dict]. *)
Record finding := {
  found_product_name : option string;
  local_version : string;
  local_build : build;
  local_old_version : bool;
  online_version : option string;
  online_build : build;
  online_old_version : bool
}.

Inductive level := INFO | WARNING | ERROR.

Inductive message :=
| OnlineBuildNewer
| OnlineBuildNotNewer
| CantCompare (product_name : option string) (product_id : string)
| OnlineVersionNewer
| OnlineVersionNotNewer
| NotFoundOnline (product_id : string)
| NoRepositoryData (product_id : string)
| AssumeUpdate.

Inductive event :=
| Log (l : level) (m : message)
| Print (line : string).

(** [new_versions_dict] and what has been logged and printed so far (most
    recent last). *)
Record state := {
  new_versions_dict : dict finding;
  events : list event
}.

Definition emit (e : event) (st : state) : state :=
  {| new_versions_dict := new_versions_dict st; events := events st ++ [e] |}.

Definition store (product_id : string) (f : finding) (st : state) : state :=
  {| new_versions_dict := dict_set product_id f (new_versions_dict st);
     events := events st |}.

Definition is_digit (c : ascii) : bool := between 48 57 c.

(** The digits of an [int] literal: single underscores are allowed between
    digits.  [sep] says that a digit has to come next. *)
Fixpoint digits_value (acc : Z) (sep : bool) (s : string) : option Z :=
  match s with
  | "" => if sep then None else Some acc
  | String c t =>
      if is_digit c then digits_value (acc * 10 + (Z.of_N (code c) - 48)) false t
      else if Ascii.eqb c "_" && negb sep then digits_value acc true t
      else None
  end.

(** The padding [int(...)] accepts around a number: the whitespace of
    [str.isspace] without FS..US. *)
Definition int_space (c : ascii) : bool :=
  between 9 13 c || (code c =? 32)%N || (code c =? 133)%N || (code c =? 160)%N.

(** The number of digits in a literal: what the limit of [int] on the
    length of a decimal string counts. *)
Fixpoint count_digits (s : string) : N :=
  match s with
  | "" => 0
  | String c t => ((if is_digit c then 1 else 0) + count_digits t)%N
  end.

(** [int(s)] for a [str]; [None] is [ValueError].  A literal of more than
    4300 digits is refused. *)
Definition py_int (s : string) : option Z :=
  match rstrip_by int_space (lstrip_by int_space s) with
  | "" => None
  | String c r as t =>
      if (4300 <? count_digits t)%N then None
      else if Ascii.eqb c "-" then option_map Z.opp (digits_value 0 true r)
      else if Ascii.eqb c "+" then digits_value 0 true r
      else digits_value 0 true t
  end.

(** [try: b = int(x) / except TypeError: b = UNKNOWN] *)
Definition read_build (x : option string) : result build :=
  match x with
  | None => Ok (BuildText UNKNOWN)
  | Some s =>
      match py_int s with
      | Some z => Ok (BuildNum z)
      | None => Raise ValueError
      end
  end.

Definition fmt_opt (o : option string) : string :=
  match o with Some s => s | None => "None" end.

Definition fmt_build (b : build) : string :=
  match b with BuildNum z => str_of_int z | BuildText s => s end.

Definition is_unknown (v : option string) : bool :=
  match v with
  | None => true
  | Some s => String.eqb s UNKNOWN
  end.

(** [normalize_version_name] as the reconciler calls it: [re.match] raises
    [TypeError] on [None]. *)
Definition call_normalize (v : option string) : result string :=
  match v with
  | Some s => Ok (normalize_version_name s)
  | None => Raise TypeError
  end.

Definition lookup {V : Type} (k : string) (d : dict V) : result V :=
  match dict_get k d with
  | Some v => Ok v
  | None => Raise KeyError
  end.

(** [installer_name_map] of [sort_local_info]: a dict whose keys are
    product names, [None] among them. *)
Definition name_eqb (a b : option string) : bool :=
  match a, b with
  | Some x, Some y => String.eqb x y
  | None, None => true
  | _, _ => false
  end.

Fixpoint name_get (k : option string) (d : list (option string * string))
  : option string :=
  match d with
  | [] => None
  | (k', v) :: t => if name_eqb k k' then Some v else name_get k t
  end.

Fixpoint name_set (k : option string) (v : string) (d : list (option string * string))
  : list (option string * string) :=
  match d with
  | [] => [(k, v)]
  | (k', v') :: t =>
      if name_eqb k k' then (k, v) :: t else (k', v') :: name_set k v t
  end.

(** The strings of a list that has no [None] in it. *)
Fixpoint all_named (l : list (option string)) : option (list string) :=
  match l with
  | [] => Some []
  | Some s :: t => option_map (cons s) (all_named t)
  | None :: _ => None
  end.

(** [sorted(...)] on product names.  Sorting two or more values compares
    every one of them with another, and [<] between [None] and anything
    raises [TypeError]. *)
Definition sorted_names (l : list (option string)) : result (list (option string)) :=
  match l with
  | [] | [_] => Ok l
  | _ =>
      match all_named l with
      | Some names => Ok (map Some (sorted names))
      | None => Raise TypeError
      end
  end.

(** [sort_local_info] *)
Definition sort_local_info (local_info : dict local_installer)
  : result (dict local_installer) :=
  let installer_name_map :=
    fold_left (fun (m : list (option string * string))
                   (kv : string * local_installer) =>
                 name_set (product_name (snd kv)) (fst kv) m)
              (items_at local_info (sorted (keys local_info))) [] in
  prod_names <- sorted_names (map fst installer_name_map) ;;
  Ok (fold_left
        (fun (sorted_local_info : dict local_installer) (prod_name : option string) =>
           match name_get prod_name installer_name_map with
           | Some installer =>
               match dict_get installer local_info with
               | Some info => dict_set installer info sorted_local_info
               | None => sorted_local_info
               end
           | None => sorted_local_info
           end)
        prod_names []).

Section Reconciler.
(** [versions_should_match] of either file, with its configuration: its
    answer, or the exception it raises.  What it logs itself is not
    recorded in [events]. *)
Variable versions_should_match : string -> string -> option string -> result bool.
(** [download_data] on the builds URL: the [items] of the answer as
    (build id, version name) pairs, for an answer with the keys the loop
    reads; [None] when [download_data] returns [None]; a request that
    fails ([main.py]), an answer that is not JSON and an answer that lacks
    a key raise. *)
Variable download_builds : string -> result (option (list (string * option string))).

Definition get_local_version_from_gog (local_build product_id : string)
  : result (option string) :=
  gog_dict <- download_builds product_id ;;
  match gog_dict with
  | None => Ok None
  | Some items =>
      match find (fun item => String.eqb (fst item) local_build) items with
      | Some item => Ok (snd item)
      | None => Ok None
      end
  end.

Definition report_line (product_name : option string)
  (product_id local_version : string)
  (local_build : build) (online_version : option string) (online_build : build)
  : string :=
  fmt_opt product_name ++ " (" ++ product_id ++ ") : " ++ local_version
    ++ " (" ++ fmt_build local_build ++ ") -> " ++ fmt_opt online_version
    ++ " (" ++ fmt_build online_build ++ ")".

Definition compare_new_versions (local_installer_info : local_installer)
  (online_info : dict online_entry) (st : state) : result state :=
  let product_id := product_id local_installer_info in
  let product_name := product_name local_installer_info in
  entry <- lookup product_id online_info ;;
  let online_version := remote_version_name entry in
  let local_version := version_name local_installer_info in
  online_build <- read_build (remote_build_id entry) ;;
  local_build <- read_build (build_id local_installer_info) ;;
  match online_build, local_build with
  | BuildNum ob, BuildNum lb =>
      if (ob >? lb)%Z then
        let st := emit (Log INFO OnlineBuildNewer) st in
        local_version <-
          (if is_unknown local_version
           then get_local_version_from_gog (str_of_int lb) product_id
           else Ok local_version) ;;
        let local_version :=
          match local_version with Some v => v | None => UNKNOWN end in
        let st :=
          store product_id
                {| found_product_name := product_name;
                   local_version := local_version;
                   local_build := local_build;
                   local_old_version := false;
                   online_version := online_version;
                   online_build := online_build;
                   online_old_version := false |} st in
        Ok (emit (Print (report_line product_name product_id local_version
                                     local_build online_version online_build)) st)
      else Ok (emit (Log INFO OnlineBuildNotNewer) st)
  | _, _ =>
      match local_version with
      | None => Ok (emit (Log ERROR (CantCompare product_name product_id)) st)
      | Some local_version =>
          if String.eqb local_version UNKNOWN
          then Ok (emit (Log ERROR (CantCompare product_name product_id)) st)
          else
            should_match <-
              versions_should_match product_id local_version online_version ;;
            if should_match then Ok st
            else
              local_version_norm <- call_normalize (Some local_version) ;;
              online_version_norm <- call_normalize online_version ;;
              if negb (String.eqb (lower local_version_norm)
                                  (lower online_version_norm))
              then
                let st := emit (Log INFO OnlineVersionNewer) st in
                let st :=
                  store product_id
                        {| found_product_name := product_name;
                           local_version := local_version;
                           local_build := local_build;
                           local_old_version := false;
                           online_version := online_version;
                           online_build := online_build;
                           online_old_version := false |} st in
                Ok (emit (Print (report_line product_name product_id local_version
                                             local_build online_version online_build))
                      st)
              else Ok (emit (Log INFO OnlineVersionNotNewer) st)
      end
  end.

Definition or_unknown (v : option string) : string :=
  match v with Some s => s | None => UNKNOWN end.

Definition compare_old_versions (local_installer_info : local_installer)
  (online_info : dict online_entry) (st : state) : result state :=
  let product_id := product_id local_installer_info in
  let product_name := product_name local_installer_info in
  entry <- lookup product_id online_info ;;
  match remote_old_version entry with
  | None => Ok (emit (Log INFO (NotFoundOnline product_id)) st)
  | Some online_is_old =>
      let online_version := or_unknown (remote_version_name entry) in
      let local_version := or_unknown (version_name local_installer_info) in
      let local_build := BuildText (or_unknown (build_id local_installer_info)) in
      let online_build := BuildText (or_unknown (remote_build_id entry)) in
      if online_is_old then
        if String.eqb online_version UNKNOWN
        then Ok (emit (Log INFO (NoRepositoryData product_id)) st)
        else
          should_match <-
            versions_should_match product_id local_version (Some online_version) ;;
          if should_match then Ok st
          else if negb (String.eqb online_version local_version) then
          let st := emit (Log INFO OnlineVersionNewer) st in
          let st :=
            store product_id
                  {| found_product_name := product_name;
                     local_version := local_version;
                     local_build := local_build;
                     local_old_version := true;
                     online_version := Some online_version;
                     online_build := online_build;
                     online_old_version := true |} st in
          Ok (emit (Print (fmt_opt product_name ++ " (" ++ product_id ++ ") : "
                             ++ local_version ++ " -> " ++ online_version)) st)
        else Ok (emit (Log INFO OnlineVersionNotNewer) st)
      else
        let st := emit (Log INFO AssumeUpdate) st in
        let st :=
          store product_id
                {| found_product_name := product_name;
                   local_version := local_version;
                   local_build := local_build;
                   local_old_version := true;
                   online_version := Some online_version;
                   online_build := online_build;
                   online_old_version := false |} st in
        Ok (emit (Print (fmt_opt product_name ++ " (" ++ product_id ++ ") : "
                           ++ local_version ++ " {OLD GEN INSTALLER} -> "
                           ++ online_version)) st)
  end.

(** [compare_versions]: the records in the order of [sort_local_info];
    an exception ends the loop. *)
Definition compare_versions (local_info : dict local_installer)
  (online_info : dict online_entry) : result state :=
  local_info <- sort_local_info local_info ;;
  fold_left
    (fun (acc : result state) (kv : string * local_installer) =>
       st <- acc ;;
       if old_version (snd kv)
       then compare_old_versions (snd kv) online_info st
       else compare_new_versions (snd kv) online_info st)
    local_info
    (Ok {| new_versions_dict := []; events := [Print ""] |}).
End Reconciler.

(** [normalize_version_name] applied [n] times. *)
Fixpoint normalize_times (n : nat) (s : string) : string :=
  match n with
  | O => s
  | S k => normalize_times k (normalize_version_name s)
  end.

(* ================================================================== *)
(** ** Filename grammar: the old-gen version suffix *)

Definition starts_with_digit (s : string) : bool :=
  match s with
  | String c _ => is_digit c
  | "" => false
  end.

(** A literal character of a pattern under [re.IGNORECASE]. *)
Definition ci_eqb (c p : ascii) : bool := Ascii.eqb (lower_char c) (lower_char p).

(** [s] starts with the literal text [p], letters compared without
    regard to case. *)
Fixpoint ci_prefix (p s : string) : bool :=
  match p, s with
  | "", _ => true
  | String a p', String b s' => ci_eqb b a && ci_prefix p' s'
  | String _ _, "" => false
  end.

Definition literal_prefix (ignorecase : bool) (p s : string) : bool :=
  if ignorecase then ci_prefix p s else prefix p s.

(** [[0-9]+(?:\.[0-9]+)*] read greedily: digits, and periods that a digit
    follows.  Returns what was read and the rest. *)
Fixpoint dotted_prefix (s : string) : string * string :=
  match s with
  | "" => ("", "")
  | String c t =>
      if is_digit c || (Ascii.eqb c "." && starts_with_digit t)
      then let (v, r) := dotted_prefix t in (String c v, r)
      else ("", s)
  end.

(** [OLD_VERSION_REGEX], [_([0-9]+(?:\.[0-9]+)+)\.exe], tried on the text
    after an underscore: group 1. *)
Definition old_version_here (ignorecase : bool) (t : string) : option string :=
  if starts_with_digit t then
    let (v, r) := dotted_prefix t in
    if contains_char "." v && literal_prefix ignorecase ".exe" r then Some v else None
  else None.

(** [re.search(OLD_VERSION_REGEX, s)]: group 1 of the leftmost match. *)
Fixpoint old_version_search (ignorecase : bool) (s : string) : option string :=
  match s with
  | "" => None
  | String c t =>
      if Ascii.eqb c "_" then
        match old_version_here ignorecase t with
        | Some v => Some v
        | None => old_version_search ignorecase t
        end
      else old_version_search ignorecase t
  end.

(** [get_old_version_from_filename] (the pattern is used with
    [re.IGNORECASE] in both files). *)
Definition get_old_version_from_filename (filename : string) : option string :=
  old_version_search true filename.

(** The test [re.search(OLD_VERSION_REGEX, installer)] by which
    [insert_missing_info] tells old gen from current gen. *)
Definition old_installer (installer : string) : bool :=
  match old_version_search true installer with
  | Some _ => true
  | None => false
  end.

(** A version as the pattern accepts it: digits and periods, a digit
    first, a digit after every period, at least one period. *)
Fixpoint digits_and_periods (s : string) : bool :=
  match s with
  | "" => true
  | String c t =>
      (is_digit c || (Ascii.eqb c "." && starts_with_digit t)) && digits_and_periods t
  end.

Definition dotted_version (v : string) : bool :=
  starts_with_digit v && contains_char "." v && digits_and_periods v.

(* ================================================================== *)
(** ** Build id and version name in the executable's ProductVersion *)

Fixpoint span_digits (s : string) : string * string :=
  match s with
  | "" => ("", "")
  | String c t =>
      if is_digit c then let (d, r) := span_digits t in (String c d, r)
      else ("", s)
  end.

Fixpoint digits_only (s : string) : bool :=
  match s with
  | "" => true
  | String c t => is_digit c && digits_only t
  end.

(** [\[([0-9]+)\]] at the start of [t]: group 1. *)
Definition bracket_build (t : string) : option string :=
  match t with
  | String c u =>
      if Ascii.eqb c "[" then
        let (d, r) := span_digits u in
        if negb (String.eqb d "") && starts_with "]" r then Some d else None
      else None
  | "" => None
  end.

(** [BUILD_ID_REGEX], [.+?\.\[([0-9]+)\]]: group 1 of the leftmost match,
    the build at the first period that has a character other than a
    newline before it and a bracketed number after it.  [prev_ok] says that
    such a character comes before.  With [first_line_only] the match has to
    start at the beginning of the string ([re.match]), so it cannot pass a
    newline. *)
Fixpoint build_id_scan (first_line_only prev_ok : bool) (s : string) : option string :=
  match s with
  | "" => None
  | String c t =>
      match (if prev_ok && Ascii.eqb c "." then bracket_build t else None) with
      | Some d => Some d
      | None =>
          if Ascii.eqb c newline
          then if first_line_only then None else build_id_scan first_line_only false t
          else build_id_scan first_line_only true t
      end
  end.

(** Where [$] matches. *)
Definition at_end (t : string) : bool :=
  match t with
  | "" => true
  | String c "" => Ascii.eqb c newline
  | _ => false
  end.

Definition tail (s : string) : string :=
  match s with
  | "" => ""
  | String _ t => t
  end.

(** [(?:\[[0-9]*\]?)?$] at the start of [t]. *)
Definition version_tail (t : string) : bool :=
  at_end t
  || match t with
     | String c u =>
         Ascii.eqb c "[" &&
         (let (d, r) := span_digits u in
          at_end r || (starts_with "]" r && at_end (tail r)))
     | "" => false
     end.

(** [VERSION_NAME_REGEX], [(.+?)\.(?:\[[0-9]*\]?)?$]: group 1 of the
    leftmost match, the text of the line before the first period that has
    something before it on its line and only a bracket like that after it.
    [line] is the text of the line read so far. *)
Fixpoint version_name_scan (first_line_only : bool) (line s : string) : option string :=
  match s with
  | "" => None
  | String c t =>
      if negb (String.eqb line "") && Ascii.eqb c "." && version_tail t then Some line
      else if Ascii.eqb c newline
           then if first_line_only then None else version_name_scan first_line_only "" t
           else version_name_scan first_line_only (line ++ String c "") t
  end.

(** The two properties of the executable that the engine reads. *)
Record exe_info := {
  ProductName : option string;
  ProductVersion : option string
}.

(** What [get_local_info_from_exe] returns for a file. *)
Record exe_fields := {
  exe_build_id : option string;
  exe_product_name : option string;
  exe_old_version : bool;
  exe_version_name : option string
}.

Module MainRecords.

(** [main.py]: each pattern is tried with [re.match] first, which raises
    [TypeError] on a missing ProductVersion. *)
Definition get_local_info_from_exe (exe_info : exe_info) (old_installer : bool)
  : result exe_fields :=
  match ProductVersion exe_info with
  | None => Raise TypeError
  | Some product_version =>
      Ok {| exe_build_id := build_id_scan true false product_version;
            exe_product_name := ProductName exe_info;
            exe_old_version := old_installer;
            exe_version_name :=
              if negb old_installer
              then version_name_scan true "" product_version
              else Some product_version |}
  end.

End MainRecords.

Module CheckerRecords.

(** [gog_installer_update_checker.py]: [search] only, and a missing
    ProductVersion gives no build id and no version. *)
Definition get_local_info_from_exe (exe_info : exe_info) (old_installer : bool)
  : exe_fields :=
  {| exe_build_id :=
       match ProductVersion exe_info with
       | Some product_version => build_id_scan false false product_version
       | None => None
       end;
     exe_product_name := ProductName exe_info;
     exe_old_version := old_installer;
     exe_version_name :=
       if negb old_installer
       then match ProductVersion exe_info with
            | Some product_version => version_name_scan false "" product_version
            | None => None
            end
       else ProductVersion exe_info |}.

End CheckerRecords.

(* ================================================================== *)
(** ** Remote catalog: the latest build of a product *)

(** One element of ["items"] in the answer to the builds request. *)
Record build_item := {
  item_version_name : option string;
  item_build_id : option string;
  legacy_build_id : jatom
}.

(** The answer to the builds request. *)
Record builds_response := {
  count : Z;
  items : list build_item
}.

(** What the product answer has under ["_links"]. *)
Inductive pack_links :=
| LinksMissing
| IncludesMissing
| IncludesGames (hrefs : list (option string)).

(** The answer to the product request: the product type under
    ["_embedded"] (if both are there) and the links. *)
Record game_response := {
  productType : option string;
  links : pack_links
}.

(** The answer to the repository request: the executables of
    ["support_commands"]. *)
Record repository := {
  support_commands : list string
}.

(** The text of the URL pattern before the number; a period of the
    pattern stands for any character but a newline. *)
Fixpoint url_prefix (ignorecase : bool) (pattern s : string) : option string :=
  match pattern, s with
  | "", _ => Some s
  | String p pattern', String c s' =>
      if (if Ascii.eqb p "." then negb (Ascii.eqb c newline)
          else if ignorecase then ci_eqb c p else Ascii.eqb c p)
      then url_prefix ignorecase pattern' s'
      else None
  | String _ _, "" => None
  end.

(** [https://api.gog.com/v2/games/([0-9]+)\?locale=en-US] at the start of
    [s]: group 1. *)
Definition product_url_here (ignorecase : bool) (s : string) : option string :=
  match url_prefix ignorecase "https://api.gog.com/v2/games/" s with
  | Some r =>
      let (d, r') := span_digits r in
      if negb (String.eqb d "") && literal_prefix ignorecase "?locale=en-US" r'
      then Some d else None
  | None => None
  end.

(** [re.search] with that pattern: group 1 of the leftmost match. *)
Fixpoint product_url_search (ignorecase : bool) (s : string) : option string :=
  match product_url_here ignorecase s with
  | Some d => Some d
  | None =>
      match s with
      | "" => None
      | String _ t => product_url_search ignorecase t
      end
  end.

Section Online.
(** Whether the patterns are used with [re.IGNORECASE] where the two files
    differ: [false] for [main.py], [true] for the other file. *)
Variable ignorecase : bool.
(** [download_data] on the builds URL, the product URL and the repository
    URL: [None] when [download_data] returns [None]; a request that fails
    ([main.py]) and an answer that is not JSON raise. *)
Variable download_builds_json : string -> result (option builds_response).
Variable download_game : string -> result (option game_response).
Variable download_repository : string -> string -> result (option repository).

Definition get_product_id_from_pack (product_id : string) : result (option string) :=
  gog_dict <- download_game product_id ;;
  match gog_dict with
  | None => Ok None
  | Some gog_dict =>
      match productType gog_dict with
      | None => Ok (Some product_id)
      | Some product_type =>
          if negb (String.eqb product_type "PACK") then Ok (Some product_id)
          else
            match links gog_dict with
            | LinksMissing => Ok None
            | IncludesMissing => Raise TypeError
            | IncludesGames [] => Ok None
            | IncludesGames (None :: _) => Ok None
            | IncludesGames (Some href :: _) =>
                Ok (product_url_search ignorecase (strip href))
            end
      end
  end.

Definition get_last_version_old_installer (last_legacy_build_id product_id : string)
  : result (option string) :=
  gog_dict_old <- download_repository product_id last_legacy_build_id ;;
  match gog_dict_old with
  | None => Ok None
  | Some gog_dict_old =>
      match support_commands gog_dict_old with
      | [] => Raise IndexError
      | online_filename :: _ => Ok (old_version_search ignorecase online_filename)
      end
  end.

(** [load_online_data]; the result is [online_info] after the call. *)
Definition load_online_data (product_id : string) (online_info : dict online_entry)
  : result (dict online_entry) :=
  gog_dict <- download_builds_json product_id ;;
  match gog_dict with
  | None => Ok (dict_set product_id not_found_online online_info)
  | Some gog_dict =>
      gog_dict <-
        (if (count gog_dict =? 0)%Z then
           new_product_id <- get_product_id_from_pack product_id ;;
           match new_product_id with
           | Some new_product_id =>
               if negb (String.eqb new_product_id product_id)
               then download_builds_json new_product_id
               else Ok (Some gog_dict)
           | None => Ok (Some gog_dict)
           end
         else Ok (Some gog_dict)) ;;
      match gog_dict with
      | None => Raise TypeError
      | Some gog_dict =>
          if (count gog_dict =? 0)%Z
          then Ok (dict_set product_id not_found_online online_info)
          else
            match items gog_dict with
            | [] => Raise IndexError
            | item :: _ =>
                if is_none (legacy_build_id item) then
                  Ok (dict_set product_id
                        {| remote_version_name := item_version_name item;
                           remote_build_id := item_build_id item;
                           remote_old_version := Some false |}
                        online_info)
                else
                  let last_legacy_build_id := py_str (legacy_build_id item) in
                  last_version <-
                    get_last_version_old_installer last_legacy_build_id product_id ;;
                  Ok (dict_set product_id
                        {| remote_version_name := last_version;
                           remote_build_id := Some last_legacy_build_id;
                           remote_old_version := Some true |}
                        online_info)
            end
      end
  end.

(** [get_online_data]: one call per installer, in the order of the sorted
    paths. *)
Definition get_online_data (local_info : dict local_installer)
  : result (dict online_entry) :=
  fold_left
    (fun (acc : result (dict online_entry)) (kv : string * local_installer) =>
       online_info <- acc ;;
       load_online_data (product_id (snd kv)) online_info)
    (items_at local_info (sorted (keys local_info)))
    (Ok []).
End Online.

(* ================================================================== *)
(** ** Characters of a number *)

(** The characters [str] of an [int] is made of: the digits and the minus
    sign. *)
Definition number_char (c : ascii) : bool := is_digit c || Ascii.eqb c "-".

(** A numeral written without any of them. *)
Definition no_number_char (s : string) : bool :=
  all_chars (fun c => negb (number_char c)) s.

(** A text that reads as a number: digits and minus signs, at least one. *)
Definition written_as_number (s : string) : bool :=
  all_chars number_char s && negb (String.eqb s "").

(* ================================================================== *)
(** ** Inputs used in the statements below *)

(** A catalog in which every text search finds nothing. *)
Definition no_games : string -> result (option search_response) :=
  fun _ => Ok (Some {| totalGamesFound := 0; products := [] |}).

(** A descriptor with an empty [dependencyGameId] whose [gameId] is not its
    [rootGameId]. *)
Definition empty_dependency_info : installer_info :=
  {| dependencyGameId := JStr ""; gameId := JStr "1"; rootGameId := JStr "2" |}.

(** A current-gen installer with a known version and no build id. *)
Definition modern_1_2 : local_installer :=
  {| product_id := "1207658691"; product_name := Some "Game"; old_version := false;
     build_id := None; version_name := Some "1.2" |}.

(** A current-gen installer with build 100 and no version. *)
Definition modern_build_100 : local_installer :=
  {| product_id := "1207658691"; product_name := Some "Game"; old_version := false;
     build_id := Some "100"; version_name := None |}.

(** An old-gen installer. *)
Definition legacy_3_0 : local_installer :=
  {| product_id := "1207658691"; product_name := Some "Game"; old_version := true;
     build_id := None; version_name := Some "3.0" |}.

Definition empty_state : state := {| new_versions_dict := []; events := [] |}.

(** No builds can be downloaded. *)
Definition no_builds : string -> result (option (list (string * option string))) :=
  fun _ => Ok None.




(** The catalog has build 105 for that product. *)
Definition online_build_105 : dict online_entry :=
  [("1207658691", {| remote_version_name := Some "1.1"; remote_build_id := Some "105";
                     remote_old_version := Some false |})].

(** The catalog does not know that product. *)
Definition online_not_found : dict online_entry :=
  [("1207658691", not_found_online)].



(** [set_iter] visits every element of the set once, in some order. *)
Definition enumerates (set_iter : list string -> list string) : Prop :=
  forall l, NoDup (set_iter l) /\ forall x, In x (set_iter l) <-> In x l.

(** Three installers of two products. *)
Definition three_installers : dict string :=
  [("c/setup_x.exe", "2"); ("b/setup_y.exe", "1"); ("a/setup_x.exe", "2")].

(** Two installers with the same product name and a third one. *)
Definition two_alphas : dict local_installer :=
  [("b.exe", {| product_id := "1"; product_name := Some "Zeta"; old_version := false;
                build_id := None; version_name := None |});
   ("c.exe", {| product_id := "2"; product_name := Some "Alpha"; old_version := false;
                build_id := None; version_name := Some "2.0" |});
   ("a.exe", {| product_id := "3"; product_name := Some "Alpha"; old_version := false;
                build_id := None; version_name := Some "1.0" |})].

(** The catalog has only an old-gen installer, version 3.1, for that
    product. *)
Definition online_legacy_3_1 : dict online_entry :=
  [("1207658691", {| remote_version_name := Some "3.1"; remote_build_id := Some "77";
                     remote_old_version := Some true |})].

(** One installer on disk. *)
Definition one_installer : dict local_installer :=
  [("a/setup_game.exe", modern_build_100)].

(** Every builds request is answered with one current-gen build. *)
Definition one_build : string -> result (option builds_response) :=
  fun _ => Ok (Some {| count := 1;
                       items := [{| item_version_name := Some "1.1";
                                    item_build_id := Some "105";
                                    legacy_build_id := JNull |}] |}).

(** Every product request is answered with a pack of one game. *)
Definition pack_of_one : string -> result (option game_response) :=
  fun _ => Ok (Some {| productType := Some "PACK";
                       links := IncludesGames
                         [Some " https://api.gog.com/v2/games/1207658691?locale=en-US "]
                    |}).

(** No repository can be downloaded. *)
Definition no_repository : string -> string -> result (option repository) :=
  fun _ _ => Ok None.

(** Two installers of two products, the later name first. *)
Definition two_installers : dict local_installer :=
  [("b/setup_zeta.exe",
    {| product_id := "2"; product_name := Some "Zeta"; old_version := false;
       build_id := Some "100"; version_name := Some "1.0" |});
   ("a/setup_alpha.exe",
    {| product_id := "1"; product_name := Some "Alpha"; old_version := false;
       build_id := Some "100"; version_name := Some "1.0" |})].

(** The catalog has build 105 for both. *)
Definition online_two : dict online_entry :=
  [("2", {| remote_version_name := Some "1.1"; remote_build_id := Some "105";
            remote_old_version := Some false |});
   ("1", {| remote_version_name := Some "1.1"; remote_build_id := Some "105";
            remote_old_version := Some false |})].

(** A current-gen installer whose build id is not a number. *)
Definition modern_build_10a : local_installer :=
  {| product_id := "1207658691"; product_name := Some "Game"; old_version := false;
     build_id := Some "10a"; version_name := None |}.

(** The catalog lists two builds of every product. *)
Definition two_builds : string -> result (option (list (string * option string))) :=
  fun _ => Ok (Some [("105", Some "1.1"); ("100", Some "1.0")]).

(** [MATCH_VERSIONS] of [main.py] with a number where the lists of the
    product should be. *)
Definition override_not_iterable : dict Main.match_value :=
  [("1207658691", Main.NotIterable)].

(** Three installers with the same product name. *)
Definition three_alphas : dict local_installer :=
  [("a.exe", {| product_id := "1"; product_name := Some "Alpha"; old_version := false;
                build_id := None; version_name := Some "1.0" |});
   ("b.exe", {| product_id := "2"; product_name := Some "Alpha"; old_version := false;
                build_id := None; version_name := Some "2.0" |});
   ("c.exe", {| product_id := "3"; product_name := Some "Alpha"; old_version := false;
                build_id := None; version_name := Some "3.0" |})].

(** An installer without a product name beside one that has a name. *)
Definition named_and_unnamed : dict local_installer :=
  [("a.exe", {| product_id := "1"; product_name := None; old_version := false;
                build_id := None; version_name := Some "1.0" |});
   ("b.exe", {| product_id := "2"; product_name := Some "Alpha"; old_version := false;
                build_id := None; version_name := Some "2.0" |})].

(** The order of product names that are there: [None] compares with
    nothing. *)
Definition le_name (a b : option string) : Prop :=
  match a, b with
  | Some x, Some y => le_str x y
  | _, _ => False
  end.

(** Some installer has no product name and some installer has one. *)
Definition mixed_names (local_info : dict local_installer) : Prop :=
  (exists p r, dict_get p local_info = Some r /\ product_name r = None)
  /\ (exists p r n, dict_get p local_info = Some r /\ product_name r = Some n).

(* ================================================================== *)
(** * Properties *)

(** ** Evaluation on sample inputs *)

Example normalize_ex1 : normalize_version_name "!#1" = "#1".
Proof. vm_compute. reflexivity. Qed.
Example normalize_ex2 : normalize_version_name "#1" = "1".
Proof. vm_compute. reflexivity. Qed.
Example normalize_ex3 : normalize_version_name "##!!1.2.0_beta..!!" = "1.2.0 beta".
Proof. vm_compute. reflexivity. Qed.
Example normalize_ex4 : normalize_version_name "1.0_" = "1.0 ".
Proof. vm_compute. reflexivity. Qed.
Example normalize_ex5 : normalize_version_name "###" = "#".
Proof. vm_compute. reflexivity. Qed.
Example split_ex : split "  Game  II " = ["Game"; "II"].
Proof. vm_compute. reflexivity. Qed.
Example replace_ex : replace "II" "2" "Game II VIII" = "Game 2 V2I".
Proof. vm_compute. reflexivity. Qed.
Example str_ex : str_of_int 2 = "2" /\ str_of_int 0 = "0" /\ str_of_int (-15) = "-15".
Proof. vm_compute. auto. Qed.

Example main_search_ex :
  Main.search_product_id_on_gog py_str [("II", JInt 2)] no_games 5 "Game II"
  = (["Game II"; "Game 2"], Some (Ok None)).
Proof. vm_compute. reflexivity. Qed.
Example checker_search_ex :
  Checker.search_product_id_on_gog (fun _ _ _ => Raise (OtherError "re.error"))
    (Some [("II", 2%Z)]) no_games 3 "Game II"
  = (["Game II"; "Game II"; "Game II"], None).
Proof. vm_compute. reflexivity. Qed.
Example hyphen_ex1 : hyphen_repair 5 "Half- Life" = Some "Half - Life".
Proof. vm_compute. reflexivity. Qed.
Example hyphen_ex2 : hyphen_repair 50 "Half-Life" = None.
Proof. vm_compute. reflexivity. Qed.
Example dedup_ex :
  Main.dedup_installers_id [("c/x.exe", "2"); ("b/y.exe", "1"); ("a/z.exe", "2")]
  = Some [("a/z.exe", [("product_id", "2")]); ("b/y.exe", [("product_id", "1")])].
Proof. vm_compute. reflexivity. Qed.
Example py_int_ex :
  py_int "105" = Some 105%Z /\ py_int " -1_0 " = Some (-10)%Z /\ py_int "1__0" = None
  /\ py_int "" = None /\ py_int "007" = Some 7%Z /\ py_int "12a" = None
  /\ py_int "+5" = Some 5%Z /\ py_int "+ 5" = None /\ py_int "_1" = None
  /\ py_int (String (ascii_of_N 28) "5") = None
  /\ py_int (String (ascii_of_N 160) "5") = Some 5%Z.
Proof. vm_compute. repeat split. Qed.
Example sort_ex :
  sort_local_info two_alphas
  = Ok [("c.exe", {| product_id := "2"; product_name := Some "Alpha";
                     old_version := false; build_id := None;
                     version_name := Some "2.0" |});
        ("b.exe", {| product_id := "1"; product_name := Some "Zeta";
                     old_version := false; build_id := None;
                     version_name := None |})].
Proof. vm_compute. reflexivity. Qed.

(* ================================================================== *)
(** ** Roman-numeral retry of the text search *)

(** In [main.py] the numeral is replaced with [str.replace]: "Game II" is
    searched again once, as "Game 2", and the search then gives up. *)
Lemma main_search_game_II (fuel : nat) :
  Main.search_product_id_on_gog py_str [("II", JInt 2)] no_games (S (S fuel)) "Game II"
  = (["Game II"; "Game 2"], Some (Ok None)).
Proof. reflexivity. Qed.

(** [main.py] only searches again when a numeral was found among the
    words of the name. *)
Lemma main_search_without_numeral (value : Type) (str : value -> string)
  (numerals : dict value)
  (download_data : string -> result (option search_response)) (r : search_response)
  (s : string) (fuel : nat) :
  download_data s = Ok (Some r) -> totalGamesFound r = 0%Z ->
  existsb (fun kv => str_in (fst kv) (split s)) numerals = false ->
  Main.search_product_id_on_gog str numerals download_data (S fuel) s
  = ([s], Some (Ok None)).
Proof.
  intros Hd Hr Hn. cbn [Main.search_product_id_on_gog]. rewrite Hd, Hr. cbn [Z.eqb].
  assert (Main.substitute_numerals str numerals s = (false, s)) as ->; [|reflexivity].
  unfold Main.substitute_numerals.
  induction numerals as [|[numeral v] numerals IH]; [reflexivity|].
  simpl in Hn. apply orb_false_elim in Hn as [H1 H2].
  simpl. rewrite H1. now apply IH.
Qed.

Lemma main_search_without_numeral_witness :
  Main.search_product_id_on_gog py_str [("II", JInt 2)] no_games 1 "Doom"
  = (["Doom"], Some (Ok None)).
Proof.
  exact (main_search_without_numeral jatom py_str [("II", JInt 2)] no_games
           {| totalGamesFound := 0; products := [] |} "Doom" 0
           eq_refl eq_refl eq_refl).
Defined.

(** Once a numeral is a word of the name, [str.replace] in [main.py]
    rewrites it wherever it occurs, inside other words too. *)
Lemma main_substitute_inside_words :
  Main.substitute_numerals py_str [("II", JInt 2)] "Game II VIII"
  = (true, "Game 2 V2I").
Proof. vm_compute. reflexivity. Qed.

(** The values of [main.py] are not validated: with the string "II" for the
    numeral II the name stays as it is and the search goes on without
    end. *)
Lemma main_search_string_value_never_returns (fuel : nat) :
  Main.search_product_id_on_gog py_str [("II", JStr "II")] no_games fuel "Game II"
  = (repeat "Game II" fuel, None).
Proof.
  induction fuel as [|fuel IH]; [reflexivity|].
  cbn [Main.search_product_id_on_gog no_games totalGamesFound Z.eqb].
  assert (Main.substitute_numerals py_str [("II", JStr "II")] "Game II"
          = (true, "Game II")) as -> by (vm_compute; reflexivity).
  rewrite IH. reflexivity.
Qed.

(** The pattern built in [gog_installer_update_checker.py] asks for a
    backspace on both sides of the numeral, so it leaves "Game II" as it
    is. *)
Lemma checker_substitute_game_II
  (re_sub_first : string -> string -> string -> result string) :
  Checker.substitute_numerals re_sub_first [("II", 2%Z)] "Game II"
  = Ok (true, "Game II").
Proof. vm_compute. reflexivity. Qed.

(** C1 (code defect).  In [gog_installer_update_checker.py], the search for
    "Game II" with the mapping II -> 2 against a catalog without results
    never returns: whatever the number of calls allowed, every one of them
    searches "Game II" again and the recursion is still going on. *)
Theorem checker_search_game_II_never_returns
  (re_sub_first : string -> string -> string -> result string) (fuel : nat) :
  Checker.search_product_id_on_gog re_sub_first (Some [("II", 2%Z)]) no_games fuel
    "Game II"
  = (repeat "Game II" fuel, None).
Proof.
  induction fuel as [|fuel IH]; [reflexivity|].
  cbn [Checker.search_product_id_on_gog no_games totalGamesFound Z.eqb].
  rewrite checker_substitute_game_II, IH. reflexivity.
Qed.





(** A numeral with a metacharacter in it is a regular expression of its
    own: what becomes of the name is up to the regex engine, and the
    search goes on with its answer. *)
Lemma checker_search_regex_numeral
  (re_sub_first : string -> string -> string -> result string) (fuel : nat) :
  re_sub_first (Checker.numeral_pattern "a|II|b") "2" "Game a|II|b" = Ok "Game 2" ->
  Checker.search_product_id_on_gog re_sub_first (Some [("a|II|b", 2%Z)]) no_games
    (S (S fuel)) "Game a|II|b"
  = (["Game a|II|b"; "Game 2"], Some (Ok None)).
Proof.
  intros H. cbn [Checker.search_product_id_on_gog no_games totalGamesFound Z.eqb].
  assert (Checker.substitute_numerals re_sub_first [("a|II|b", 2%Z)] "Game a|II|b"
          = Ok (true, "Game 2")) as ->.
  { unfold Checker.substitute_numerals. cbn [fold_left bind].
    assert (str_in "a|II|b" (split "Game a|II|b") = true) as -> by reflexivity.
    unfold Checker.sub_numeral.
    assert (regex_plain "a|II|b" = false) as -> by reflexivity.
    assert (str_of_int 2 = "2") as -> by reflexivity.
    now rewrite H. }
  assert (Checker.substitute_numerals re_sub_first [("a|II|b", 2%Z)] "Game 2"
          = Ok (false, "Game 2")) as -> by reflexivity.
  reflexivity.
Qed.

(* ================================================================== *)
(** ** Hyphen-spacing repair *)

(** A name on which the guard holds and the substitution changes nothing
    keeps the loop running for ever. *)
Lemma hyphen_repair_stuck (s : string) :
  hyphen_search s = true -> hyphen_sub s = s ->
  forall fuel, hyphen_repair fuel s = None.
Proof.
  intros Hg Hs fuel. induction fuel as [|fuel IH]; [reflexivity|].
  simpl. now rewrite Hg, Hs.
Qed.

(** When the loop ends, no letter is followed by a hyphen any more. *)
Lemma hyphen_repair_done (fuel : nat) (s t : string) :
  hyphen_repair fuel s = Some t -> hyphen_search t = false.
Proof.
  revert s. induction fuel as [|fuel IH]; intros s; simpl; [discriminate|].
  destruct (hyphen_search s) eqn:Hg.
  - apply IH.
  - intros [= <-]. exact Hg.
Qed.

(** ... and running the loop on its result leaves it as it is. *)
Lemma hyphen_repair_again (fuel fuel' : nat) (s t : string) :
  hyphen_repair fuel s = Some t -> hyphen_repair (S fuel') t = Some t.
Proof.
  intros H. apply hyphen_repair_done in H. simpl. now rewrite H.
Qed.

Lemma hyphen_sub_head (c : ascii) (t : string) :
  exists r, hyphen_sub (String c t) = String c r.
Proof.
  destruct t as [|h [|w u]]; cbn [hyphen_sub]; try (eexists; reflexivity).
  destruct (letter_class c && Ascii.eqb h hyphen && isspace w); eexists; reflexivity.
Qed.

Lemma hyphen_sub_miss (c : ascii) (t : string) :
  hyphen_hit c t = false -> hyphen_sub (String c t) = String c (hyphen_sub t).
Proof.
  unfold hyphen_hit. destruct t as [|h [|w u]]; intros H; try reflexivity.
  cbn [hyphen_sub] in *. now rewrite H.
Qed.

Lemma hyphen_sub_hit (c h w : ascii) (u : string) :
  hyphen_hit c (String h (String w u)) = true ->
  hyphen_sub (String c (String h (String w u))) = String c (" - " ++ hyphen_sub u).
Proof. unfold hyphen_hit. intros H. cbn [hyphen_sub]. now rewrite H. Qed.

Lemma hyphen_hit_letter (c : ascii) (t : string) :
  letter_class c = false -> hyphen_hit c t = false.
Proof. unfold hyphen_hit. intros ->. now destruct t as [|h [|w u]]. Qed.

Lemma hyphen_hit_next (c h : ascii) (t : string) :
  Ascii.eqb h hyphen = false -> hyphen_hit c (String h t) = false.
Proof.
  unfold hyphen_hit. intros ->. destruct t; [reflexivity|].
  now rewrite andb_false_r.
Qed.

(** A second substitution pass finds nothing left to rewrite. *)
Lemma hyphen_sub_twice (s : string) : hyphen_sub (hyphen_sub s) = hyphen_sub s.
Proof.
  remember (String.length s) as n eqn:Hn.
  assert (String.length s <= n) as Hle by lia. clear Hn. revert s Hle.
  induction n as [|n IH]; intros s Hle.
  - destruct s; [reflexivity|simpl in Hle; lia].
  - destruct s as [|c t]; [reflexivity|].
    destruct (hyphen_hit c t) eqn:Hit.
    + destruct t as [|h [|w u]]; try discriminate.
      rewrite (hyphen_sub_hit _ _ _ _ Hit). cbn [append].
      rewrite hyphen_sub_miss by (apply hyphen_hit_next; reflexivity).
      rewrite hyphen_sub_miss by (apply hyphen_hit_letter; reflexivity).
      rewrite hyphen_sub_miss by (apply hyphen_hit_letter; reflexivity).
      rewrite hyphen_sub_miss by (apply hyphen_hit_letter; reflexivity).
      rewrite IH; [reflexivity|]. simpl in Hle. lia.
    + rewrite (hyphen_sub_miss _ _ Hit). rewrite hyphen_sub_miss.
      * rewrite IH; [reflexivity|]. simpl in Hle. lia.
      * unfold hyphen_hit. destruct (hyphen_sub t) as [|h' [|w' u']] eqn:E; try reflexivity.
        destruct (letter_class c && Ascii.eqb h' hyphen && isspace w') eqn:C;
          [|reflexivity].
        exfalso. apply andb_prop in C as [C Hw]. apply andb_prop in C as [Hc Hh].
        apply Ascii.eqb_eq in Hh. subst h'.
        destruct t as [|h t1]; [discriminate|].
        destruct (hyphen_sub_head h t1) as [r Hr]. rewrite Hr in E.
        injection E as -> ->.
        rewrite hyphen_sub_miss in Hr by (apply hyphen_hit_letter; reflexivity).
        injection Hr as Hr.
        destruct t1 as [|w t2]; [discriminate|].
        destruct (hyphen_sub_head w t2) as [r' Hr']. rewrite Hr' in Hr.
        injection Hr as -> ->.
        unfold hyphen_hit in Hit. rewrite Hc, Hw, Ascii.eqb_refl in Hit. discriminate.
Qed.

(** The loop either ends within two tests of its guard or not at all: it
    ends exactly when one pass leaves no letter followed by a hyphen. *)
Lemma hyphen_repair_outcome (fuel : nat) (s : string) :
  hyphen_repair (S (S fuel)) s =
    if hyphen_search s
    then if hyphen_search (hyphen_sub s) then None else Some (hyphen_sub s)
    else Some s.
Proof.
  cbn [hyphen_repair]. destruct (hyphen_search s); [|reflexivity].
  destruct (hyphen_search (hyphen_sub s)) eqn:G; [|reflexivity].
  rewrite hyphen_sub_twice. apply hyphen_repair_stuck; [exact G|].
  apply hyphen_sub_twice.
Qed.

(** C2 (code defect).  On "Half-Life" the repair loop of [get_product_id]
    does not end: the guard finds "f-", the substitution only rewrites a
    hyphen that is followed by whitespace, so the name never changes. *)
Theorem hyphen_repair_half_life_never_ends (fuel : nat) :
  hyphen_repair fuel "Half-Life" = None.
Proof. apply hyphen_repair_stuck; reflexivity. Qed.

(* ================================================================== *)
(** ** Base-game filter *)

(** C4 (counterexample).  The descriptor has an empty [dependencyGameId]
    and a [gameId] different from its [rootGameId], and it is kept as a
    base game by both files. *)
Lemma is_main_game_empty_dependency_kept :
  dependencyGameId empty_dependency_info = JStr ""
  /\ py_eq (gameId empty_dependency_info) (rootGameId empty_dependency_info) = false
  /\ Main.is_main_game [] empty_dependency_info = true
  /\ Checker.is_main_game None empty_dependency_info = true.
Proof. repeat split. Qed.

(** C4 (amended).  [is_main_game] looks at [dependencyGameId] first: a
    value other than the empty string excludes the installer and the empty
    string includes it at once; only when the field is missing or null do
    the next rules apply: [gameId] different from [rootGameId] excludes,
    then a [rootGameId] among the goodies excludes, otherwise the installer
    is included. *)
Theorem is_main_game_rules (goodies : dict string) (info : installer_info) :
  let later_rules (in_goodies : bool) :=
    py_eq (gameId info) (rootGameId info) && negb in_goodies in
  let decision (in_goodies : bool) :=
    match dependencyGameId info with
    | JNull => later_rules in_goodies
    | JStr s => String.eqb s ""
    | _ => false
    end in
  Main.is_main_game goodies info
    = decision (dict_has (py_str (rootGameId info)) goodies)
  /\ Checker.is_main_game (Some goodies) info
    = decision (dict_has (py_str (rootGameId info)) goodies)
  /\ Checker.is_main_game None info = decision false.
Proof.
  unfold Main.is_main_game, Checker.is_main_game.
  destruct info as [dep g r]; simpl.
  destruct dep as [|b|z|s]; simpl;
    try (destruct (String.eqb s ""); simpl);
    destruct (py_eq g r); simpl;
    destruct (dict_has (py_str r) goodies); simpl; auto.
Qed.

(* ================================================================== *)
(** ** normalize_version_name *)

Lemma length_app (s t : string) :
  String.length (s ++ t) = String.length s + String.length t.
Proof. induction s as [|c s IH]; simpl; [reflexivity|now rewrite IH]. Qed.

Lemma lstrip_by_length (p : ascii -> bool) (s : string) :
  String.length (lstrip_by p s) <= String.length s.
Proof. induction s as [|c s IH]; simpl; [lia|]. destruct (p c); simpl; lia. Qed.

Lemma lstrip_by_fixed (p : ascii -> bool) (s : string) :
  String.length (lstrip_by p s) = String.length s -> lstrip_by p s = s.
Proof.
  destruct s as [|c s]; simpl; [reflexivity|].
  destruct (p c); [|reflexivity].
  pose proof (lstrip_by_length p s). lia.
Qed.

Lemma rstrip_by_length (p : ascii -> bool) (s : string) :
  String.length (rstrip_by p s) <= String.length s.
Proof.
  induction s as [|c s IH]; simpl; [lia|].
  destruct (rstrip_by p s); simpl in *; [destruct (p c); simpl; lia|lia].
Qed.

Lemma rstrip_by_fixed (p : ascii -> bool) (s : string) :
  String.length (rstrip_by p s) = String.length s -> rstrip_by p s = s.
Proof.
  induction s as [|c s IH]; simpl; [reflexivity|].
  pose proof (rstrip_by_length p s) as Hl.
  destruct (rstrip_by p s) eqn:E; simpl in *.
  - destruct (p c); simpl; intros H; [lia|].
    destruct s; simpl in *; [reflexivity|lia].
  - intros H. f_equal. apply IH. lia.
Qed.

(** [rstrip_by] leaves a string alone exactly when its last character is
    not one to strip. *)
Lemma rstrip_by_ends_with (c : ascii) (s : string) :
  rstrip_by (Ascii.eqb c) s = s <-> ends_with c s = false.
Proof.
  induction s as [|d s IH]; simpl; [tauto|].
  destruct s as [|e s].
  - simpl. rewrite (Ascii.eqb_sym d c). destruct (Ascii.eqb c d); split; congruence.
  - remember (String e s) as t. split.
    + intros H. apply IH.
      destruct (rstrip_by (Ascii.eqb c) t) eqn:E.
      * destruct (Ascii.eqb c d); [discriminate|]. injection H as H. subst t. discriminate.
      * now injection H.
    + intros H. apply IH in H. rewrite H. subst t. reflexivity.
Qed.

Lemma strip_length (s : string) : String.length (strip s) <= String.length s.
Proof.
  unfold strip. pose proof (rstrip_by_length isspace (lstrip_by isspace s)).
  pose proof (lstrip_by_length isspace s). lia.
Qed.

Lemma strip_fixed (s : string) :
  String.length (strip s) = String.length s -> strip s = s.
Proof.
  unfold strip. intros H.
  pose proof (rstrip_by_length isspace (lstrip_by isspace s)).
  pose proof (lstrip_by_length isspace s).
  rewrite rstrip_by_fixed by lia. apply lstrip_by_fixed. lia.
Qed.

Lemma prefix_empty (s : string) : prefix "" s = true.
Proof. destruct s; reflexivity. Qed.

Lemma replace_underscore_length (s : string) :
  String.length (replace "_" " " s) = String.length s.
Proof.
  unfold replace. induction s as [|c s IH]; [reflexivity|].
  cbn [replace_from prefix]. destruct (ascii_dec "_" c); simpl.
  - rewrite prefix_empty. simpl. now rewrite IH.
  - now rewrite IH.
Qed.

Lemma replace_underscore_fixed (s : string) :
  replace "_" " " s = s <-> contains_char "_" s = false.
Proof.
  unfold replace. induction s as [|c s IH]; [simpl; tauto|].
  cbn [replace_from prefix contains_char]. destruct (ascii_dec "_" c) as [<-|Hn].
  - simpl. rewrite prefix_empty. split; discriminate.
  - assert (Ascii.eqb c "_" = false) as -> by (apply Ascii.eqb_neq; congruence).
    simpl. rewrite <- IH. split; [now intros [= ->]|now intros ->].
Qed.

Lemma split_final_newline_app (s w nl : string) :
  split_final_newline s = (w, nl) -> s = w ++ nl.
Proof.
  revert w nl. induction s as [|c s IH]; intros w nl; simpl.
  - now intros [= <- <-].
  - destruct s as [|d s].
    + destruct (Ascii.eqb c newline); now intros [= <- <-].
    + destruct (split_final_newline (String d s)) as [w' nl'].
      intros [= <- <-]. simpl. f_equal. now apply IH.
Qed.

Lemma line_of_app (s w nl : string) : line_of s = Some (w, nl) -> s = w ++ nl.
Proof.
  unfold line_of. destruct (split_final_newline s) as [w' nl'] eqn:E.
  destruct (contains_char newline w'); [discriminate|].
  intros [= <- <-]. now apply split_final_newline_app.
Qed.

(** Each substitution removes at least one character when its guard
    holds. *)
Lemma lead_sub_shorter (c : ascii) (s : string) :
  lead_match c s = true -> String.length (lead_sub c s) < String.length s.
Proof.
  unfold lead_sub. intros H. rewrite H. unfold lead_match in H.
  destruct (line_of s) as [[w nl]|] eqn:E; [|discriminate].
  apply line_of_app in E. subst s. rewrite length_app.
  apply andb_prop in H as [H1 H2]. apply Nat.leb_le in H2.
  destruct w as [|d w]; [discriminate|]. simpl in H1.
  cbn [lstrip_by]. rewrite Ascii.eqb_sym, H1.
  pose proof (lstrip_by_length (Ascii.eqb c) w).
  destruct (lstrip_by (Ascii.eqb c) w) eqn:E; simpl in *.
  - lia.
  - rewrite length_app. lia.
Qed.

Lemma rstrip_by_shorter (c : ascii) (w : string) :
  ends_with c w = true ->
  String.length (rstrip_by (Ascii.eqb c) w) < String.length w.
Proof.
  intros H. pose proof (rstrip_by_length (Ascii.eqb c) w) as Hl.
  destruct (Nat.eq_dec (String.length (rstrip_by (Ascii.eqb c) w)) (String.length w))
    as [E|]; [|lia].
  apply rstrip_by_fixed, rstrip_by_ends_with in E. congruence.
Qed.

Lemma trail_sub_shorter (c : ascii) (s : string) :
  trail_match c s = true -> String.length (trail_sub c s) < String.length s.
Proof.
  unfold trail_sub. intros H. rewrite H. unfold trail_match in H.
  destruct (line_of s) as [[w nl]|] eqn:E; [|discriminate].
  apply line_of_app in E. subst s. rewrite length_app.
  apply andb_prop in H as [H1 H2]. apply Nat.leb_le in H2.
  pose proof (rstrip_by_shorter c w H1).
  destruct (rstrip_by (Ascii.eqb c) w) eqn:E; simpl in *.
  - lia.
  - rewrite length_app. simpl. lia.
Qed.

Section While.
Variables (guard : string -> bool) (body : string -> string).
Hypothesis shorter :
  forall s, guard s = true -> String.length (body s) < String.length s.

Lemma while_length (fuel : nat) (s : string) :
  String.length (while fuel guard body s) <= String.length s.
Proof.
  revert s. induction fuel as [|fuel IH]; intros s; simpl; [lia|].
  destruct (guard s) eqn:G; [|lia].
  specialize (IH (body s)). apply shorter in G. lia.
Qed.

(** The loop has exited when it was given a round per character. *)
Lemma while_exits (fuel : nat) (s : string) :
  String.length s <= fuel -> guard (while fuel guard body s) = false.
Proof.
  revert s. induction fuel as [|fuel IH]; intros s Hs; simpl.
  - destruct (guard s) eqn:G; [|reflexivity]. apply shorter in G. lia.
  - destruct (guard s) eqn:G; [|exact G].
    apply IH. apply shorter in G. lia.
Qed.

Lemma while_fixed (s : string) :
  String.length (while (String.length s) guard body s) = String.length s ->
  guard s = false.
Proof.
  intros H. destruct (guard s) eqn:G; [|reflexivity].
  destruct (String.length s) as [|n] eqn:E.
  - apply shorter in G. lia.
  - simpl in H. rewrite G in H.
    pose proof (while_length n (body s)). apply shorter in G. lia.
Qed.

Lemma while_skip (fuel : nat) (s : string) :
  guard s = false -> while fuel guard body s = s.
Proof. intros G. destruct fuel; simpl; [reflexivity|now rewrite G]. Qed.
End While.

(** Both loops of a round of the [for] loop end, with their guards
    false. *)
Lemma strip_illegal_loops_exit (c : ascii) (s : string) :
  let s1 := while (String.length s) (lead_match c) (lead_sub c) s in
  lead_match c s1 = false /\ trail_match c (strip_illegal s c) = false.
Proof.
  split.
  - apply while_exits; [apply lead_sub_shorter|lia].
  - unfold strip_illegal. apply while_exits; [apply trail_sub_shorter|lia].
Qed.

Lemma strip_illegal_length (c : ascii) (s : string) :
  String.length (strip_illegal s c) <= String.length s.
Proof.
  unfold strip_illegal.
  pose proof (while_length _ _ (lead_sub_shorter c) (String.length s) s).
  pose proof (while_length _ _ (trail_sub_shorter c)
                (String.length (while (String.length s) (lead_match c) (lead_sub c) s))
                (while (String.length s) (lead_match c) (lead_sub c) s)).
  lia.
Qed.

Lemma strip_illegal_skip (c : ascii) (s : string) :
  lead_match c s = false -> trail_match c s = false -> strip_illegal s c = s.
Proof.
  intros H1 H2. unfold strip_illegal. rewrite (while_skip _ _ _ _ H1).
  now apply while_skip.
Qed.

Lemma strip_illegal_fixed (c : ascii) (s : string) :
  String.length (strip_illegal s c) = String.length s ->
  lead_match c s = false /\ trail_match c s = false.
Proof.
  intros H. unfold strip_illegal in H.
  pose proof (while_length _ _ (lead_sub_shorter c) (String.length s) s) as H1.
  pose proof (while_length _ _ (trail_sub_shorter c)
                (String.length (while (String.length s) (lead_match c) (lead_sub c) s))
                (while (String.length s) (lead_match c) (lead_sub c) s)) as H2.
  assert (lead_match c s = false) as G1
      by (apply (while_fixed _ _ (lead_sub_shorter c)); lia).
  split; [exact G1|].
  rewrite (while_skip _ _ _ _ G1) in H.
  apply (while_fixed _ _ (trail_sub_shorter c)). exact H.
Qed.

Lemma fold_strip_illegal_length (l : list ascii) (s : string) :
  String.length (fold_left strip_illegal l s) <= String.length s.
Proof.
  revert s. induction l as [|c l IH]; intros s; simpl; [lia|].
  specialize (IH (strip_illegal s c)). pose proof (strip_illegal_length c s). lia.
Qed.

Lemma fold_strip_illegal_fixed (l : list ascii) (s : string) :
  String.length (fold_left strip_illegal l s) = String.length s <->
  forallb (fun c => negb (lead_match c s) && negb (trail_match c s)) l = true.
Proof.
  revert s. induction l as [|c l IH]; intros s; simpl; [tauto|].
  pose proof (fold_strip_illegal_length l (strip_illegal s c)) as H1.
  pose proof (strip_illegal_length c s) as H2.
  split.
  - intros H. destruct (strip_illegal_fixed c s) as [G1 G2]; [lia|].
    rewrite G1, G2. simpl. apply IH.
    rewrite (strip_illegal_skip c s G1 G2) in H. exact H.
  - intros H. apply andb_prop in H as [H3 H4]. apply andb_prop in H3 as [G1 G2].
    apply negb_true_iff in G1, G2.
    rewrite (strip_illegal_skip c s G1 G2). now apply IH.
Qed.

Lemma fold_strip_illegal_skip (l : list ascii) (s : string) :
  forallb (fun c => negb (lead_match c s) && negb (trail_match c s)) l = true ->
  fold_left strip_illegal l s = s.
Proof.
  revert s. induction l as [|c l IH]; intros s; simpl; [reflexivity|].
  intros H. apply andb_prop in H as [H3 H4]. apply andb_prop in H3 as [G1 G2].
  apply negb_true_iff in G1, G2.
  rewrite (strip_illegal_skip c s G1 G2). now apply IH.
Qed.

(** The strings the normalizer leaves as they are. *)
Lemma normalize_fixed_iff (s : string) :
  normalize_version_name s = s <-> settled s = true.
Proof.
  unfold settled, normalize_version_name.
  set (P := fold_left strip_illegal illegal_characters s).
  pose proof (fold_strip_illegal_length illegal_characters s) as L1. fold P in L1.
  pose proof (strip_length P) as L2.
  pose proof (replace_underscore_length (strip P)) as L3.
  pose proof (rstrip_by_length (Ascii.eqb ".") (replace "_" " " (strip P))) as L4.
  split.
  - intros H. apply (f_equal String.length) in H as HL.
    assert (forallb (fun c => negb (lead_match c s) && negb (trail_match c s))
                    illegal_characters = true) as G
        by (apply fold_strip_illegal_fixed; fold P; lia).
    assert (P = s) as EP by (apply fold_strip_illegal_skip, G).
    rewrite EP in *.
    assert (strip s = s) as ES by (apply strip_fixed; lia).
    rewrite ES in *.
    assert (rstrip_by (Ascii.eqb ".") (replace "_" " " s) = replace "_" " " s) as ER
        by (apply rstrip_by_fixed; lia).
    rewrite ER in H.
    rewrite G, String.eqb_refl. simpl.
    apply replace_underscore_fixed in H as HU. rewrite HU. simpl.
    rewrite H in ER. apply rstrip_by_ends_with in ER. now rewrite ER.
  - intros H. apply andb_prop in H as [H H4]. apply andb_prop in H as [H H3].
    apply andb_prop in H as [H1 H2].
    apply negb_true_iff in H3, H4. apply String.eqb_eq in H2.
    assert (P = s) as -> by (apply fold_strip_illegal_skip, H1).
    rewrite H2. apply replace_underscore_fixed in H3. rewrite H3.
    now apply rstrip_by_ends_with.
Qed.

(** C3 (counterexample).  Normalizing "!#1" gives "#1", and normalizing
    that gives "1": the leading "#" only comes to the front after the round
    for "#" is over. *)
Lemma normalize_twice_differs :
  normalize_version_name "!#1" = "#1"
  /\ normalize_version_name (normalize_version_name "!#1") = "1"
  /\ normalize_version_name (normalize_version_name "!#1")
     <> normalize_version_name "!#1".
Proof. vm_compute. repeat split. discriminate. Qed.

(** C3 (amended).  Normalizing a second time changes nothing exactly when
    the first result is settled: no illegal character at the start or the
    end of a line of two or more characters, no whitespace at either end,
    no underscore and no period at the end. *)
Theorem normalize_idempotent_iff_settled (s : string) :
  normalize_version_name (normalize_version_name s) = normalize_version_name s
  <-> settled (normalize_version_name s) = true.
Proof. apply normalize_fixed_iff. Qed.

(** "1.2.0." is normalized to "1.2.0", which is settled. *)
Lemma normalize_idempotent_iff_settled_witness :
  settled (normalize_version_name "1.2.0.") = true
  /\ normalize_version_name (normalize_version_name "1.2.0.")
     = normalize_version_name "1.2.0.".
Proof.
  split; [reflexivity|].
  exact (proj2 (normalize_idempotent_iff_settled "1.2.0.") eq_refl).
Defined.

(* ================================================================== *)
(** ** Dictionaries *)

Lemma dict_get_set (V : Type) (k k' : string) (v : V) (d : dict V) :
  dict_get k (dict_set k' v d) = if String.eqb k k' then Some v else dict_get k d.
Proof.
  induction d as [|[k0 v0] d IH]; simpl.
  - reflexivity.
  - destruct (String.eqb k' k0) eqn:E0; simpl.
    + apply String.eqb_eq in E0. subst k0. destruct (String.eqb k k'); reflexivity.
    + rewrite IH. destruct (String.eqb k k0) eqn:E1; [|reflexivity].
      apply String.eqb_eq in E1. subst k0.
      rewrite String.eqb_sym in E0. now rewrite E0.
Qed.

Lemma dict_get_set_same (V : Type) (k : string) (v : V) (d : dict V) :
  dict_get k (dict_set k v d) = Some v.
Proof. now rewrite dict_get_set, String.eqb_refl. Qed.

(* ================================================================== *)
(** ** Version reconciliation *)





(** [int] on a build id that is there gives a number or raises
    [ValueError]. *)
Lemma read_build_some (s : string) :
  read_build (Some s)
  = match py_int s with Some z => Ok (BuildNum z) | None => Raise ValueError end.
Proof. reflexivity. Qed.

Section ReconcilerFacts.
Variable versions_should_match : string -> string -> option string -> result bool.
Variable download_builds : string -> result (option (list (string * option string))).


(** A build id that is there and that [int] refuses ends the comparison
    with [ValueError]. *)
Lemma compare_new_versions_build_refused (l : local_installer)
  (online_info : dict online_entry) (st : state) (e : online_entry) (s : string) :
  dict_get (product_id l) online_info = Some e ->
  remote_build_id e = Some s \/ build_id l = Some s ->
  py_int s = None ->
  compare_new_versions versions_should_match download_builds l online_info st
  = Raise ValueError.
Proof.
  intros Hget Hs Hint. unfold compare_new_versions, lookup.
  rewrite Hget. cbn [bind]. destruct Hs as [H|H]; rewrite H.
  - rewrite read_build_some, Hint. reflexivity.
  - rewrite (read_build_some s), Hint.
    destruct (remote_build_id e) as [rb|]; [|reflexivity].
    rewrite read_build_some. destruct (py_int rb); reflexivity.
Qed.

(** [compare_old_versions] does skip a product the catalog does not
    know. *)
Lemma compare_old_versions_not_found_skips (l : local_installer)
  (online_info : dict online_entry) (st : state) :
  dict_get (product_id l) online_info = Some not_found_online ->
  compare_old_versions versions_should_match l online_info st
  = Ok (emit (Log INFO (NotFoundOnline (product_id l))) st).
Proof.
  intros Hget. unfold compare_old_versions, lookup. now rewrite Hget.
Qed.

(** C6 (amended).  With both build ids present: a build id that [int]
    refuses raises [ValueError]; otherwise the two numbers are compared.  A
    remote build above the local one stores a finding, both sides current
    gen.  Its local version is the known one; when the local version is
    unknown the catalog is asked once: an exception of that request ends
    the comparison, and otherwise the version is that of the first build
    listed with the local build id, or "Unknown" when the request gives
    nothing, no build has that id or the build has no version.  A remote
    build that is not above the local one stores nothing. *)
Theorem compare_new_versions_by_build (l : local_installer)
  (online_info : dict online_entry) (st : state) (e : online_entry)
  (rb lb : string) :
  dict_get (product_id l) online_info = Some e ->
  remote_build_id e = Some rb -> build_id l = Some lb ->
  (py_int rb = None \/ py_int lb = None ->
   compare_new_versions versions_should_match download_builds l online_info st
   = Raise ValueError)
  /\ (forall r n : Z,
        py_int rb = Some r -> py_int lb = Some n ->
        ((r > n)%Z ->
           (is_unknown (version_name l) = false ->
              exists st',
                compare_new_versions versions_should_match download_builds l
                  online_info st = Ok st'
                /\ dict_get (product_id l) (new_versions_dict st')
                   = Some {| found_product_name := product_name l;
                             local_version := or_unknown (version_name l);
                             local_build := BuildNum n;
                             local_old_version := false;
                             online_version := remote_version_name e;
                             online_build := BuildNum r;
                             online_old_version := false |})
           /\ (is_unknown (version_name l) = true ->
                 match download_builds (product_id l) with
                 | Raise x =>
                     compare_new_versions versions_should_match download_builds l
                       online_info st = Raise x
                 | Ok answer =>
                     exists st',
                       compare_new_versions versions_should_match download_builds l
                         online_info st = Ok st'
                       /\ dict_get (product_id l) (new_versions_dict st')
                          = Some {| found_product_name := product_name l;
                                    local_version :=
                                      match answer with
                                      | Some items =>
                                          match find (fun item =>
                                                        String.eqb (fst item)
                                                                   (str_of_int n))
                                                     items with
                                          | Some item => or_unknown (snd item)
                                          | None => UNKNOWN
                                          end
                                      | None => UNKNOWN
                                      end;
                                    local_build := BuildNum n;
                                    local_old_version := false;
                                    online_version := remote_version_name e;
                                    online_build := BuildNum r;
                                    online_old_version := false |}
                 end))
        /\ ((r <= n)%Z ->
              exists st',
                compare_new_versions versions_should_match download_builds l
                  online_info st = Ok st'
                /\ new_versions_dict st' = new_versions_dict st)).
Proof.
  intros Hget Hrb Hlb. split.
  - intros [H|H].
    + apply (compare_new_versions_build_refused l online_info st e rb); auto.
    + apply (compare_new_versions_build_refused l online_info st e lb); auto.
  - intros r n Hr Hn.
    unfold compare_new_versions, lookup, read_build.
    rewrite Hget. cbn [bind]. rewrite Hrb, Hlb, Hr, Hn. cbn [bind].
    split; [intros Hcmp; split; intros Hu|intros Hcmp].
    + assert ((r >? n)%Z = true) as -> by lia. rewrite Hu. cbn [bind].
      eexists. split; [reflexivity|].
      cbn [emit store new_versions_dict]. rewrite dict_get_set_same.
      destruct (version_name l); reflexivity.
    + assert ((r >? n)%Z = true) as -> by lia. rewrite Hu.
      unfold get_local_version_from_gog.
      destruct (download_builds (product_id l)) as [[items|]|x]; cbn [bind].
      * destruct (find (fun item => String.eqb (fst item) (str_of_int n)) items)
          as [item|]; cbn [bind]; eexists; (split; [reflexivity|]);
          cbn [emit store new_versions_dict]; rewrite dict_get_set_same;
          [destruct (snd item)|]; reflexivity.
      * eexists. split; [reflexivity|].
        cbn [emit store new_versions_dict]. now rewrite dict_get_set_same.
      * reflexivity.
    + assert ((r >? n)%Z = false) as -> by lia.
      eexists. split; reflexivity.
Qed.

(** C7.  For an old-gen installer whose product the catalog has as
    current gen, [compare_old_versions] always stores a finding, with
    [local_old_version] true and [online_old_version] false, whatever the
    versions and build ids are. *)
Theorem compare_old_versions_modern_remote (l : local_installer)
  (online_info : dict online_entry) (st : state) (e : online_entry) :
  dict_get (product_id l) online_info = Some e ->
  remote_old_version e = Some false ->
  exists st',
    compare_old_versions versions_should_match l online_info st = Ok st'
    /\ dict_get (product_id l) (new_versions_dict st')
       = Some {| found_product_name := product_name l;
                 local_version := or_unknown (version_name l);
                 local_build := BuildText (or_unknown (build_id l));
                 local_old_version := true;
                 online_version := Some (or_unknown (remote_version_name e));
                 online_build := BuildText (or_unknown (remote_build_id e));
                 online_old_version := false |}.
Proof.
  intros Hget Hold. unfold compare_old_versions, lookup.
  rewrite Hget. cbn [bind]. rewrite Hold.
  eexists. split; [reflexivity|].
  cbn [emit store new_versions_dict]. apply dict_get_set_same.
Qed.
End ReconcilerFacts.




(** C6 (counterexample).  Both build ids are there, but the local one is
    "10a": [int] raises [ValueError] and nothing is compared. *)
Lemma compare_new_versions_build_not_a_number :
  build_id modern_build_10a = Some "10a"
  /\ dict_get (product_id modern_build_10a) online_build_105
     = Some {| remote_version_name := Some "1.1"; remote_build_id := Some "105";
               remote_old_version := Some false |}
  /\ compare_new_versions (Checker.versions_should_match None) two_builds
       modern_build_10a online_build_105 empty_state = Raise ValueError
  /\ compare_new_versions (Main.versions_should_match []) two_builds
       modern_build_10a online_build_105 empty_state = Raise ValueError.
Proof. repeat split. Qed.

(** Remote build 105 against local build 100 with no local version: the
    catalog is asked and has version 1.0 for build 100. *)
Lemma compare_new_versions_by_build_witness :
  py_int "105" = Some 105%Z /\ py_int "100" = Some 100%Z /\ (105 > 100)%Z
  /\ exists st',
       compare_new_versions (Checker.versions_should_match None) two_builds
         modern_build_100 online_build_105 empty_state = Ok st'
       /\ dict_get "1207658691" (new_versions_dict st')
          = Some {| found_product_name := Some "Game";
                    local_version := "1.0";
                    local_build := BuildNum 100;
                    local_old_version := false;
                    online_version := Some "1.1";
                    online_build := BuildNum 105;
                    online_old_version := false |}.
Proof.
  split; [reflexivity|]. split; [reflexivity|]. split; [reflexivity|].
  exact (proj2 (proj1 (proj2 (compare_new_versions_by_build
                                (Checker.versions_should_match None)
                                two_builds modern_build_100 online_build_105
                                empty_state
                                {| remote_version_name := Some "1.1";
                                   remote_build_id := Some "105";
                                   remote_old_version := Some false |}
                                "105" "100" eq_refl eq_refl eq_refl)
                             105%Z 100%Z eq_refl eq_refl)
                      eq_refl)
               eq_refl).
Defined.

(** An old-gen 3.0 against a current-gen catalog entry. *)
Lemma compare_old_versions_modern_remote_witness :
  remote_old_version {| remote_version_name := Some "1.1"; remote_build_id := Some "105";
                        remote_old_version := Some false |} = Some false
  /\ exists st',
       compare_old_versions (Checker.versions_should_match None)
         legacy_3_0 online_build_105 empty_state = Ok st'
       /\ dict_get "1207658691" (new_versions_dict st')
          = Some {| found_product_name := Some "Game";
                    local_version := "3.0";
                    local_build := BuildText "Unknown";
                    local_old_version := true;
                    online_version := Some "1.1";
                    online_build := BuildText "105";
                    online_old_version := false |}.
Proof.
  split; [reflexivity|].
  exact (compare_old_versions_modern_remote (Checker.versions_should_match None)
           legacy_3_0 online_build_105 empty_state
           {| remote_version_name := Some "1.1"; remote_build_id := Some "105";
              remote_old_version := Some false |}
           eq_refl eq_refl).
Defined.

(** C9 (code defect).  A current-gen installer with a known version whose
    product the catalog does not know: [compare_new_versions] calls the
    normalizer on [None], the [TypeError] is caught nowhere and ends
    [compare_versions] as well, in both files. *)
Theorem compare_new_versions_remote_not_found_raises :
  compare_new_versions (Main.versions_should_match []) no_builds
    modern_1_2 online_not_found empty_state = Raise TypeError
  /\ compare_new_versions (Checker.versions_should_match None) no_builds
    modern_1_2 online_not_found empty_state = Raise TypeError
  /\ compare_versions (Main.versions_should_match []) no_builds
       [("setup_game_1.2_(64bit)_(12345).exe", modern_1_2)] online_not_found
     = Raise TypeError
  /\ compare_versions (Checker.versions_should_match None) no_builds
       [("setup_game_1.2_(64bit)_(12345).exe", modern_1_2)] online_not_found
     = Raise TypeError.
Proof. repeat split. Qed.

(* ================================================================== *)
(** ** The order of [sorted] *)

Lemma ascii_compare_refl (a : ascii) : Ascii.compare a a = Eq.
Proof. unfold Ascii.compare. apply N.compare_refl. Qed.

Lemma ascii_compare_lt_trans (a b c : ascii) :
  Ascii.compare a b = Lt -> Ascii.compare b c = Lt -> Ascii.compare a c = Lt.
Proof.
  unfold Ascii.compare. rewrite !N.compare_lt_iff. apply N.lt_trans.
Qed.

Lemma le_str_refl (a : string) : le_str a a.
Proof.
  unfold le_str, String.leb.
  assert (String.compare a a = Eq) as ->; [|reflexivity].
  induction a as [|c a IH]; simpl; [reflexivity|].
  now rewrite ascii_compare_refl.
Qed.

Lemma le_str_trans (a b c : string) : le_str a b -> le_str b c -> le_str a c.
Proof.
  unfold le_str, String.leb. revert b c.
  induction a as [|x a IH]; intros [|y b] [|z c]; simpl; try congruence.
  destruct (Ascii.compare x y) eqn:Exy; try congruence.
  - apply Ascii.compare_eq_iff in Exy. subst y.
    destruct (Ascii.compare x z) eqn:Exz; try congruence. apply IH.
  - destruct (Ascii.compare y z) eqn:Eyz; try congruence.
    + apply Ascii.compare_eq_iff in Eyz. subst z. now rewrite Exy.
    + now rewrite (ascii_compare_lt_trans x y z Exy Eyz).
Qed.

Lemma le_str_antisym (a b : string) : le_str a b -> le_str b a -> a = b.
Proof. apply String.leb_antisym. Qed.

Lemma le_str_total (a b : string) : le_str a b \/ le_str b a.
Proof. apply String.leb_total. Qed.

Lemma insert_sorted_perm (x : string) (l : list string) :
  Permutation (insert_sorted x l) (x :: l).
Proof.
  induction l as [|y l IH]; simpl; [reflexivity|].
  destruct (String.leb x y); [reflexivity|].
  rewrite IH. apply perm_swap.
Qed.

Lemma sorted_perm (l : list string) : Permutation (sorted l) l.
Proof.
  induction l as [|x l IH]; simpl; [reflexivity|].
  rewrite insert_sorted_perm. now constructor.
Qed.

Lemma sorted_In (x : string) (l : list string) : In x (sorted l) <-> In x l.
Proof.
  split; apply Permutation_in; [|symmetry]; apply sorted_perm.
Qed.

Lemma insert_sorted_ordered (x : string) (l : list string) :
  StronglySorted le_str l -> StronglySorted le_str (insert_sorted x l).
Proof.
  induction 1 as [|y l Hs IH Hall]; simpl.
  - repeat constructor.
  - destruct (String.leb x y) eqn:E.
    + constructor; [now constructor|].
      constructor; [exact E|].
      eapply Forall_impl; [|exact Hall]. intros z Hz. eapply le_str_trans; eassumption.
    + constructor; [exact IH|].
      eapply Permutation_Forall; [symmetry; apply insert_sorted_perm|].
      constructor; [|exact Hall].
      destruct (le_str_total x y) as [H|H]; [unfold le_str in H; congruence|exact H].
Qed.

Lemma sorted_ordered (l : list string) : StronglySorted le_str (sorted l).
Proof.
  induction l as [|x l IH]; simpl; [constructor|now apply insert_sorted_ordered].
Qed.

(** A list has one ordered arrangement only. *)
Lemma ordered_unique (l1 l2 : list string) :
  StronglySorted le_str l1 -> StronglySorted le_str l2 ->
  Permutation l1 l2 -> l1 = l2.
Proof.
  intros H1. revert l2. induction H1 as [|x l1 Hs IH Hall]; intros l2 H2 Hp.
  - apply Permutation_nil in Hp. now subst.
  - destruct H2 as [|y l2 Hs2 Hall2].
    + symmetry in Hp. now apply Permutation_nil in Hp.
    + assert (x = y) as <-.
      { assert (In x (y :: l2)) as [->|Hx] by (eapply Permutation_in; [exact Hp|now left]);
          [reflexivity|].
        assert (In y (x :: l1)) as [->|Hy]
            by (eapply Permutation_in; [symmetry; exact Hp|now left]); [reflexivity|].
        rewrite Forall_forall in Hall, Hall2.
        apply le_str_antisym; auto. }
      f_equal. apply IH; [exact Hs2|]. now apply Permutation_cons_inv in Hp.
Qed.

(** [sorted] does not depend on the order of its argument. *)
Lemma sorted_perm_eq (l l' : list string) : Permutation l l' -> sorted l = sorted l'.
Proof.
  intros Hp. apply ordered_unique; try apply sorted_ordered.
  rewrite !sorted_perm. exact Hp.
Qed.

Lemma sorted_NoDup (l : list string) : NoDup l -> NoDup (sorted l).
Proof.
  apply Permutation_NoDup. symmetry. apply sorted_perm.
Qed.

(** On an ordered list, [find] returns the smallest element with the
    property. *)
Lemma find_ordered (p : string -> bool) (l : list string) (x : string) :
  StronglySorted le_str l ->
  (find p l = Some x <->
   In x l /\ p x = true /\ forall y, In y l -> p y = true -> le_str x y).
Proof.
  induction 1 as [|z l Hs IH Hall]; simpl.
  - split; [discriminate|tauto].
  - rewrite Forall_forall in Hall. destruct (p z) eqn:Ez.
    + split.
      * intros [= <-]. split; [now left|]. split; [exact Ez|].
        intros y [<-|Hy] _; [apply le_str_refl|now apply Hall].
      * intros ([<-|Hx] & Hpx & Hmin); [reflexivity|].
        f_equal. apply le_str_antisym; [now apply Hall|].
        apply Hmin; [now left|exact Ez].
    + rewrite IH. split.
      * intros (Hx & Hpx & Hmin). split; [now right|]. split; [exact Hpx|].
        intros y [<-|Hy] Hpy; [congruence|now apply Hmin].
      * intros ([<-|Hx] & Hpx & Hmin); [congruence|].
        split; [exact Hx|]. split; [exact Hpx|].
        intros y Hy. apply Hmin. now right.
Qed.

Lemma str_in_In (x : string) (l : list string) : str_in x l = true <-> In x l.
Proof.
  unfold str_in. rewrite existsb_exists. split.
  - intros (y & Hy & E). apply String.eqb_eq in E. now subst.
  - intros H. exists x. split; [exact H|apply String.eqb_refl].
Qed.

(** [distinct] lists each element once. *)
Lemma distinct_acc (l acc : list string) :
  NoDup acc ->
  NoDup (fold_left (fun acc x => if str_in x acc then acc else (acc ++ [x])%list) l acc)
  /\ forall x,
       In x (fold_left (fun acc x => if str_in x acc then acc else (acc ++ [x])%list) l acc)
       <-> In x acc \/ In x l.
Proof.
  revert acc. induction l as [|y l IH]; intros acc Hacc; simpl.
  - split; [exact Hacc|]. tauto.
  - destruct (str_in y acc) eqn:E.
    + destruct (IH acc Hacc) as [H1 H2]. split; [exact H1|].
      intros x. rewrite H2. apply str_in_In in E. split; [tauto|].
      intros [H|[<-|H]]; tauto.
    + assert (~ In y acc) as Hn by (rewrite <- str_in_In; congruence).
      assert (NoDup (acc ++ [y])) as Hnd.
      { apply NoDup_app; [exact Hacc|repeat constructor; simpl; tauto|].
        intros x Hx [<-|[]]. contradiction. }
      destruct (IH _ Hnd) as [H1 H2]. split; [exact H1|].
      intros x. rewrite H2, in_app_iff. simpl. tauto.
Qed.

Lemma distinct_NoDup (l : list string) : NoDup (distinct l).
Proof. apply distinct_acc. constructor. Qed.

Lemma distinct_In (x : string) (l : list string) : In x (distinct l) <-> In x l.
Proof.
  unfold distinct. destruct (distinct_acc l [] (NoDup_nil _)) as [_ H].
  rewrite H. simpl. tauto.
Qed.

(* ================================================================== *)
(** ** More on dictionaries *)

Lemma dict_get_keys (V : Type) (k : string) (v : V) (d : dict V) :
  dict_get k d = Some v -> In k (keys d).
Proof.
  induction d as [|[k0 v0] d IH]; simpl; [discriminate|].
  destruct (String.eqb k k0) eqn:E; [|auto].
  apply String.eqb_eq in E. auto.
Qed.

Lemma dict_get_none (V : Type) (k : string) (d : dict V) :
  dict_get k d = None <-> ~ In k (keys d).
Proof.
  induction d as [|[k0 v0] d IH]; simpl; [tauto|].
  destruct (String.eqb k k0) eqn:E.
  - apply String.eqb_eq in E. split; [discriminate|]. intros H. exfalso. auto.
  - apply String.eqb_neq in E. rewrite IH. split; [|tauto].
    intros H [H1|H1]; [congruence|tauto].
Qed.

Lemma dict_get_In (V : Type) (k : string) (v : V) (d : dict V) :
  NoDup (keys d) -> (dict_get k d = Some v <-> In (k, v) d).
Proof.
  induction d as [|[k0 v0] d IH]; simpl; intros Hnd.
  - split; [discriminate|tauto].
  - inversion Hnd as [|? ? Hk0 Hnd']; subst.
    destruct (String.eqb k k0) eqn:E.
    + apply String.eqb_eq in E. subst k0. split.
      * intros [= ->]. now left.
      * intros [[= ->]|H]; [reflexivity|].
        exfalso. apply Hk0. now apply (in_map fst) in H.
    + apply String.eqb_neq in E. rewrite IH by exact Hnd'. split; [tauto|].
      intros [[= -> ->]|H]; [congruence|exact H].
Qed.

(** Looking a key up does not depend on the order of the items. *)
Lemma dict_get_perm (V : Type) (k : string) (d d' : dict V) :
  NoDup (keys d) -> Permutation d d' -> dict_get k d = dict_get k d'.
Proof.
  intros Hnd Hp.
  assert (NoDup (keys d')) as Hnd'
      by (eapply Permutation_NoDup; [apply Permutation_map; exact Hp|exact Hnd]).
  destruct (dict_get k d) as [v|] eqn:E.
  - symmetry. apply dict_get_In; [exact Hnd'|].
    eapply Permutation_in; [exact Hp|]. now apply dict_get_In.
  - symmetry. apply dict_get_none. apply dict_get_none in E.
    intros H. apply E. eapply Permutation_in; [|exact H].
    apply Permutation_map. now symmetry.
Qed.

Lemma dict_set_fresh (V : Type) (k : string) (v : V) (d : dict V) :
  ~ In k (keys d) -> dict_set k v d = (d ++ [(k, v)])%list.
Proof.
  induction d as [|[k0 v0] d IH]; simpl; intros H; [reflexivity|].
  destruct (String.eqb k k0) eqn:E.
  - apply String.eqb_eq in E. subst k0. tauto.
  - rewrite IH; tauto.
Qed.

Lemma keys_dict_set (V : Type) (k : string) (v : V) (d : dict V) :
  keys (dict_set k v d) = if dict_has k d then keys d else (keys d ++ [k])%list.
Proof.
  unfold dict_has. induction d as [|[k0 v0] d IH]; simpl; [reflexivity|].
  destruct (String.eqb k k0) eqn:E; simpl.
  - apply String.eqb_eq in E. now subst.
  - rewrite IH. now destruct (dict_get k d).
Qed.

Lemma dict_set_NoDup (V : Type) (k : string) (v : V) (d : dict V) :
  NoDup (keys d) -> NoDup (keys (dict_set k v d)).
Proof.
  intros Hnd. rewrite keys_dict_set. unfold dict_has.
  destruct (dict_get k d) eqn:E; [exact Hnd|].
  apply dict_get_none in E.
  apply NoDup_app; [exact Hnd|repeat constructor; simpl; tauto|].
  intros x Hx [<-|[]]. contradiction.
Qed.

(** Storing items with different keys into an empty dict gives the items
    back. *)
Lemma fold_dict_set_fresh (V : Type) (l acc : dict V) :
  NoDup (keys (acc ++ l)%list) ->
  fold_left (fun m kv => dict_set (fst kv) (snd kv) m) l acc = (acc ++ l)%list.
Proof.
  revert acc. induction l as [|[k v] l IH]; intros acc Hnd; simpl.
  - now rewrite app_nil_r.
  - assert (~ In k (keys acc)) as Hk.
    { unfold keys in *. rewrite map_app in Hnd. simpl in Hnd.
      apply NoDup_remove_2 in Hnd. rewrite in_app_iff in Hnd. tauto. }
    rewrite dict_set_fresh by exact Hk.
    rewrite IH; rewrite <- app_assoc; [reflexivity|exact Hnd].
Qed.

Lemma In_items_at (V : Type) (d : dict V) (ks : list string) (k : string) (v : V) :
  In (k, v) (items_at d ks) <-> In k ks /\ dict_get k d = Some v.
Proof.
  unfold items_at. rewrite in_flat_map. split.
  - intros (k' & Hk & Hin). destruct (dict_get k' d) eqn:E; simpl in Hin; [|tauto].
    destruct Hin as [[= <- <-]|[]]. auto.
  - intros [Hk Hg]. exists k. rewrite Hg. simpl. auto.
Qed.

Lemma keys_items_at (V : Type) (d : dict V) (ks : list string) :
  (forall k, In k ks -> In k (keys d)) -> keys (items_at d ks) = ks.
Proof.
  induction ks as [|k ks IH]; intros H; simpl; [reflexivity|].
  destruct (dict_get k d) eqn:E.
  - simpl. f_equal. apply IH. intros k' Hk'. apply H. now right.
  - apply dict_get_none in E. exfalso. apply E, H. now left.
Qed.

Lemma items_at_ext (V : Type) (d d' : dict V) (ks : list string) :
  (forall k, In k ks -> dict_get k d = dict_get k d') ->
  items_at d ks = items_at d' ks.
Proof.
  induction ks as [|k ks IH]; intros H; simpl; [reflexivity|].
  rewrite (H k) by now left. f_equal. apply IH. intros k' Hk'. apply H. now right.
Qed.

Lemma dict_get_items_at (V : Type) (d : dict V) (ks : list string) (k : string) :
  dict_get k (items_at d ks) = if str_in k ks then dict_get k d else None.
Proof.
  induction ks as [|k0 ks IH]; simpl; [reflexivity|].
  destruct (String.eqb k k0) eqn:E; simpl.
  - apply String.eqb_eq in E. subst k0.
    destruct (dict_get k d) eqn:G; simpl.
    + now rewrite String.eqb_refl.
    + rewrite IH. now destruct (str_in k ks).
  - destruct (dict_get k0 d) eqn:G; simpl; [rewrite E|]; exact IH.
Qed.

(** The items of a dict in the order of its sorted keys. *)
Lemma keys_items_sorted (V : Type) (d : dict V) :
  keys (items_at d (sorted (keys d))) = sorted (keys d).
Proof. apply keys_items_at. intros k. apply sorted_In. Qed.

Lemma ordered_snoc (l : list string) (x : string) :
  StronglySorted le_str (l ++ [x])%list ->
  StronglySorted le_str l /\ forall y, In y l -> le_str y x.
Proof.
  induction l as [|z l IH]; simpl; intros H.
  - split; [constructor|tauto].
  - inversion H as [|? ? Hs Hall]; subst. destruct (IH Hs) as [H1 H2].
    rewrite Forall_forall in Hall. split.
    + constructor; [exact H1|]. apply Forall_forall. intros y Hy.
      apply Hall. apply in_app_iff. now left.
    + intros y [<-|Hy]; [|now apply H2].
      apply Hall. apply in_app_iff. right. now left.
Qed.

(* ================================================================== *)
(** ** sort_local_info *)

Lemma name_eqb_eq (a b : option string) : name_eqb a b = true <-> a = b.
Proof.
  destruct a as [x|], b as [y|]; simpl; try (split; [discriminate|congruence]).
  - rewrite String.eqb_eq. split; congruence.
  - tauto.
Qed.

Lemma name_eqb_refl (a : option string) : name_eqb a a = true.
Proof. now apply name_eqb_eq. Qed.

Lemma name_get_set (k k' : option string) (v : string)
  (d : list (option string * string)) :
  name_get k (name_set k' v d) = if name_eqb k k' then Some v else name_get k d.
Proof.
  induction d as [|[k0 v0] d IH]; simpl.
  - reflexivity.
  - destruct (name_eqb k' k0) eqn:E0; simpl.
    + apply name_eqb_eq in E0. subst k0. destruct (name_eqb k k'); reflexivity.
    + rewrite IH. destruct (name_eqb k k0) eqn:E1; [|reflexivity].
      apply name_eqb_eq in E1. subst k0.
      destruct (name_eqb k k') eqn:E2; [|reflexivity].
      apply name_eqb_eq in E2. subst k'. rewrite name_eqb_refl in E0. discriminate.
Qed.

Lemma name_get_keys (k : option string) (d : list (option string * string)) :
  In k (map fst d) <-> exists v, name_get k d = Some v.
Proof.
  induction d as [|[k0 v0] d IH]; simpl.
  - split; [tauto|]. intros [v H]. discriminate.
  - destruct (name_eqb k k0) eqn:E.
    + apply name_eqb_eq in E. subst k0. split; [eauto|auto].
    + rewrite <- IH. split; [|tauto]. intros [H|H]; [|exact H].
      subst k0. rewrite name_eqb_refl in E. discriminate.
Qed.

Lemma name_set_keys (k x : option string) (v : string)
  (d : list (option string * string)) :
  In x (map fst (name_set k v d)) <-> x = k \/ In x (map fst d).
Proof.
  induction d as [|[k0 v0] d IH]; simpl.
  - split; [intros [H|[]]; auto|intros [H|[]]; auto].
  - destruct (name_eqb k k0) eqn:E; simpl.
    + apply name_eqb_eq in E. subst k0. split; [intros [H|H]; auto|].
      intros [H|[H|H]]; auto.
    + rewrite IH. tauto.
Qed.

Lemma name_set_NoDup (k : option string) (v : string)
  (d : list (option string * string)) :
  NoDup (map fst d) -> NoDup (map fst (name_set k v d)).
Proof.
  induction d as [|[k0 v0] d IH]; simpl; intros H.
  - constructor; [tauto|constructor].
  - inversion H as [|? ? H0 Hd]; subst.
    destruct (name_eqb k k0) eqn:E; simpl.
    + apply name_eqb_eq in E. subst k0. now constructor.
    + constructor; [|now apply IH]. rewrite name_set_keys. intros [->|Hin].
      * rewrite name_eqb_refl in E. discriminate.
      * contradiction.
Qed.

(** The first loop of [sort_local_info]: a product name is mapped to the
    last of the installers, in sorted order, that carry it. *)
Lemma installer_name_map_get (l : list (string * local_installer))
  (n : option string) (p : string) :
  StronglySorted le_str (keys l) ->
  name_get n (fold_left (fun (m : list (option string * string))
                             (kv : string * local_installer) =>
                           name_set (product_name (snd kv)) (fst kv) m) l [])
  = Some p
  <-> exists r, In (p, r) l /\ product_name r = n
                /\ forall p' r', In (p', r') l -> product_name r' = n -> le_str p' p.
Proof.
  induction l as [|[px rx] l IH] using rev_ind; intros Hs.
  - simpl. split; [discriminate|]. intros (r & [] & _).
  - unfold keys in Hs. rewrite map_app in Hs. simpl in Hs.
    apply ordered_snoc in Hs as [Hs Hmax].
    rewrite fold_left_app. simpl. rewrite name_get_set.
    destruct (name_eqb n (product_name rx)) eqn:E.
    + apply name_eqb_eq in E. split.
      * intros [= <-]. exists rx. split; [apply in_app_iff; right; now left|].
        split; [congruence|].
        intros p' r' Hin _. apply in_app_iff in Hin as [Hin|[[= <- <-]|[]]].
        -- apply Hmax. now apply (in_map fst) in Hin.
        -- apply le_str_refl.
      * intros (r & Hin & Hn & Hm). f_equal.
        apply le_str_antisym.
        -- apply (Hm px rx); [apply in_app_iff; right; now left|congruence].
        -- apply in_app_iff in Hin as [Hin|[[= <- <-]|[]]].
           ++ apply Hmax. now apply (in_map fst) in Hin.
           ++ apply le_str_refl.
    + assert (n <> product_name rx) as E'
          by (intros ->; rewrite name_eqb_refl in E; discriminate).
      rewrite (IH Hs). split.
      * intros (r & Hin & Hn & Hm). exists r.
        split; [apply in_app_iff; now left|]. split; [exact Hn|].
        intros p' r' Hin' Hn'. apply in_app_iff in Hin' as [Hin'|[[= <- <-]|[]]].
        -- now apply (Hm p' r').
        -- congruence.
      * intros (r & Hin & Hn & Hm). exists r.
        apply in_app_iff in Hin as [Hin|[[= <- <-]|[]]]; [|congruence].
        split; [exact Hin|]. split; [exact Hn|].
        intros p' r' Hin' Hn'. apply (Hm p' r'); [|exact Hn'].
        apply in_app_iff. now left.
Qed.

Lemma installer_name_map_keys (l : list (string * local_installer))
  (acc : list (option string * string)) (n : option string) :
  In n (map fst (fold_left (fun (m : list (option string * string))
                                (kv : string * local_installer) =>
                              name_set (product_name (snd kv)) (fst kv) m) l acc))
  <-> In n (map fst acc) \/ exists p r, In (p, r) l /\ product_name r = n.
Proof.
  revert acc. induction l as [|[p r] l IH]; intros acc; simpl.
  - split; [auto|]. intros [H|(p & r & [] & _)]. exact H.
  - rewrite IH, name_set_keys. cbn [fst snd]. split.
    + intros [[->|H]|(p' & r' & Hin & Hn)]; [right|now left|right].
      * exists p, r. auto.
      * exists p', r'. auto.
    + intros [H|(p' & r' & [[= <- <-]|Hin] & Hn)]; [left; now right|left; now left|].
      right. exists p', r'. auto.
Qed.

Lemma installer_name_map_NoDup (l : list (string * local_installer))
  (acc : list (option string * string)) :
  NoDup (map fst acc) ->
  NoDup (map fst (fold_left (fun (m : list (option string * string))
                                 (kv : string * local_installer) =>
                               name_set (product_name (snd kv)) (fst kv) m) l acc)).
Proof.
  revert acc. induction l as [|kv l IH]; intros acc H; simpl; [exact H|].
  apply IH. now apply name_set_NoDup.
Qed.

Lemma all_named_some (l : list (option string)) (names : list string) :
  all_named l = Some names <-> l = map Some names.
Proof.
  revert names. induction l as [|[s|] l IH]; intros names; simpl.
  - split; [intros [= <-]; reflexivity|]. destruct names; [reflexivity|discriminate].
  - destruct (all_named l) as [t|] eqn:E; simpl.
    + split.
      * intros [= <-]. simpl. f_equal. now apply IH.
      * destruct names as [|x names]; [discriminate|]. simpl. intros [= -> H].
        apply IH in H. congruence.
    + split; [discriminate|]. destruct names as [|x names]; [discriminate|].
      simpl. intros [= -> H]. apply IH in H. discriminate.
  - split; [discriminate|]. destruct names; discriminate.
Qed.

Lemma all_named_none (l : list (option string)) :
  all_named l = None <-> In None l.
Proof.
  induction l as [|[s|] l IH]; simpl.
  - split; [discriminate|tauto].
  - destruct (all_named l); simpl.
    + split; [discriminate|]. intros [H|H]; [discriminate|]. now apply IH in H.
    + split; [|reflexivity]. intros _. right. now apply IH.
  - split; [auto|reflexivity].
Qed.

Lemma le_name_map (l : list string) :
  StronglySorted le_str l -> StronglySorted le_name (map Some l).
Proof.
  induction 1 as [|x l Hs IH Hall]; simpl; constructor; [exact IH|].
  rewrite Forall_forall in *. intros y Hy. apply in_map_iff in Hy as (z & <- & Hz).
  now apply Hall.
Qed.

Lemma NoDup_map_Some (l : list string) : NoDup l -> NoDup (map Some l).
Proof.
  induction 1 as [|x l Hx Hl IH]; simpl; constructor; [|exact IH].
  intros H. apply in_map_iff in H as (y & [= ->] & Hy). contradiction.
Qed.

(** What [sorted] gives for the keys of the name map when it returns. *)
Lemma sorted_names_ok (l names : list (option string)) :
  NoDup l -> sorted_names l = Ok names ->
  (forall n, In n names <-> In n l)
  /\ NoDup names /\ StronglySorted le_name names.
Proof.
  intros Hnd. unfold sorted_names.
  assert (forall ss, l = map Some ss ->
            (forall n, In n (map Some (sorted ss)) <-> In n l)
            /\ NoDup (map Some (sorted ss))
            /\ StronglySorted le_name (map Some (sorted ss))) as Hgen.
  { intros ss ->. split; [|split].
    - intros n. rewrite !in_map_iff. split; intros (s & <- & Hs); exists s;
        (split; [reflexivity|]); now apply sorted_In.
    - apply NoDup_map_Some, sorted_NoDup.
      apply (NoDup_map_inv Some). exact Hnd.
    - apply le_name_map, sorted_ordered. }
  destruct l as [|a [|b t]].
  - intros [= <-]. split; [tauto|]. split; constructor.
  - intros [= <-]. split; [tauto|]. split; [exact Hnd|].
    constructor; constructor.
  - destruct (all_named (a :: b :: t)) as [ss|] eqn:E; [|discriminate].
    intros [= <-]. apply Hgen. now apply all_named_some.
Qed.

(** [sorted] raises on them exactly when [None] stands beside a name. *)
Lemma sorted_names_raise (l : list (option string)) (x : exn) :
  NoDup l ->
  (sorted_names l = Raise x
   <-> x = TypeError /\ In None l /\ exists s, In (Some s) l).
Proof.
  intros Hnd. unfold sorted_names. destruct l as [|a [|b t]].
  - split; [discriminate|]. intros (_ & [] & _).
  - split; [discriminate|]. intros (_ & [->|[]] & s & [H|[]]). discriminate.
  - destruct (all_named (a :: b :: t)) as [ss|] eqn:E.
    + split; [discriminate|]. intros (_ & H & _).
      apply all_named_none in H. congruence.
    + apply all_named_none in E. split; [|intros (-> & _); reflexivity].
      intros [= <-]. split; [reflexivity|]. split; [exact E|].
      destruct a as [s|]; [exists s; now left|].
      destruct b as [s|]; [exists s; right; now left|].
      inversion Hnd as [|? ? H _]; subst. exfalso. apply H. now left.
Qed.

(** The second loop of [sort_local_info] when every installer it visits
    is new to the result: the records are appended one by one. *)
Lemma sorted_local_info_append (local_info : dict local_installer)
  (m : list (option string * string)) (names : list (option string))
  (acc : dict local_installer) :
  NoDup (keys acc ++ flat_map (fun n => match name_get n m with
                                        | Some p => [p]
                                        | None => []
                                        end) names)%list ->
  fold_left
    (fun (sorted_local_info : dict local_installer) (prod_name : option string) =>
       match name_get prod_name m with
       | Some installer =>
           match dict_get installer local_info with
           | Some info => dict_set installer info sorted_local_info
           | None => sorted_local_info
           end
       | None => sorted_local_info
       end) names acc
  = (acc ++ flat_map (fun n => match name_get n m with
                               | Some p =>
                                   match dict_get p local_info with
                                   | Some r => [(p, r)]
                                   | None => []
                                   end
                               | None => []
                               end) names)%list.
Proof.
  revert acc. induction names as [|n t IH]; intros acc Hnd; cbn [fold_left flat_map].
  - now rewrite app_nil_r.
  - cbn [flat_map] in Hnd. destruct (name_get n m) as [p|]; [|now apply IH].
    cbn [app] in Hnd. apply NoDup_remove in Hnd as [Hnd Hp].
    destruct (dict_get p local_info) as [info|] eqn:G.
    + rewrite dict_set_fresh by (intros H; apply Hp, in_app_iff; now left).
      rewrite IH.
      * now rewrite <- app_assoc.
      * unfold keys. rewrite map_app. simpl. rewrite <- app_assoc. simpl.
        apply (Permutation_NoDup
                 (l := p :: (map fst acc
                             ++ flat_map (fun n => match name_get n m with
                                                   | Some p => [p]
                                                   | None => []
                                                   end) t)%list)).
        -- apply Permutation_middle.
        -- constructor; assumption.
    + now apply IH.
Qed.

(** What [sort_local_info] does, step by step: it raises [TypeError] when
    [None] stands beside a product name; otherwise the result has one
    record for every product name, in the order of the names, under the
    last of the paths, in sorted order, of the installers with that
    name. *)
Lemma sort_local_info_spec (local_info : dict local_installer) :
  (mixed_names local_info -> sort_local_info local_info = Raise TypeError)
  /\ forall x, sort_local_info local_info = Raise x -> mixed_names local_info.
Proof.
  unfold sort_local_info.
  set (items := items_at local_info (sorted (keys local_info))).
  set (m := fold_left (fun (m : list (option string * string))
                           (kv : string * local_installer) =>
                         name_set (product_name (snd kv)) (fst kv) m) items []).
  assert (NoDup (map fst m)) as Hnd
      by (unfold m; apply installer_name_map_NoDup; constructor).
  assert (forall n, In n (map fst m)
                    <-> exists p r, dict_get p local_info = Some r
                                    /\ product_name r = n) as Hk.
  { intros n. unfold m. rewrite installer_name_map_keys. simpl. split.
    - intros [[]|(p & r & Hin & Hn)]. exists p, r.
      apply In_items_at in Hin as [_ Hin]. auto.
    - intros (p & r & Hg & Hn). right. exists p, r. split; [|exact Hn].
      apply In_items_at. split; [|exact Hg].
      apply sorted_In. eapply dict_get_keys, Hg. }
  assert (mixed_names local_info
          <-> In None (map fst m) /\ exists s, In (Some s) (map fst m)) as Hmix.
  { unfold mixed_names. rewrite Hk. split.
    - intros [H (p & r & s & Hg & Hn)]. split; [exact H|]. exists s.
      apply Hk. eauto.
    - intros [H (s & Hs)]. split; [exact H|]. apply Hk in Hs as (p & r & Hg & Hn).
      eauto. }
  split.
  - intros H. apply Hmix in H.
    assert (sorted_names (map fst m) = Raise TypeError) as ->
        by (apply sorted_names_raise; [exact Hnd|tauto]).
    reflexivity.
  - intros x H. apply Hmix.
    destruct (sorted_names (map fst m)) as [names|y] eqn:E; [discriminate|].
    apply (sorted_names_raise _ y Hnd) in E. tauto.
Qed.

Lemma name_paths_NoDup (m : list (option string * string))
  (names : list (option string)) :
  NoDup names ->
  (forall n n' p, name_get n m = Some p -> name_get n' m = Some p -> n = n') ->
  NoDup (flat_map (fun n => match name_get n m with
                            | Some p => [p]
                            | None => []
                            end) names).
Proof.
  intros Hnd Hinj. induction Hnd as [|n t Hn Ht IH]; cbn [flat_map]; [constructor|].
  destruct (name_get n m) as [p|] eqn:G; [|exact IH].
  cbn [app]. constructor; [|exact IH].
  intros Hp. apply in_flat_map in Hp as (n' & Hn' & Hp).
  destruct (name_get n' m) as [p'|] eqn:G'; [|destruct Hp].
  destruct Hp as [->|[]]. apply Hn. now rewrite (Hinj n n' p G G').
Qed.

(** When [sort_local_info] returns, its result has one record for every
    product name, in the order of the names, under the last of the paths,
    in sorted order, of the installers with that name. *)
Lemma sort_local_info_result (local_info res : dict local_installer) :
  sort_local_info local_info = Ok res ->
  exists (m : list (option string * string)) (names : list (option string)),
    res = flat_map (fun n => match name_get n m with
                             | Some p =>
                                 match dict_get p local_info with
                                 | Some r => [(p, r)]
                                 | None => []
                                 end
                             | None => []
                             end) names
    /\ NoDup names /\ StronglySorted le_name names
    /\ (forall n p,
          name_get n m = Some p
          <-> exists r, dict_get p local_info = Some r /\ product_name r = n
                /\ forall p' r', dict_get p' local_info = Some r' ->
                                 product_name r' = n -> le_str p' p)
    /\ (forall n, In n names <-> exists p, name_get n m = Some p).
Proof.
  unfold sort_local_info.
  set (items := items_at local_info (sorted (keys local_info))).
  set (m := fold_left (fun (m : list (option string * string))
                           (kv : string * local_installer) =>
                         name_set (product_name (snd kv)) (fst kv) m) items []).
  assert (NoDup (map fst m)) as Hnd
      by (unfold m; apply installer_name_map_NoDup; constructor).
  assert (forall n q, name_get n m = Some q
            <-> exists r0, dict_get q local_info = Some r0 /\ product_name r0 = n
                  /\ forall p' r', dict_get p' local_info = Some r' ->
                                   product_name r' = n -> le_str p' q) as Hm.
  { intros n q. unfold m. rewrite installer_name_map_get.
    - split; intros (r0 & Hin & Hn & Hmax); exists r0.
      + apply In_items_at in Hin as [_ Hin]. split; [exact Hin|]. split; [exact Hn|].
        intros p' r' Hg. apply Hmax. apply In_items_at. split; [|exact Hg].
        apply sorted_In. eapply dict_get_keys, Hg.
      + split; [apply In_items_at; split; [|exact Hin];
                apply sorted_In; eapply dict_get_keys, Hin|].
        split; [exact Hn|].
        intros p' r' Hg. apply In_items_at in Hg as [_ Hg]. now apply Hmax.
    - unfold items. rewrite keys_items_sorted. apply sorted_ordered. }
  destruct (sorted_names (map fst m)) as [names|y] eqn:E; [|discriminate].
  cbn [bind]. intros [= <-].
  destruct (sorted_names_ok _ _ Hnd E) as (Hin & Hnn & Hsn).
  exists m, names.
  assert (forall n, In n names <-> exists p, name_get n m = Some p) as Hnames
      by (intros n; rewrite Hin; apply name_get_keys).
  split; [|auto].
  rewrite sorted_local_info_append; [reflexivity|]. cbn [keys map app].
  apply name_paths_NoDup; [exact Hnn|].
  intros n n' p G G'.
  apply Hm in G as (r & Hg & Hr & _). apply Hm in G' as (r' & Hg' & Hr' & _).
  congruence.
Qed.

(** A record is in the result of [sort_local_info] exactly when its
    installer sorts last among those with its product name. *)
Lemma sort_local_info_get (local_info res : dict local_installer) (p : string)
  (r : local_installer) :
  sort_local_info local_info = Ok res ->
  (dict_get p res = Some r
   <-> dict_get p local_info = Some r
       /\ forall p' r', dict_get p' local_info = Some r' ->
                        product_name r' = product_name r -> le_str p' p).
Proof.
  intros H. apply sort_local_info_result in H
    as (m & names & -> & Hnn & Hsn & Hm & Hnames).
  assert (forall q x,
            In (q, x) (flat_map (fun n => match name_get n m with
                                          | Some p =>
                                              match dict_get p local_info with
                                              | Some r => [(p, r)]
                                              | None => []
                                              end
                                          | None => []
                                          end) names)
            <-> dict_get q local_info = Some x
                /\ forall p' r', dict_get p' local_info = Some r' ->
                                 product_name r' = product_name x -> le_str p' q)
    as Hin.
  { intros q x. rewrite in_flat_map. split.
    - intros (n & Hn & Hq). destruct (name_get n m) as [q'|] eqn:G; [|destruct Hq].
      destruct (dict_get q' local_info) as [x'|] eqn:G'; [|destruct Hq].
      destruct Hq as [[= <- <-]|[]]. split; [exact G'|].
      apply Hm in G as (r0 & Hg & Hr & Hmax).
      assert (r0 = x') as -> by congruence. intros p' r' Hg' Hn'.
      apply (Hmax p' r' Hg'). congruence.
    - intros [Hg Hmax].
      assert (name_get (product_name x) m = Some q) as G
          by (apply Hm; exists x; auto).
      exists (product_name x). split; [apply Hnames; eauto|].
      rewrite G, Hg. now left. }
  rewrite <- Hin. apply dict_get_In.
  assert (keys (flat_map (fun n => match name_get n m with
                                   | Some p =>
                                       match dict_get p local_info with
                                       | Some r => [(p, r)]
                                       | None => []
                                       end
                                   | None => []
                                   end) names)
          = flat_map (fun n => match name_get n m with
                               | Some p => [p]
                               | None => []
                               end) names) as ->.
  { unfold keys. clear Hnn Hsn Hnames Hin.
    induction names as [|n t IH]; [reflexivity|].
    cbn [flat_map]. rewrite map_app, IH. f_equal.
    destruct (name_get n m) as [q|] eqn:G; [|reflexivity].
    apply Hm in G as (r0 & Hg & _). now rewrite Hg. }
  apply name_paths_NoDup; [exact Hnn|].
  intros n n' q G G'.
  apply Hm in G as (x & Hg & Hr & _). apply Hm in G' as (x' & Hg' & Hr' & _).
  congruence.
Qed.

(** When [sort_local_info] returns, the records come out in strictly
    ascending order of product name, each under its own installer path. *)
Lemma sort_local_info_shape (local_info res : dict local_installer) :
  sort_local_info local_info = Ok res ->
  StronglySorted le_name (map (fun kv => product_name (snd kv)) res)
  /\ NoDup (map (fun kv => product_name (snd kv)) res)
  /\ forall p r, In (p, r) res -> dict_get p local_info = Some r.
Proof.
  intros H. apply sort_local_info_result in H
    as (m & names & -> & Hnn & Hsn & Hm & Hnames).
  assert (map (fun kv : string * local_installer => product_name (snd kv))
              (flat_map (fun n => match name_get n m with
                                  | Some p =>
                                      match dict_get p local_info with
                                      | Some r => [(p, r)]
                                      | None => []
                                      end
                                  | None => []
                                  end) names)
          = names) as ->.
  { assert (forall n, In n names -> exists p, name_get n m = Some p) as Hres
        by (intros n Hn; now apply Hnames).
    clear Hnn Hsn Hnames. induction names as [|n t IH]; [reflexivity|].
    cbn [flat_map]. rewrite map_app, IH by (intros n' Hn'; apply Hres; now right).
    destruct (Hres n (or_introl eq_refl)) as [q G]. rewrite G.
    apply Hm in G as (r0 & Hg & Hr & _). rewrite Hg. cbn [map app snd].
    now rewrite Hr. }
  split; [exact Hsn|]. split; [exact Hnn|].
  intros p r Hin. apply in_flat_map in Hin as (n & _ & Hin).
  destruct (name_get n m) as [q|]; [|destruct Hin].
  destruct (dict_get q local_info) eqn:G; [|destruct Hin].
  destruct Hin as [[= <- <-]|[]]. exact G.
Qed.

(** Every record of the sorted result is a record of the input, under the
    same path. *)
Lemma sort_local_info_In (local_info res : dict local_installer) (p : string)
  (r : local_installer) :
  sort_local_info local_info = Ok res ->
  In (p, r) res -> dict_get p local_info = Some r.
Proof.
  intros H Hin. apply sort_local_info_shape in H as (_ & _ & H). now apply H.
Qed.

(** C10 (counterexample).  Three installers carry one product name: of the
    first two, neither is in the result, which only has the third. *)
Lemma sort_local_info_three_same_name :
  option_map product_name (dict_get "a.exe" three_alphas) = Some (Some "Alpha")
  /\ option_map product_name (dict_get "b.exe" three_alphas) = Some (Some "Alpha")
  /\ exists res,
       sort_local_info three_alphas = Ok res
       /\ dict_get "a.exe" res = None /\ dict_get "b.exe" res = None
       /\ keys res = ["c.exe"].
Proof.
  split; [reflexivity|]. split; [reflexivity|].
  eexists. split; [vm_compute; reflexivity|]. repeat split.
Qed.

(** C10 (amended).  [sort_local_info] raises [TypeError] when an installer
    without a product name stands beside an installer with one; otherwise
    it returns, and a record is in its result exactly when its installer
    sorts last among all the installers with its product name: of the
    installers with one name only that one is kept. *)
Theorem sort_local_info_drops_same_name (local_info : dict local_installer) :
  (mixed_names local_info -> sort_local_info local_info = Raise TypeError)
  /\ (~ mixed_names local_info ->
      exists res,
        sort_local_info local_info = Ok res
        /\ forall p r,
             dict_get p res = Some r
             <-> dict_get p local_info = Some r
                 /\ forall p' r', dict_get p' local_info = Some r' ->
                                  product_name r' = product_name r -> le_str p' p).
Proof.
  split; [apply sort_local_info_spec|].
  intros Hmix. destruct (sort_local_info local_info) as [res|x] eqn:E.
  - exists res. split; [reflexivity|]. intros p r. now apply sort_local_info_get.
  - exfalso. apply Hmix. exact (proj2 (sort_local_info_spec local_info) x E).
Qed.

(** With two installers named Alpha, and with an installer without a name
    next to one with a name. *)
Lemma sort_local_info_drops_same_name_witness :
  ~ mixed_names two_alphas
  /\ (exists res,
        sort_local_info two_alphas = Ok res
        /\ forall p r,
             dict_get p res = Some r
             <-> dict_get p two_alphas = Some r
                 /\ forall p' r', dict_get p' two_alphas = Some r' ->
                                  product_name r' = product_name r -> le_str p' p)
  /\ mixed_names named_and_unnamed
  /\ sort_local_info named_and_unnamed = Raise TypeError.
Proof.
  assert (~ mixed_names two_alphas) as H.
  { intros [(p & r & Hg & Hn) _]. unfold two_alphas in Hg. cbn [dict_get] in Hg.
    destruct (String.eqb p "b.exe"); [injection Hg as <-; discriminate|].
    destruct (String.eqb p "c.exe"); [injection Hg as <-; discriminate|].
    destruct (String.eqb p "a.exe"); [injection Hg as <-; discriminate|].
    discriminate. }
  assert (mixed_names named_and_unnamed) as H'.
  { split.
    - eexists "a.exe", _. split; reflexivity.
    - eexists "b.exe", _, "Alpha". split; reflexivity. }
  split; [exact H|].
  split; [exact (proj2 (sort_local_info_drops_same_name two_alphas) H)|].
  split; [exact H'|].
  exact (proj1 (sort_local_info_drops_same_name named_and_unnamed) H').
Defined.

(* ================================================================== *)
(** ** dedup_installers_id *)

Lemma first_path_spec (d : dict string) (i p : string) :
  first_path d i = Some p
  <-> dict_get p d = Some i
      /\ forall p', dict_get p' d = Some i -> le_str p p'.
Proof.
  unfold first_path. rewrite find_ordered by apply sorted_ordered. split.
  - intros (Hin & Hp & Hmin).
    destruct (dict_get p d) as [j|] eqn:G; [|discriminate].
    apply String.eqb_eq in Hp. subst j. split; [reflexivity|].
    intros p' G'. apply Hmin.
    + apply sorted_In. eapply dict_get_keys, G'.
    + rewrite G'. apply String.eqb_refl.
  - intros [G Hmin]. split; [apply sorted_In; eapply dict_get_keys, G|].
    split; [rewrite G; apply String.eqb_refl|].
    intros y _ Hy. apply Hmin.
    destruct (dict_get y d) as [j|]; [|discriminate].
    apply String.eqb_eq in Hy. now subst.
Qed.

Lemma first_path_exists (d : dict string) (i p0 : string) :
  dict_get p0 d = Some i -> exists p, first_path d i = Some p.
Proof.
  intros G. destruct (first_path d i) as [p|] eqn:E; [now exists p|].
  unfold first_path in E. apply find_none with (x := p0) in E.
  - rewrite G, String.eqb_refl in E. discriminate.
  - apply sorted_In. eapply dict_get_keys, G.
Qed.

(** The loop over the ids always ends, and stores under a path the id it
    is the first path of. *)
Lemma add_first_path_fold (d : dict string) (ids : list string)
  (acc : dict (dict string)) :
  (forall i, In i ids -> exists p0, dict_get p0 d = Some i) ->
  NoDup (keys acc) ->
  exists aux,
    fold_left (add_first_path d) ids (Some acc) = Some aux
    /\ NoDup (keys aux)
    /\ forall p,
         dict_get p aux =
           if existsb (fun i => match first_path d i with
                                | Some k => String.eqb k p
                                | None => false
                                end) ids
           then option_map (fun i => [("product_id", i)]) (dict_get p d)
           else dict_get p acc.
Proof.
  revert acc. induction ids as [|i ids IH]; intros acc Hval Hnd; simpl.
  - exists acc. auto.
  - destruct (Hval i (or_introl eq_refl)) as [p0 G0].
    destruct (first_path_exists d i p0 G0) as [k Hk]. rewrite Hk.
    destruct (IH (dict_set k [("product_id", i)] acc)) as (aux & Hf & Hn & Hget).
    + intros j Hj. apply Hval. now right.
    + now apply dict_set_NoDup.
    + exists aux. split; [exact Hf|]. split; [exact Hn|].
      intros p. rewrite Hget.
      destruct (existsb _ ids); [now rewrite orb_true_r|]. rewrite orb_false_r.
      rewrite dict_get_set, (String.eqb_sym p k).
      destruct (String.eqb k p) eqn:E; [|reflexivity].
      apply String.eqb_eq in E. subst p.
      apply first_path_spec in Hk as [Hk _]. now rewrite Hk.
Qed.

Lemma resort_items (aux : dict (dict string)) :
  NoDup (keys aux) -> resort aux = items_at aux (sorted (keys aux)).
Proof.
  intros Hnd. unfold resort. rewrite fold_dict_set_fresh; [reflexivity|].
  simpl. rewrite keys_items_sorted. now apply sorted_NoDup.
Qed.

Lemma resort_get (aux : dict (dict string)) (p : string) :
  NoDup (keys aux) -> dict_get p (resort aux) = dict_get p aux.
Proof.
  intros Hnd. rewrite resort_items, dict_get_items_at by exact Hnd.
  destruct (str_in p (sorted (keys aux))) eqn:E; [reflexivity|].
  symmetry. apply dict_get_none. rewrite <- sorted_In, <- str_in_In. congruence.
Qed.

Lemma resort_keys (aux : dict (dict string)) :
  NoDup (keys aux) -> keys (resort aux) = sorted (keys aux).
Proof. intros Hnd. rewrite resort_items by exact Hnd. apply keys_items_sorted. Qed.

(** The outcome only depends on what is stored under each path, not on the
    order it was stored in. *)
Lemma resort_ext (aux aux' : dict (dict string)) :
  NoDup (keys aux) -> NoDup (keys aux') ->
  (forall p, dict_get p aux = dict_get p aux') ->
  resort aux = resort aux'.
Proof.
  intros Hnd Hnd' Hget. rewrite !resort_items by assumption.
  assert (sorted (keys aux) = sorted (keys aux')) as <-.
  { apply sorted_perm_eq, NoDup_Permutation; try assumption.
    intros k. destruct (dict_get k aux) eqn:G.
    - split; intros _; [rewrite Hget in G|]; eapply dict_get_keys, G.
    - assert (dict_get k aux' = None) as G' by (now rewrite <- Hget).
      apply dict_get_none in G, G'. tauto. }
  apply items_at_ext. intros k _. apply Hget.
Qed.

Lemma existsb_same_elements (A : Type) (f : A -> bool) (l l' : list A) :
  (forall x, In x l <-> In x l') -> existsb f l = existsb f l'.
Proof.
  intros H. destruct (existsb f l) eqn:E; symmetry.
  - apply existsb_exists in E as (x & Hx & Hf). apply existsb_exists.
    exists x. split; [now apply H|exact Hf].
  - destruct (existsb f l') eqn:E'; [|reflexivity].
    apply existsb_exists in E' as (x & Hx & Hf).
    assert (existsb f l = true) by (apply existsb_exists; exists x; split;
                                    [now apply H|exact Hf]).
    congruence.
Qed.

(** The ids that [main.py] goes through are the ids of the mapping. *)
Lemma main_id_list (d : dict string) (i : string) :
  In i (sorted (distinct (map snd (items_at d (sorted (keys d))))))
  <-> exists p, dict_get p d = Some i.
Proof.
  rewrite sorted_In, distinct_In, in_map_iff. split.
  - intros ([p j] & E & Hin). simpl in E. subst j.
    apply In_items_at in Hin as [_ G]. now exists p.
  - intros [p G]. exists (p, i). split; [reflexivity|].
    apply In_items_at. split; [|exact G]. apply sorted_In. eapply dict_get_keys, G.
Qed.

Lemma checker_id_list (set_iter : list string -> list string) (d : dict string)
  (i : string) :
  enumerates set_iter -> NoDup (keys d) ->
  In i (set_iter (map snd d)) <-> exists p, dict_get p d = Some i.
Proof.
  intros Hset Hnd. destruct (Hset (map snd d)) as [_ H]. rewrite H, in_map_iff. split.
  - intros ([p j] & E & Hin). simpl in E. subst j. exists p. now apply dict_get_In.
  - intros [p G]. exists (p, i). split; [reflexivity|]. now apply dict_get_In.
Qed.

(** What the loop over the ids has stored, for any way of going through
    the ids of the mapping. *)
Lemma dedup_aux (d : dict string) (ids : list string) :
  (forall i, In i ids <-> exists p, dict_get p d = Some i) ->
  exists aux,
    fold_left (add_first_path d) ids (Some []) = Some aux
    /\ NoDup (keys aux)
    /\ forall p v,
         dict_get p aux = Some v
         <-> exists i, v = [("product_id", i)] /\ dict_get p d = Some i
                       /\ forall p', dict_get p' d = Some i -> le_str p p'.
Proof.
  intros Hids.
  destruct (add_first_path_fold d ids []) as (aux & Hf & Hnd & Hget).
  - intros i. apply Hids.
  - constructor.
  - exists aux. split; [exact Hf|]. split; [exact Hnd|].
    intros p v. rewrite Hget. destruct (existsb _ ids) eqn:E.
    + apply existsb_exists in E as (i & Hi & Hk).
      destruct (first_path d i) as [k|] eqn:F; [|discriminate].
      apply String.eqb_eq in Hk. subst k.
      apply first_path_spec in F as [G Hmin]. rewrite G. simpl. split.
      * intros [= <-]. exists i. auto.
      * intros (j & -> & Gj & _). injection Gj as ->. reflexivity.
    + simpl. split; [discriminate|]. intros (i & -> & G & Hmin). exfalso.
      assert (existsb (fun i => match first_path d i with
                                | Some k => String.eqb k p
                                | None => false
                                end) ids = true); [|congruence].
      apply existsb_exists. exists i. split; [apply Hids; now exists p|].
      assert (first_path d i = Some p) as -> by (apply first_path_spec; auto).
      apply String.eqb_refl.
Qed.

Lemma option_ext (A : Type) (x y : option A) :
  (forall v, x = Some v <-> y = Some v) -> x = y.
Proof.
  intros H. destruct x as [a|], y as [b|]; try reflexivity.
  - symmetry. now apply H.
  - discriminate (proj1 (H a) eq_refl).
  - discriminate (proj2 (H b) eq_refl).
Qed.

(** C8.  For a mapping from paths to product ids, both files return the
    same dict; a path is in it, with its id, exactly when it is the smallest
    of the paths mapped to that id, so every id of the mapping has one path
    in it and one only; and the same dict is returned for the items in any
    other order, whatever the order in which the set of ids is gone
    through. *)
Theorem dedup_installers_id_smallest_path (set_iter : list string -> list string)
  (installers_dict : dict string) :
  enumerates set_iter ->
  NoDup (keys installers_dict) ->
  exists deduped,
    Main.dedup_installers_id installers_dict = Some deduped
    /\ Checker.dedup_installers_id set_iter installers_dict = Some deduped
    /\ (forall path v,
          dict_get path deduped = Some v
          <-> exists i, v = [("product_id", i)]
                /\ dict_get path installers_dict = Some i
                /\ forall path', dict_get path' installers_dict = Some i ->
                                 le_str path path')
    /\ (forall i path0,
          dict_get path0 installers_dict = Some i ->
          exists path,
            dict_get path deduped = Some [("product_id", i)]
            /\ forall path', dict_get path' deduped = Some [("product_id", i)] ->
                             path' = path)
    /\ NoDup (keys deduped)
    /\ (forall set_iter' installers_dict',
          enumerates set_iter' ->
          Permutation installers_dict installers_dict' ->
          Main.dedup_installers_id installers_dict' = Some deduped
          /\ Checker.dedup_installers_id set_iter' installers_dict' = Some deduped).
Proof.
  intros Hset Hnd.
  destruct (dedup_aux installers_dict _ (main_id_list installers_dict))
    as (auxM & HfM & HnM & HgM).
  destruct (dedup_aux installers_dict _
              (fun i => checker_id_list set_iter installers_dict i Hset Hnd))
    as (auxC & HfC & HnC & HgC).
  assert (forall d' aux', NoDup (keys d') -> NoDup (keys aux') ->
            (forall p, dict_get p installers_dict = dict_get p d') ->
            (forall p v,
               dict_get p aux' = Some v
               <-> exists i, v = [("product_id", i)] /\ dict_get p d' = Some i
                     /\ forall p', dict_get p' d' = Some i -> le_str p p') ->
            resort aux' = resort auxM) as Hsame.
  { intros d' aux' _ Hn' Hd' Hg'. apply resort_ext; try assumption.
    intros p. apply option_ext. intros v. rewrite Hg', HgM.
    split; intros (i & Hv & G & Hmin); exists i; (split; [exact Hv|]);
      (split; [congruence|]); intros p' G'; apply Hmin; congruence. }
  exists (resort auxM).
  split; [unfold Main.dedup_installers_id; now rewrite HfM|].
  split; [unfold Checker.dedup_installers_id; rewrite HfC; f_equal;
          now apply (Hsame installers_dict)|].
  split; [intros path v; rewrite resort_get by exact HnM; apply HgM|].
  split.
  { intros i path0 G0.
    destruct (first_path_exists installers_dict i path0 G0) as [path F].
    apply first_path_spec in F as [G Hmin]. exists path. split.
    - rewrite resort_get by exact HnM. apply HgM. exists i. auto.
    - intros path'. rewrite resort_get by exact HnM. rewrite HgM.
      intros (j & [= <-] & G' & Hmin'). apply le_str_antisym; auto. }
  split; [rewrite resort_keys by exact HnM; now apply sorted_NoDup|].
  intros set_iter' d' Hset' Hperm.
  assert (NoDup (keys d')) as Hnd'
      by (eapply Permutation_NoDup; [apply Permutation_map; exact Hperm|exact Hnd]).
  assert (forall p, dict_get p installers_dict = dict_get p d') as Hd'
      by (intros p; now apply dict_get_perm).
  destruct (dedup_aux d' _ (main_id_list d')) as (auxM' & HfM' & HnM' & HgM').
  destruct (dedup_aux d' _ (fun i => checker_id_list set_iter' d' i Hset' Hnd'))
    as (auxC' & HfC' & HnC' & HgC').
  split.
  - unfold Main.dedup_installers_id. rewrite HfM'. f_equal. now apply (Hsame d').
  - unfold Checker.dedup_installers_id. rewrite HfC'. f_equal. now apply (Hsame d').
Qed.

Lemma distinct_enumerates : enumerates distinct.
Proof. intros l. split; [apply distinct_NoDup|intros x; apply distinct_In]. Qed.

(** With the three installers above: the two copies of product 2 are
    reduced to the one under [a/]. *)
Lemma dedup_installers_id_smallest_path_witness :
  enumerates distinct
  /\ NoDup (keys three_installers)
  /\ Main.dedup_installers_id three_installers
     = Some [("a/setup_x.exe", [("product_id", "2")]);
             ("b/setup_y.exe", [("product_id", "1")])]
  /\ exists deduped,
       Main.dedup_installers_id three_installers = Some deduped
       /\ Checker.dedup_installers_id distinct three_installers = Some deduped
       /\ (forall path v,
             dict_get path deduped = Some v
             <-> exists i, v = [("product_id", i)]
                   /\ dict_get path three_installers = Some i
                   /\ forall path', dict_get path' three_installers = Some i ->
                                    le_str path path')
       /\ (forall i path0,
             dict_get path0 three_installers = Some i ->
             exists path,
               dict_get path deduped = Some [("product_id", i)]
               /\ forall path', dict_get path' deduped = Some [("product_id", i)] ->
                                path' = path)
       /\ NoDup (keys deduped)
       /\ (forall set_iter' installers_dict',
             enumerates set_iter' ->
             Permutation three_installers installers_dict' ->
             Main.dedup_installers_id installers_dict' = Some deduped
             /\ Checker.dedup_installers_id set_iter' installers_dict' = Some deduped).
Proof.
  assert (NoDup (keys three_installers)) as Hnd.
  { unfold three_installers. simpl.
    repeat constructor; simpl; intros H;
      repeat (destruct H as [H|H]; [discriminate|]); exact H. }
  split; [exact distinct_enumerates|]. split; [exact Hnd|]. split; [reflexivity|].
  exact (dedup_installers_id_smallest_path distinct three_installers
           distinct_enumerates Hnd).
Defined.

(* ================================================================== *)
(** * Further properties *)

(** ** normalize_version_name: shape of the result, convergence *)

Lemma rstrip_by_not_ending (c : ascii) (s : string) :
  ends_with c (rstrip_by (Ascii.eqb c) s) = false.
Proof.
  induction s as [|d s IH]; simpl; [reflexivity|].
  destruct (rstrip_by (Ascii.eqb c) s) as [|e t] eqn:E.
  - destruct (Ascii.eqb c d) eqn:Ed; simpl; [reflexivity|].
    now rewrite Ascii.eqb_sym.
  - exact IH.
Qed.

Lemma rstrip_by_contains (p : ascii -> bool) (c : ascii) (s : string) :
  contains_char c s = false -> contains_char c (rstrip_by p s) = false.
Proof.
  induction s as [|d s IH]; simpl; [reflexivity|].
  intros H. apply orb_false_elim in H as [Hd Hs]. specialize (IH Hs).
  destruct (rstrip_by p s) as [|e t].
  - destruct (p d); simpl; [reflexivity|]. now rewrite Hd.
  - cbn [contains_char] in *. now rewrite Hd, IH.
Qed.

Lemma replace_underscore_gone (s : string) :
  contains_char "_" (replace "_" " " s) = false.
Proof.
  unfold replace. induction s as [|c s IH]; [reflexivity|].
  cbn [replace_from prefix]. destruct (ascii_dec "_" c) as [<-|Hn].
  - rewrite prefix_empty. simpl. exact IH.
  - cbn [contains_char]. rewrite IH.
    assert (Ascii.eqb c "_" = false) as -> by (apply Ascii.eqb_neq; congruence).
    reflexivity.
Qed.

Lemma normalize_no_underscore (s : string) :
  contains_char "_" (normalize_version_name s) = false.
Proof.
  unfold normalize_version_name. apply rstrip_by_contains, replace_underscore_gone.
Qed.

Lemma normalize_length (s : string) :
  String.length (normalize_version_name s) <= String.length s.
Proof.
  unfold normalize_version_name.
  pose proof (fold_strip_illegal_length illegal_characters s).
  pose proof (strip_length (fold_left strip_illegal illegal_characters s)).
  pose proof (replace_underscore_length
                (strip (fold_left strip_illegal illegal_characters s))).
  pose proof (rstrip_by_length (Ascii.eqb ".")
                (replace "_" " " (strip (fold_left strip_illegal illegal_characters s)))).
  lia.
Qed.

(** The normalized version is never longer than the input, never ends
    with a period and never holds an underscore. *)
Theorem normalize_result_shape (s : string) :
  String.length (normalize_version_name s) <= String.length s
  /\ ends_with "." (normalize_version_name s) = false
  /\ contains_char "_" (normalize_version_name s) = false.
Proof.
  split; [apply normalize_length|]. split; [|apply normalize_no_underscore].
  unfold normalize_version_name. apply rstrip_by_not_ending.
Qed.

(** Without underscores, the normalizer either shortens the string or
    leaves it as it is. *)
Lemma normalize_same_length (s : string) :
  contains_char "_" s = false ->
  String.length (normalize_version_name s) = String.length s ->
  normalize_version_name s = s.
Proof.
  intros Hu HL. unfold normalize_version_name in *.
  set (P := fold_left strip_illegal illegal_characters s) in *.
  pose proof (fold_strip_illegal_length illegal_characters s) as L1. fold P in L1.
  pose proof (strip_length P) as L2.
  pose proof (replace_underscore_length (strip P)) as L3.
  pose proof (rstrip_by_length (Ascii.eqb ".") (replace "_" " " (strip P))) as L4.
  assert (P = s) as EP.
  { apply fold_strip_illegal_skip, fold_strip_illegal_fixed. fold P. lia. }
  rewrite EP in *.
  assert (strip s = s) as ES by (apply strip_fixed; lia).
  rewrite ES in *.
  apply replace_underscore_fixed in Hu. rewrite Hu in *.
  apply rstrip_by_fixed. lia.
Qed.

Lemma normalize_times_fixed (n : nat) (s : string) :
  normalize_version_name s = s -> normalize_times n s = s.
Proof.
  intros H. induction n as [|n IH]; simpl; [reflexivity|]. now rewrite H.
Qed.

Lemma normalize_times_settles (n : nat) (s : string) :
  contains_char "_" s = false -> String.length s <= n ->
  normalize_version_name (normalize_times n s) = normalize_times n s.
Proof.
  revert s. induction n as [|n IH]; intros s Hu Hn.
  - destruct s; [reflexivity|simpl in Hn; lia].
  - cbn [normalize_times].
    destruct (Nat.eq_dec (String.length (normalize_version_name s)) (String.length s))
      as [E|E].
    + apply normalize_same_length in E; [|exact Hu].
      rewrite E, (normalize_times_fixed n s E). exact E.
    + pose proof (normalize_length s). apply IH; [apply normalize_no_underscore|lia].
Qed.

Lemma normalize_times_succ (n : nat) (s : string) :
  normalize_times (S n) s = normalize_version_name (normalize_times n s).
Proof.
  revert s. induction n as [|n IH]; intros s; [reflexivity|].
  cbn [normalize_times] in *. apply IH.
Qed.

(** Normalizing again and again comes to rest: after one round more than
    the string has characters, the result is settled and further rounds
    change nothing. *)
Theorem normalize_times_converges (s : string) (n : nat) :
  String.length s < n ->
  settled (normalize_times n s) = true
  /\ normalize_times (S n) s = normalize_times n s.
Proof.
  intros Hn. destruct n as [|n]; [lia|].
  assert (normalize_version_name (normalize_times (S n) s) = normalize_times (S n) s)
    as H.
  { cbn [normalize_times]. apply normalize_times_settles.
    - apply normalize_no_underscore.
    - pose proof (normalize_length s). lia. }
  split; [now apply normalize_fixed_iff|].
  now rewrite normalize_times_succ.
Qed.

Lemma normalize_times_converges_witness :
  String.length "!#1" < 4
  /\ settled (normalize_times 4 "!#1") = true
  /\ normalize_times 5 "!#1" = normalize_times 4 "!#1".
Proof.
  split; [simpl; lia|].
  exact (normalize_times_converges "!#1" 4 (le_n 4)).
Defined.

(* ================================================================== *)
(** ** versions_should_match, compare_old_versions, compare_new_versions *)

Lemma existsb_ext_in (A : Type) (f g : A -> bool) (l : list A) :
  (forall x, f x = g x) -> existsb f l = existsb g l.
Proof.
  intros H. induction l as [|x t IH]; simpl; [reflexivity|]. now rewrite H, IH.
Qed.

(** The override does not depend on which of the two versions is the local
    one, in either file. *)
Theorem versions_should_match_symmetric (product_id a b : string) :
  (forall MATCH_VERSIONS,
      Main.versions_should_match MATCH_VERSIONS product_id a (Some b)
      = Main.versions_should_match MATCH_VERSIONS product_id b (Some a))
  /\ (forall Match_Versions,
      Checker.versions_should_match Match_Versions product_id a (Some b)
      = Checker.versions_should_match Match_Versions product_id b (Some a)).
Proof.
  split.
  - intros M. unfold Main.versions_should_match.
    destruct (List.length M =? 0)%nat; [reflexivity|].
    destruct (dict_get product_id M) as [[groups|]|]; [|reflexivity|reflexivity].
    f_equal. apply existsb_ext_in. intros [vl|]; [|reflexivity].
    destruct (negb (List.length vl =? 2)%nat); [reflexivity|]. apply andb_comm.
  - intros [M|]; [|reflexivity]. unfold Checker.versions_should_match.
    destruct (List.length M =? 0)%nat; [reflexivity|].
    destruct (dict_get product_id M) as [groups|]; [|reflexivity].
    f_equal. apply existsb_ext_in. intros [x y]. apply andb_comm.
Qed.

Ltac break_result H :=
  repeat (cbv beta iota zeta in H;
          try discriminate H;
          match type of H with
          | context [match ?x with _ => _ end] =>
              lazymatch x with
              | context [match _ with _ => _ end] => fail
              | _ => destruct x eqn:?
              end
          end);
  cbv beta iota zeta in H;
  try discriminate H.

(** A finding read back after [store] or [emit]. *)
Ltac read_back k pid tac :=
  let Hf := fresh "Hf" in
  cbn [emit store new_versions_dict]; intros Hf;
  first
    [ left; exact Hf
    | rewrite dict_get_set in Hf;
      destruct (String.eqb_spec k pid) as [->|_];
      [injection Hf as <-; right; tac|left; exact Hf] ].

Section ReconcilerInvariants.
Variable versions_should_match : string -> string -> option string -> result bool.
Variable download_builds : string -> result (option (list (string * option string))).

(** What [compare_new_versions] leaves in [new_versions_dict]: the
    findings that were there, except that the one of the record's product
    may be new, and then says current gen on both sides. *)
Lemma compare_new_versions_step (l : local_installer)
  (online_info : dict online_entry) (st st' : state) :
  compare_new_versions versions_should_match download_builds l online_info st = Ok st' ->
  forall k f,
    dict_get k (new_versions_dict st') = Some f ->
    dict_get k (new_versions_dict st) = Some f
    \/ (k = product_id l /\ found_product_name f = product_name l
        /\ local_old_version f = false /\ online_old_version f = false).
Proof.
  intros H k f.
  unfold compare_new_versions, get_local_version_from_gog, lookup, bind, read_build,
    call_normalize in H.
  break_result H; injection H as <-;
    read_back k (product_id l) ltac:(repeat split; reflexivity).
Qed.

(** The same for [compare_old_versions], whose findings say old gen for
    the local side. *)
Lemma compare_old_versions_step (l : local_installer)
  (online_info : dict online_entry) (st st' : state) :
  compare_old_versions versions_should_match l online_info st = Ok st' ->
  forall k f,
    dict_get k (new_versions_dict st') = Some f ->
    dict_get k (new_versions_dict st) = Some f
    \/ (k = product_id l /\ found_product_name f = product_name l
        /\ local_old_version f = true).
Proof.
  intros H k f. unfold compare_old_versions, lookup, bind in H.
  break_result H; injection H as <-;
    read_back k (product_id l) ltac:(repeat split; reflexivity).
Qed.

(** Comparing one record leaves the findings of all other products as
    they were. *)
Theorem compare_touches_one_product (l : local_installer)
  (online_info : dict online_entry) (st st' : state) (k : string) :
  compare_new_versions versions_should_match download_builds l online_info st = Ok st'
  \/ compare_old_versions versions_should_match l online_info st = Ok st' ->
  k <> product_id l ->
  dict_get k (new_versions_dict st') = dict_get k (new_versions_dict st).
Proof.
  intros [H|H] Hk.
  - unfold compare_new_versions, get_local_version_from_gog, lookup, bind, read_build,
      call_normalize in H.
    break_result H; injection H as <-; cbn [emit store new_versions_dict];
      try reflexivity; rewrite dict_get_set;
      (destruct (String.eqb_spec k (product_id l)); [contradiction|reflexivity]).
  - unfold compare_old_versions, lookup, bind in H.
    break_result H; injection H as <-; cbn [emit store new_versions_dict];
      try reflexivity; rewrite dict_get_set;
      (destruct (String.eqb_spec k (product_id l)); [contradiction|reflexivity]).
Qed.

(** Against an old-gen catalog entry [compare_old_versions] skips the
    product when the catalog version is not known; otherwise it asks the
    override and raises only when the override does (with its exception);
    otherwise it stores a finding, old gen on both sides, exactly when no
    override applies and the two version strings differ as they are (a
    missing local version counting as "Unknown"). *)
Theorem compare_old_versions_legacy_remote (l : local_installer)
  (online_info : dict online_entry) (st : state) (e : online_entry) :
  dict_get (product_id l) online_info = Some e ->
  remote_old_version e = Some true ->
  let online_version := or_unknown (remote_version_name e) in
  let local_version := or_unknown (version_name l) in
  if String.eqb online_version UNKNOWN
  then compare_old_versions versions_should_match l online_info st
       = Ok (emit (Log INFO (NoRepositoryData (product_id l))) st)
  else
    match versions_should_match (product_id l) local_version (Some online_version) with
    | Raise x => compare_old_versions versions_should_match l online_info st = Raise x
    | Ok should_match =>
        exists st',
          compare_old_versions versions_should_match l online_info st = Ok st'
          /\ (if negb should_match && negb (String.eqb online_version local_version)
              then dict_get (product_id l) (new_versions_dict st')
                   = Some {| found_product_name := product_name l;
                             local_version := local_version;
                             local_build := BuildText (or_unknown (build_id l));
                             local_old_version := true;
                             online_version := Some online_version;
                             online_build :=
                               BuildText (or_unknown (remote_build_id e));
                             online_old_version := true |}
              else new_versions_dict st' = new_versions_dict st)
    end.
Proof.
  intros Hget Hold. cbn zeta. unfold compare_old_versions, lookup.
  rewrite Hget. cbn [bind]. rewrite Hold.
  destruct (String.eqb (or_unknown (remote_version_name e)) UNKNOWN); [reflexivity|].
  destruct (versions_should_match _ _ _) as [[|]|x]; cbn [bind];
    [eexists; split; reflexivity| |reflexivity].
  destruct (String.eqb (or_unknown (remote_version_name e))
                       (or_unknown (version_name l)));
    eexists; (split; [reflexivity|]); cbn [negb andb emit store new_versions_dict];
    [reflexivity|apply dict_get_set_same].
Qed.
End ReconcilerInvariants.

Lemma compare_touches_one_product_witness :
  exists st',
    compare_new_versions (Checker.versions_should_match None) no_builds
      modern_build_100 online_build_105 empty_state = Ok st'
    /\ dict_get "2" (new_versions_dict st') = dict_get "2" (new_versions_dict empty_state).
Proof.
  eexists. split; [reflexivity|].
  apply (compare_touches_one_product (Checker.versions_should_match None) no_builds
           modern_build_100 online_build_105 empty_state _ "2");
    [left; reflexivity|discriminate].
Defined.

Lemma compare_old_versions_legacy_remote_witness :
  exists st',
    compare_old_versions (Checker.versions_should_match None) legacy_3_0
      online_legacy_3_1 empty_state = Ok st'
    /\ dict_get "1207658691" (new_versions_dict st')
       = Some {| found_product_name := Some "Game";
                 local_version := "3.0";
                 local_build := BuildText "Unknown";
                 local_old_version := true;
                 online_version := Some "3.1";
                 online_build := BuildText "77";
                 online_old_version := true |}.
Proof.
  exact (compare_old_versions_legacy_remote (Checker.versions_should_match None)
           legacy_3_0 online_legacy_3_1 empty_state
           {| remote_version_name := Some "3.1"; remote_build_id := Some "77";
              remote_old_version := Some true |} eq_refl eq_refl).
Defined.

(** In [main.py], a number where the lists of the product should be makes
    the same comparison end in [TypeError]. *)
Example compare_old_versions_override_not_iterable :
  compare_old_versions (Main.versions_should_match override_not_iterable)
    legacy_3_0 online_legacy_3_1 empty_state = Raise TypeError.
Proof. reflexivity. Qed.

(* ================================================================== *)
(** ** sort_local_info: the order of the result *)

Lemma NoDup_map_other (A B : Type) (f : A -> B) (g : A -> string) (l : list A) :
  NoDup (map f l) ->
  (forall x y, In x l -> In y l -> g x = g y -> f x = f y) ->
  NoDup (map g l).
Proof.
  induction l as [|x t IH]; simpl; intros Hnd Hinj; [constructor|].
  inversion Hnd as [|? ? Hx Hnd']; subst. constructor.
  - intros Hin. apply in_map_iff in Hin as (y & Hy & Hin). apply Hx.
    apply in_map_iff. exists y. split; [|exact Hin]. apply Hinj; auto.
  - apply IH; [exact Hnd'|]. intros y z Hy Hz. apply Hinj; auto.
Qed.

(** Unless an installer without a product name stands beside one with a
    name (then it raises, see above), [sort_local_info] returns, and the
    records come out in strictly ascending order of product name, each
    under its own installer path. *)
Theorem sort_local_info_ordered (local_info : dict local_installer) :
  ~ mixed_names local_info ->
  exists res,
    sort_local_info local_info = Ok res
    /\ StronglySorted le_name (map (fun kv => product_name (snd kv)) res)
    /\ NoDup (map (fun kv => product_name (snd kv)) res)
    /\ forall p r, In (p, r) res -> dict_get p local_info = Some r.
Proof.
  intros Hmix. destruct (sort_local_info local_info) as [res|x] eqn:E.
  - exists res. split; [reflexivity|]. now apply sort_local_info_shape.
  - exfalso. apply Hmix. exact (proj2 (sort_local_info_spec local_info) x E).
Qed.

Lemma sort_local_info_ordered_witness :
  ~ mixed_names two_alphas
  /\ exists res,
       sort_local_info two_alphas = Ok res
       /\ StronglySorted le_name (map (fun kv => product_name (snd kv)) res)
       /\ NoDup (map (fun kv => product_name (snd kv)) res)
       /\ forall p r, In (p, r) res -> dict_get p two_alphas = Some r.
Proof.
  assert (~ mixed_names two_alphas) as H.
  { intros [(p & r & Hg & Hn) _]. unfold two_alphas in Hg. cbn [dict_get] in Hg.
    destruct (String.eqb p "b.exe"); [injection Hg as <-; discriminate|].
    destruct (String.eqb p "c.exe"); [injection Hg as <-; discriminate|].
    destruct (String.eqb p "a.exe"); [injection Hg as <-; discriminate|].
    discriminate. }
  split; [exact H|]. exact (sort_local_info_ordered two_alphas H).
Defined.

(* ================================================================== *)
(** ** compare_versions: what the findings say *)

Section CompareVersionsFacts.
Variable versions_should_match : string -> string -> option string -> result bool.
Variable download_builds : string -> result (option (list (string * option string))).

Lemma compare_versions_fold_raise (online_info : dict online_entry)
  (l : list (string * local_installer)) (e : exn) :
  fold_left
    (fun (acc : result state) (kv : string * local_installer) =>
       st <- acc ;;
       if old_version (snd kv)
       then compare_old_versions versions_should_match (snd kv) online_info st
       else compare_new_versions versions_should_match download_builds (snd kv)
              online_info st)
    l (Raise e) = Raise e.
Proof. induction l as [|kv t IH]; simpl; [reflexivity|exact IH]. Qed.

(** Every finding of [compare_versions] belongs to a local installer with
    that product id: it carries the installer's product name, and its
    [local_old_version] is the installer's [old_version]. *)
Theorem compare_versions_findings (local_info : dict local_installer)
  (online_info : dict online_entry) (st : state) (k : string) (f : finding) :
  compare_versions versions_should_match download_builds local_info online_info = Ok st ->
  dict_get k (new_versions_dict st) = Some f ->
  exists path l,
    dict_get path local_info = Some l
    /\ product_id l = k
    /\ found_product_name f = product_name l
    /\ local_old_version f = old_version l.
Proof.
  unfold compare_versions.
  destruct (sort_local_info local_info) as [l|x] eqn:Es; [|discriminate].
  cbn [bind]. pose proof (sort_local_info_In local_info l) as Hin.
  specialize (fun p r => Hin p r Es). clear Es.
  set (Q := fun (k : string) (f : finding) =>
              exists path r, dict_get path local_info = Some r /\ product_id r = k
                             /\ found_product_name f = product_name r
                             /\ local_old_version f = old_version r).
  assert (forall st0,
            (forall k f, dict_get k (new_versions_dict st0) = Some f -> Q k f) ->
            fold_left
              (fun (acc : result state) (kv : string * local_installer) =>
                 st <- acc ;;
                 if old_version (snd kv)
                 then compare_old_versions versions_should_match (snd kv) online_info st
                 else compare_new_versions versions_should_match download_builds
                        (snd kv) online_info st)
              l (Ok st0) = Ok st ->
            forall k f, dict_get k (new_versions_dict st) = Some f -> Q k f) as Hfold.
  { induction l as [|[p r] t IH]; intros st0 H0 Hf.
    - simpl in Hf. injection Hf as <-. exact H0.
    - cbn [fold_left bind snd] in Hf.
      destruct (old_version r) eqn:Eold.
      + destruct (compare_old_versions versions_should_match r online_info st0)
          as [st1|e] eqn:E1; [|rewrite compare_versions_fold_raise in Hf; discriminate].
        apply (IH (fun p' r' H' => Hin p' r' (or_intror H')) st1); [|exact Hf].
        intros k' f' G'.
        destruct (compare_old_versions_step _ _ _ _ _ E1 k' f' G')
          as [G0|(-> & Hn & Ho)]; [now apply H0|].
        exists p, r. repeat split; [apply Hin; now left|exact Hn|congruence].
      + destruct (compare_new_versions versions_should_match download_builds r
                    online_info st0)
          as [st1|e] eqn:E1; [|rewrite compare_versions_fold_raise in Hf; discriminate].
        apply (IH (fun p' r' H' => Hin p' r' (or_intror H')) st1); [|exact Hf].
        intros k' f' G'.
        destruct (compare_new_versions_step _ _ _ _ _ _ E1 k' f' G')
          as [G0|(-> & Hn & Ho & _)]; [now apply H0|].
        exists p, r. repeat split; [apply Hin; now left|exact Hn|congruence]. }
  intros Hf G. refine (Hfold _ _ Hf k f G).
  intros k' f' H'. simpl in H'. discriminate H'.
Qed.
End CompareVersionsFacts.

Lemma compare_versions_findings_witness :
  exists st f,
    compare_versions (Checker.versions_should_match None) no_builds
      one_installer online_build_105 = Ok st
    /\ dict_get "1207658691" (new_versions_dict st) = Some f
    /\ exists path l,
         dict_get path one_installer = Some l
         /\ product_id l = "1207658691"
         /\ found_product_name f = product_name l
         /\ local_old_version f = old_version l.
Proof.
  eexists. eexists. split; [reflexivity|]. split; [reflexivity|].
  eapply (compare_versions_findings (Checker.versions_should_match None) no_builds
            one_installer online_build_105); reflexivity.
Defined.

(* ================================================================== *)
(** ** Evaluation of the filename and ProductVersion patterns *)

Example old_version_ex :
  get_old_version_from_filename "setup_fallout_2_1.02.EXE" = Some "1.02"
  /\ get_old_version_from_filename "setup_game_1.2_(64bit)_(12345).exe" = None
  /\ get_old_version_from_filename "setup_game_2.exe" = None
  /\ old_installer "dir_1.0.exe/setup_game_(12345).exe" = true.
Proof. vm_compute. repeat split. Qed.

Example exe_version_ex :
  build_id_scan false false "1.2.3.[12345]" = Some "12345"
  /\ version_name_scan false "" "1.2.3.[12345]" = Some "1.2.3"
  /\ version_name_scan false "" "1.2.3" = None
  /\ version_name_scan false "" "1.2.3." = Some "1.2.3"
  /\ build_id_scan false false ".[1]" = None.
Proof. vm_compute. repeat split. Qed.

Example product_url_ex :
  product_url_search false "https://api.gog.com/v2/games/1207658691?locale=en-US"
  = Some "1207658691"
  /\ product_url_search false "HTTPS://api.gog.com/v2/games/1207658691?locale=en-US"
     = None
  /\ product_url_search true "HTTPS://api.gog.com/v2/games/1207658691?locale=en-US"
     = Some "1207658691".
Proof. vm_compute. repeat split. Qed.

(* ================================================================== *)
(** ** The old-gen version suffix *)

Lemma append_assoc (a b c : string) : (a ++ b) ++ c = a ++ (b ++ c).
Proof. induction a as [|x a IH]; simpl; [reflexivity|now rewrite IH]. Qed.

Lemma append_nil_r (a : string) : a ++ "" = a.
Proof. induction a as [|x a IH]; simpl; [reflexivity|now rewrite IH]. Qed.

Lemma dotted_prefix_app (s v r : string) : dotted_prefix s = (v, r) -> s = v ++ r.
Proof.
  revert v r. induction s as [|c t IH]; intros v r; simpl.
  - now intros [= <- <-].
  - destruct (is_digit c || (Ascii.eqb c "." && starts_with_digit t)).
    + destruct (dotted_prefix t) as [v' r']. intros [= <- <-]. simpl. f_equal.
      now apply IH.
    + now intros [= <- <-].
Qed.

Lemma dotted_prefix_head (s : string) :
  starts_with_digit s = true -> starts_with_digit (fst (dotted_prefix s)) = true.
Proof.
  destruct s as [|c t]; simpl; [discriminate|]. intros H. rewrite H. simpl.
  destruct (dotted_prefix t). exact H.
Qed.

Lemma dotted_prefix_shape (s : string) :
  digits_and_periods (fst (dotted_prefix s)) = true.
Proof.
  induction s as [|c t IH]; simpl; [reflexivity|].
  destruct (is_digit c) eqn:Ed; simpl.
  - destruct (dotted_prefix t) as [v r] eqn:E. simpl in *. now rewrite Ed, IH.
  - destruct (Ascii.eqb c "." && starts_with_digit t) eqn:Ep; [|reflexivity].
    apply andb_prop in Ep as [Ec Et].
    pose proof (dotted_prefix_head t Et) as Hh.
    destruct (dotted_prefix t) as [v r] eqn:E. simpl in *.
    now rewrite Ed, Ec, Hh, IH.
Qed.

Lemma old_version_here_spec (ignorecase : bool) (t v : string) :
  old_version_here ignorecase t = Some v ->
  dotted_version v = true
  /\ exists b, t = v ++ b /\ literal_prefix ignorecase ".exe" b = true.
Proof.
  unfold old_version_here, dotted_version.
  destruct (starts_with_digit t) eqn:Ht; [|discriminate].
  pose proof (dotted_prefix_head t Ht) as Hh.
  pose proof (dotted_prefix_shape t) as Hs.
  destruct (dotted_prefix t) as [v' r] eqn:E. simpl in *.
  destruct (contains_char "." v' && literal_prefix ignorecase ".exe" r) eqn:C;
    [|discriminate].
  intros [= <-]. apply andb_prop in C as [C1 C2]. rewrite Hh, C1, Hs.
  split; [reflexivity|]. exists r. split; [now apply dotted_prefix_app|exact C2].
Qed.

Lemma old_version_search_dotted (ignorecase : bool) (s v : string) :
  old_version_search ignorecase s = Some v -> dotted_version v = true.
Proof.
  induction s as [|c t IH]; simpl; [discriminate|].
  destruct (Ascii.eqb c "_"); [|exact IH].
  destruct (old_version_here ignorecase t) as [v'|] eqn:E; [|exact IH].
  intros [= ->]. now destruct (old_version_here_spec _ _ _ E).
Qed.

(** A version taken from a file name is a dotted number (digits and
    periods, a digit first and after every period, at least one period),
    and the name has it between an underscore and ".exe". *)
Theorem old_version_search_found (ignorecase : bool) (s v : string) :
  old_version_search ignorecase s = Some v ->
  dotted_version v = true
  /\ exists a b, s = a ++ String "_" (v ++ b)
                 /\ literal_prefix ignorecase ".exe" b = true.
Proof.
  induction s as [|c t IH]; simpl; [discriminate|].
  assert (old_version_search ignorecase t = Some v ->
          dotted_version v = true
          /\ exists a b, String c t = a ++ String "_" (v ++ b)
                         /\ literal_prefix ignorecase ".exe" b = true) as Hrec.
  { intros H. destruct (IH H) as (Hv & a & b & -> & Hb). split; [exact Hv|].
    exists (String c a), b. split; [reflexivity|exact Hb]. }
  destruct (Ascii.eqb c "_") eqn:Ec; [|exact Hrec].
  destruct (old_version_here ignorecase t) as [v'|] eqn:E; [|exact Hrec].
  intros [= ->]. apply Ascii.eqb_eq in Ec. subst c.
  destruct (old_version_here_spec _ _ _ E) as (Hv & b & -> & Hb).
  split; [exact Hv|]. exists "", b. split; [reflexivity|exact Hb].
Qed.

Lemma old_version_search_found_witness :
  get_old_version_from_filename "setup_fallout_2_1.02.EXE" = Some "1.02"
  /\ dotted_version "1.02" = true
  /\ exists a b, "setup_fallout_2_1.02.EXE" = a ++ String "_" ("1.02" ++ b)
                 /\ literal_prefix true ".exe" b = true.
Proof.
  split; [reflexivity|].
  exact (old_version_search_found true "setup_fallout_2_1.02.EXE" "1.02" eq_refl).
Defined.













(* ================================================================== *)
(** ** Build id and version name of the executable *)


Lemma span_digits_spec (s d r : string) :
  span_digits s = (d, r) ->
  s = d ++ r /\ digits_only d = true /\ starts_with_digit r = false.
Proof.
  revert d r. induction s as [|c t IH]; intros d r; cbn [span_digits].
  - intros [= <- <-]. auto.
  - destruct (is_digit c) eqn:Ed.
    + destruct (span_digits t) as [d' r']. intros [= <- <-].
      destruct (IH d' r' eq_refl) as (-> & H1 & H2).
      cbn [append digits_only]. rewrite Ed. auto.
    + intros [= <- <-]. cbn [append digits_only starts_with_digit]. auto.
Qed.

Lemma span_digits_app (d r : string) :
  digits_only d = true -> starts_with_digit r = false -> span_digits (d ++ r) = (d, r).
Proof.
  intros Hd Hr. induction d as [|c t IH]; simpl.
  - destruct r as [|x r]; [reflexivity|]. cbn [starts_with_digit] in Hr.
    cbn [append span_digits]. now rewrite Hr.
  - cbn [digits_only] in Hd. apply andb_prop in Hd as [Hc Ht].
    cbn [append span_digits]. now rewrite Hc, (IH Ht).
Qed.


Lemma bracket_build_digits (t d : string) :
  bracket_build t = Some d -> digits_only d = true /\ d <> "".
Proof.
  unfold bracket_build. destruct t as [|c u]; [discriminate|].
  destruct (Ascii.eqb c "["); [|discriminate].
  destruct (span_digits u) as [d' r] eqn:E.
  destruct (negb (String.eqb d' "") && starts_with "]" r) eqn:C; [|discriminate].
  intros [= <-]. apply andb_prop in C as [C _]. apply negb_true_iff in C.
  apply String.eqb_neq in C. apply span_digits_spec in E as (_ & H & _). auto.
Qed.

Lemma build_id_scan_digits (first_line_only prev_ok : bool) (s d : string) :
  build_id_scan first_line_only prev_ok s = Some d ->
  digits_only d = true /\ d <> "".
Proof.
  revert prev_ok. induction s as [|c t IH]; intros prev_ok; simpl; [discriminate|].
  destruct (if prev_ok && Ascii.eqb c "." then bracket_build t else None) as [d'|] eqn:E.
  - intros [= <-]. destruct (prev_ok && Ascii.eqb c "."); [|discriminate].
    now apply bracket_build_digits in E.
  - destruct (Ascii.eqb c newline); [destruct first_line_only; [discriminate|]|];
      apply IH.
Qed.

Lemma digit_not_int_space (c : ascii) : is_digit c = true -> int_space c = false.
Proof.
  unfold is_digit, int_space, between. intros H.
  apply andb_prop in H as [H1 H2]. apply N.leb_le in H1, H2.
  repeat (apply orb_false_intro);
    [apply andb_false_intro2, N.leb_gt; lia| | |]; apply N.eqb_neq; lia.
Qed.

Lemma digits_only_lstrip (d : string) :
  digits_only d = true -> lstrip_by int_space d = d.
Proof.
  destruct d as [|c t]; cbn [digits_only lstrip_by]; [reflexivity|]. intros H.
  apply andb_prop in H as [Hc _]. now rewrite (digit_not_int_space c Hc).
Qed.

Lemma digits_only_rstrip (d : string) :
  digits_only d = true -> rstrip_by int_space d = d.
Proof.
  induction d as [|c t IH]; cbn [digits_only rstrip_by]; [reflexivity|]. intros H.
  apply andb_prop in H as [Hc Ht]. rewrite (IH Ht).
  destruct t; [now rewrite (digit_not_int_space c Hc)|reflexivity].
Qed.

Lemma digits_value_digits (d : string) (acc : Z) (sep : bool) :
  digits_only d = true -> d <> "" \/ sep = false ->
  exists z, digits_value acc sep d = Some z.
Proof.
  revert acc sep. induction d as [|c t IH]; intros acc sep Hd Hne; cbn [digits_value].
  - destruct Hne as [H| ->]; [contradiction|]. now exists acc.
  - cbn [digits_only] in Hd. apply andb_prop in Hd as [Hc Ht]. rewrite Hc.
    apply IH; auto.
Qed.

Lemma count_digits_only (d : string) :
  digits_only d = true -> count_digits d = N.of_nat (String.length d).
Proof.
  induction d as [|c t IH]; [reflexivity|]. cbn [digits_only count_digits String.length].
  intros H. apply andb_prop in H as [Hc Ht]. rewrite Hc, (IH Ht). lia.
Qed.

Lemma py_int_digits (d : string) :
  digits_only d = true -> d <> "" ->
  ((N.of_nat (String.length d) <= 4300)%N -> exists z, py_int d = Some z)
  /\ ((4300 < N.of_nat (String.length d))%N -> py_int d = None).
Proof.
  intros Hd Hne. unfold py_int.
  rewrite (digits_only_lstrip d Hd), (digits_only_rstrip d Hd).
  destruct d as [|c t]; [contradiction|].
  rewrite (count_digits_only _ Hd).
  assert (is_digit c = true) as Hc
      by (cbn [digits_only] in Hd; now apply andb_prop in Hd).
  assert (Ascii.eqb c "-" = false) as ->
      by (apply Ascii.eqb_neq; intros ->; discriminate).
  assert (Ascii.eqb c "+" = false) as ->
      by (apply Ascii.eqb_neq; intros ->; discriminate).
  split; intros HL.
  - apply N.ltb_ge in HL. rewrite HL. apply digits_value_digits; auto.
  - apply N.ltb_lt in HL. now rewrite HL.
Qed.

(** A build id taken from the executable's ProductVersion is a run of
    digits: [int] accepts it when it has at most 4300 digits, and raises
    [ValueError] when it has more. *)
Theorem exe_build_id_is_int (first_line_only : bool) (product_version d : string) :
  build_id_scan first_line_only false product_version = Some d ->
  ((N.of_nat (String.length d) <= 4300)%N ->
   exists z, read_build (Some d) = Ok (BuildNum z))
  /\ ((4300 < N.of_nat (String.length d))%N ->
      read_build (Some d) = Raise ValueError).
Proof.
  intros H. apply build_id_scan_digits in H as [Hd Hne].
  destruct (py_int_digits d Hd Hne) as [H1 H2]. split; intros HL.
  - destruct (H1 HL) as [z Hz]. exists z. unfold read_build. now rewrite Hz.
  - unfold read_build. now rewrite (H2 HL).
Qed.

Lemma exe_build_id_is_int_witness :
  build_id_scan false false "1.2.3.[12345]" = Some "12345"
  /\ exists z, read_build (Some "12345") = Ok (BuildNum z).
Proof.
  split; [reflexivity|].
  apply (proj1 (exe_build_id_is_int false "1.2.3.[12345]" "12345" eq_refl)).
  vm_compute. discriminate.
Defined.











Lemma build_id_scan_one_line (prev_ok : bool) (s : string) :
  contains_char newline s = false ->
  build_id_scan true prev_ok s = build_id_scan false prev_ok s.
Proof.
  revert prev_ok. induction s as [|c s IH]; intros prev_ok H; [reflexivity|].
  cbn [contains_char] in H. apply orb_false_elim in H as [Hc Hs].
  cbn [build_id_scan]. rewrite Hc.
  destruct (if prev_ok && Ascii.eqb c "." then bracket_build s else None);
    [reflexivity|now apply IH].
Qed.

Lemma version_name_scan_one_line (line s : string) :
  contains_char newline s = false ->
  version_name_scan true line s = version_name_scan false line s.
Proof.
  revert line. induction s as [|c s IH]; intros line H; [reflexivity|].
  cbn [contains_char] in H. apply orb_false_elim in H as [Hc Hs].
  cbn [version_name_scan]. rewrite Hc.
  destruct (negb (String.eqb line "") && Ascii.eqb c "." && version_tail s);
    [reflexivity|now apply IH].
Qed.

(** On an executable whose ProductVersion has no line break the two files
    read the same build id and the same version name. *)
Theorem get_local_info_from_exe_agree (exe : exe_info) (product_version : string)
  (old_installer : bool) :
  ProductVersion exe = Some product_version ->
  contains_char newline product_version = false ->
  MainRecords.get_local_info_from_exe exe old_installer
  = Ok (CheckerRecords.get_local_info_from_exe exe old_installer).
Proof.
  intros Hp Hn.
  unfold MainRecords.get_local_info_from_exe, CheckerRecords.get_local_info_from_exe.
  rewrite Hp. rewrite (build_id_scan_one_line false _ Hn).
  now rewrite (version_name_scan_one_line "" _ Hn).
Qed.

Lemma get_local_info_from_exe_agree_witness :
  MainRecords.get_local_info_from_exe
    {| ProductName := Some "Game"; ProductVersion := Some "1.2.3.[12345]" |} false
  = Ok (CheckerRecords.get_local_info_from_exe
          {| ProductName := Some "Game"; ProductVersion := Some "1.2.3.[12345]" |}
          false).
Proof.
  exact (get_local_info_from_exe_agree
           {| ProductName := Some "Game"; ProductVersion := Some "1.2.3.[12345]" |}
           "1.2.3.[12345]" false eq_refl eq_refl).
Defined.

(** With a line break before the version they differ: [main.py] finds
    nothing, the other file reads the second line. *)
Example get_local_info_from_exe_second_line :
  let exe := {| ProductName := None;
                ProductVersion := Some (String newline "1.2.[3]") |} in
  MainRecords.get_local_info_from_exe exe false
  = Ok {| exe_build_id := None; exe_product_name := None;
          exe_old_version := false; exe_version_name := None |}
  /\ CheckerRecords.get_local_info_from_exe exe false
     = {| exe_build_id := Some "3"; exe_product_name := None;
          exe_old_version := false; exe_version_name := Some "1.2" |}.
Proof. vm_compute. split; reflexivity. Qed.

(* ================================================================== *)
(** ** The remote catalog *)

Lemma url_prefix_whole (ignorecase : bool) (r : string) :
  url_prefix ignorecase "https://api.gog.com/v2/games/"
             ("https://api.gog.com/v2/games/" ++ r) = Some r.
Proof. destruct ignorecase; reflexivity. Qed.

Lemma literal_prefix_whole (ignorecase : bool) (p : string) :
  literal_prefix ignorecase p p = true.
Proof.
  destruct ignorecase; cbn [literal_prefix].
  - induction p as [|c p IH]; [reflexivity|]. cbn [ci_prefix]. unfold ci_eqb.
    now rewrite Ascii.eqb_refl, IH.
  - induction p as [|c p IH]; [reflexivity|]. cbn [prefix].
    destruct (ascii_dec c c); [exact IH|contradiction].
Qed.

Lemma product_url_search_whole (ignorecase : bool) (id : string) :
  digits_only id = true -> id <> "" ->
  product_url_search ignorecase
    ("https://api.gog.com/v2/games/" ++ id ++ "?locale=en-US") = Some id.
Proof.
  intros Hd Hne.
  assert (product_url_here ignorecase
            ("https://api.gog.com/v2/games/" ++ id ++ "?locale=en-US") = Some id) as H.
  { unfold product_url_here. rewrite url_prefix_whole.
    rewrite (span_digits_app id "?locale=en-US" Hd eq_refl).
    apply String.eqb_neq in Hne. now rewrite Hne, literal_prefix_whole. }
  destruct ("https://api.gog.com/v2/games/" ++ id ++ "?locale=en-US") eqn:E;
    cbn [product_url_search]; now rewrite H.
Qed.

Section OnlineFacts.
Variable ignorecase : bool.
Variable download_builds_json : string -> result (option builds_response).
Variable download_game : string -> result (option game_response).
Variable download_repository : string -> string -> result (option repository).

(** A pack whose first included game has the link of a product is
    resolved to that product, whatever white space surrounds the link. *)
Theorem get_product_id_from_pack_follows_link (product_id href id : string)
  (gog_dict : game_response) (more : list (option string)) :
  download_game product_id = Ok (Some gog_dict) ->
  productType gog_dict = Some "PACK" ->
  links gog_dict = IncludesGames (Some href :: more) ->
  strip href = "https://api.gog.com/v2/games/" ++ id ++ "?locale=en-US" ->
  digits_only id = true -> id <> "" ->
  get_product_id_from_pack ignorecase download_game product_id = Ok (Some id).
Proof.
  intros Hg Ht Hl Hs Hd Hne. unfold get_product_id_from_pack.
  rewrite Hg. cbn [bind]. rewrite Ht, Hl, Hs.
  cbn [String.eqb Ascii.eqb Bool.eqb negb andb].
  now rewrite product_url_search_whole.
Qed.

Lemma get_last_version_old_installer_dotted (last_legacy_build_id product_id v : string) :
  get_last_version_old_installer ignorecase download_repository last_legacy_build_id
    product_id = Ok (Some v) ->
  dotted_version v = true.
Proof.
  unfold get_last_version_old_installer, bind. intros H. break_result H.
  injection H as H. now apply old_version_search_dotted in H.
Qed.

Lemma load_online_data_writes (product_id : string)
  (online_info online_info' : dict online_entry) :
  load_online_data ignorecase download_builds_json download_game download_repository
    product_id online_info = Ok online_info' ->
  exists entry,
    online_info' = dict_set product_id entry online_info
    /\ (remote_old_version entry = None -> entry = not_found_online)
    /\ (remote_old_version entry = Some true ->
        (exists b, remote_build_id entry = Some b)
        /\ forall v, remote_version_name entry = Some v -> dotted_version v = true).
Proof.
  unfold load_online_data, get_product_id_from_pack, bind. intros H. break_result H;
    injection H as <-; eexists; (split; [reflexivity|]);
    cbn [remote_old_version remote_build_id remote_version_name not_found_online];
    (split; [intros; try discriminate; reflexivity|]);
    intros Ho; try discriminate Ho;
    (split; [eexists; reflexivity|]);
    intros v ->; eapply get_last_version_old_installer_dotted; eassumption.
Qed.

(** [load_online_data] that returns has recorded the product and has left
    the entries of all other products as they were.  The entry says not
    found with all three fields empty, or current gen, or old gen with a
    build id and a version that, if there is one, is a dotted number. *)
Theorem load_online_data_entry (product_id : string)
  (online_info online_info' : dict online_entry) :
  load_online_data ignorecase download_builds_json download_game download_repository
    product_id online_info = Ok online_info' ->
  (exists entry,
     dict_get product_id online_info' = Some entry
     /\ (remote_old_version entry = None -> entry = not_found_online)
     /\ (remote_old_version entry = Some true ->
         (exists b, remote_build_id entry = Some b)
         /\ forall v, remote_version_name entry = Some v ->
                      dotted_version v = true))
  /\ forall k, k <> product_id -> dict_get k online_info' = dict_get k online_info.
Proof.
  intros H. apply load_online_data_writes in H as (entry & -> & H1 & H2). split.
  - exists entry. rewrite dict_get_set_same. auto.
  - intros k Hk. rewrite dict_get_set. apply String.eqb_neq in Hk. now rewrite Hk.
Qed.

Lemma get_online_data_fold_raise (l : list (string * local_installer)) (e : exn) :
  fold_left
    (fun (acc : result (dict online_entry)) (kv : string * local_installer) =>
       online_info <- acc ;;
       load_online_data ignorecase download_builds_json download_game
         download_repository (product_id (snd kv)) online_info)
    l (Raise e) = Raise e.
Proof. induction l as [|kv t IH]; simpl; [reflexivity|exact IH]. Qed.

Lemma get_online_data_fold (l : list (string * local_installer))
  (acc online_info : dict online_entry) :
  fold_left
    (fun (acc : result (dict online_entry)) (kv : string * local_installer) =>
       online_info <- acc ;;
       load_online_data ignorecase download_builds_json download_game
         download_repository (product_id (snd kv)) online_info)
    l (Ok acc) = Ok online_info ->
  (forall k e, dict_get k acc = Some e -> exists e', dict_get k online_info = Some e')
  /\ (forall kv, In kv l ->
        exists e, dict_get (product_id (snd kv)) online_info = Some e)
  /\ (forall k e, dict_get k online_info = Some e ->
        dict_get k acc = Some e
        \/ ((exists kv, In kv l /\ product_id (snd kv) = k)
            /\ (remote_old_version e = None -> e = not_found_online)
            /\ (remote_old_version e = Some true ->
                (exists b, remote_build_id e = Some b)
                /\ forall v, remote_version_name e = Some v ->
                             dotted_version v = true))).
Proof.
  revert acc. induction l as [|kv t IH]; intros acc H.
  - simpl in H. injection H as <-. split; [eauto|]. split; [intros kv []|auto].
  - cbn [fold_left bind] in H.
    destruct (load_online_data ignorecase download_builds_json download_game
                download_repository (product_id (snd kv)) acc) as [acc1|x] eqn:E;
      [|rewrite get_online_data_fold_raise in H; discriminate].
    apply load_online_data_writes in E as (entry & -> & P1 & P2).
    destruct (IH _ H) as (I1 & I2 & I3). split; [|split].
    + intros k e G. destruct (String.eqb k (product_id (snd kv))) eqn:Ek.
      * apply (I1 k entry). now rewrite dict_get_set, Ek.
      * apply (I1 k e). now rewrite dict_get_set, Ek.
    + intros kv' [<-|Hin]; [|now apply I2].
      apply (I1 _ entry). apply dict_get_set_same.
    + intros k e G. destruct (I3 k e G) as [G'|((kv' & Hin & Hk) & Q)].
      * rewrite dict_get_set in G'.
        destruct (String.eqb_spec k (product_id (snd kv))) as [->|_]; [|now left].
        injection G' as <-. right. split; [|auto].
        exists kv. split; [now left|reflexivity].
      * right. split; [|exact Q]. exists kv'. split; [now right|exact Hk].
Qed.

Lemma get_online_data_covers (local_info : dict local_installer)
  (online_info : dict online_entry) (path : string) (l : local_installer) :
  get_online_data ignorecase download_builds_json download_game download_repository
    local_info = Ok online_info ->
  dict_get path local_info = Some l ->
  exists e, dict_get (product_id l) online_info = Some e.
Proof.
  unfold get_online_data. intros H G.
  apply get_online_data_fold in H as (_ & H & _).
  apply (H (path, l)). apply In_items_at. split; [|exact G].
  apply sorted_In. now apply dict_get_keys in G.
Qed.

(** The result of [get_online_data] has an entry for the product of every
    local installer and for nothing else, and each entry says not found
    with all three fields empty, or current gen, or old gen with a build
    id and a version that, if there is one, is a dotted number. *)
Theorem get_online_data_entries (local_info : dict local_installer)
  (online_info : dict online_entry) :
  get_online_data ignorecase download_builds_json download_game download_repository
    local_info = Ok online_info ->
  (forall path l, dict_get path local_info = Some l ->
     exists e, dict_get (product_id l) online_info = Some e)
  /\ (forall k e, dict_get k online_info = Some e ->
        (exists path l, dict_get path local_info = Some l /\ product_id l = k)
        /\ (remote_old_version e = None -> e = not_found_online)
        /\ (remote_old_version e = Some true ->
            (exists b, remote_build_id e = Some b)
            /\ forall v, remote_version_name e = Some v ->
                         dotted_version v = true)).
Proof.
  intros H. split.
  - intros path l. now apply get_online_data_covers.
  - unfold get_online_data in H. apply get_online_data_fold in H as (_ & _ & H).
    intros k e G. destruct (H k e G) as [G'|(([p l] & Hin & Hk) & Q)];
      [discriminate|].
    split; [|exact Q]. exists p, l. apply In_items_at in Hin as [_ Hin]. auto.
Qed.

Section Composition.
Variable versions_should_match : string -> string -> option string -> result bool.
Variable download_builds : string -> result (option (list (string * option string))).
(** The override and the request for the builds raise no [KeyError] of
    their own. *)
Hypothesis override_no_key_error :
  forall p l o, versions_should_match p l o <> Raise KeyError.
Hypothesis request_no_key_error :
  forall p, download_builds p <> Raise KeyError.

Lemma compare_new_versions_no_key_error (l : local_installer)
  (online_info : dict online_entry) (st : state) (e : online_entry) :
  dict_get (product_id l) online_info = Some e ->
  compare_new_versions versions_should_match download_builds l online_info st
  <> Raise KeyError.
Proof.
  intros G H.
  unfold compare_new_versions, get_local_version_from_gog, lookup, bind, read_build,
    call_normalize in H.
  cbv beta zeta in H. rewrite G in H. break_result H; injection H as ->;
    first [eapply override_no_key_error; eassumption
          |eapply request_no_key_error; eassumption].
Qed.

Lemma compare_old_versions_no_key_error (l : local_installer)
  (online_info : dict online_entry) (st : state) (e : online_entry) :
  dict_get (product_id l) online_info = Some e ->
  compare_old_versions versions_should_match l online_info st <> Raise KeyError.
Proof.
  intros G H. unfold compare_old_versions, lookup, bind in H.
  cbv beta zeta in H. rewrite G in H. break_result H; injection H as ->.
  eapply override_no_key_error; eassumption.
Qed.

(** After [get_online_data] has returned, [compare_versions] finds the
    entry of every installer it visits: it does not end in [KeyError]
    (the override and the request for the builds raising none of their
    own). *)
Theorem compare_versions_after_get_online_data (local_info : dict local_installer)
  (online_info : dict online_entry) :
  get_online_data ignorecase download_builds_json download_game download_repository
    local_info = Ok online_info ->
  compare_versions versions_should_match download_builds local_info online_info
  <> Raise KeyError.
Proof.
  intros H. unfold compare_versions.
  destruct (sort_local_info local_info) as [l|x] eqn:Es; cbn [bind].
  - assert (forall p r, In (p, r) l ->
              exists e, dict_get (product_id r) online_info = Some e) as Hin.
    { intros p r Hin. apply (sort_local_info_In _ _ _ _ Es) in Hin.
      exact (get_online_data_covers _ _ _ _ H Hin). }
    clear Es.
    assert (Ok {| new_versions_dict := []; events := [Print ""] |}
            <> Raise KeyError) as Hacc by discriminate.
    revert Hacc.
    generalize (Ok {| new_versions_dict := []; events := [Print ""] |}) as acc.
    intros acc Hacc. revert acc Hacc.
    induction l as [|[p r] t IH]; intros acc Hacc.
    + exact Hacc.
    + cbn [fold_left]. apply IH.
      * intros p' r' H'. apply (Hin p' r'). now right.
      * destruct acc as [st|x]; cbn [bind snd]; [|exact Hacc].
        destruct (Hin p r (or_introl eq_refl)) as [e G].
        destruct (old_version r).
        -- now apply compare_old_versions_no_key_error with (e := e).
        -- now apply compare_new_versions_no_key_error with (e := e).
  - intros [= ->].
    pose proof (proj2 (sort_local_info_spec local_info) _ Es) as Hmixed.
    pose proof (proj1 (sort_local_info_spec local_info) Hmixed) as E'.
    rewrite Es in E'. discriminate E'.
Qed.
End Composition.
End OnlineFacts.

Lemma get_product_id_from_pack_follows_link_witness :
  get_product_id_from_pack false pack_of_one "1" = Ok (Some "1207658691").
Proof.
  apply (get_product_id_from_pack_follows_link false pack_of_one "1"
           " https://api.gog.com/v2/games/1207658691?locale=en-US " "1207658691"
           {| productType := Some "PACK";
              links := IncludesGames
                [Some " https://api.gog.com/v2/games/1207658691?locale=en-US "] |}
           []);
    try reflexivity; discriminate.
Defined.

Lemma load_online_data_entry_witness :
  exists online_info',
    load_online_data false one_build pack_of_one no_repository "1207658691"
      online_not_found = Ok online_info'
    /\ (exists entry,
          dict_get "1207658691" online_info' = Some entry
          /\ (remote_old_version entry = None -> entry = not_found_online)
          /\ (remote_old_version entry = Some true ->
              (exists b, remote_build_id entry = Some b)
              /\ forall v, remote_version_name entry = Some v ->
                           dotted_version v = true))
    /\ forall k, k <> "1207658691" ->
                 dict_get k online_info' = dict_get k online_not_found.
Proof.
  eexists. split; [reflexivity|].
  apply (load_online_data_entry false one_build pack_of_one no_repository
           "1207658691" online_not_found). reflexivity.
Defined.

Lemma get_online_data_entries_witness :
  exists online_info,
    get_online_data false one_build pack_of_one no_repository one_installer
    = Ok online_info
    /\ (forall path l, dict_get path one_installer = Some l ->
          exists e, dict_get (product_id l) online_info = Some e)
    /\ (forall k e, dict_get k online_info = Some e ->
          (exists path l, dict_get path one_installer = Some l /\ product_id l = k)
          /\ (remote_old_version e = None -> e = not_found_online)
          /\ (remote_old_version e = Some true ->
              (exists b, remote_build_id e = Some b)
              /\ forall v, remote_version_name e = Some v ->
                           dotted_version v = true)).
Proof.
  eexists. split; [reflexivity|].
  apply (get_online_data_entries false one_build pack_of_one no_repository
           one_installer). reflexivity.
Defined.

Lemma compare_versions_after_get_online_data_witness :
  get_online_data false one_build pack_of_one no_repository one_installer
  = Ok online_build_105
  /\ compare_versions (Checker.versions_should_match None) no_builds
       one_installer online_build_105 <> Raise KeyError.
Proof.
  split; [reflexivity|].
  apply (compare_versions_after_get_online_data false one_build pack_of_one
           no_repository (Checker.versions_should_match None) no_builds);
    [intros p l o; discriminate | intros p; discriminate | reflexivity].
Defined.

(* ================================================================== *)
(** ** The search of main.py ends *)

Lemma all_chars_app (p : ascii -> bool) (a b : string) :
  all_chars p (a ++ b) = all_chars p a && all_chars p b.
Proof.
  induction a as [|c a IH]; [reflexivity|]. cbn [append all_chars].
  now rewrite IH, andb_assoc.
Qed.

Lemma all_chars_impl (p q : ascii -> bool) (s : string) :
  (forall c, p c = true -> q c = true) ->
  all_chars p s = true -> all_chars q s = true.
Proof.
  intros Hpq. induction s as [|c s IH]; [reflexivity|]. cbn [all_chars].
  intros H. apply andb_prop in H as [Hc Hs]. now rewrite (Hpq c Hc), IH.
Qed.

Lemma number_char_not_space (c : ascii) :
  number_char c = true -> negb (isspace c) = true.
Proof.
  unfold number_char, is_digit, isspace, between. intros H.
  apply negb_true_iff. apply orb_prop in H as [H|H].
  - apply andb_prop in H as [H1 H2]. apply N.leb_le in H1, H2.
    repeat (apply orb_false_intro);
      [apply andb_false_intro2, N.leb_gt; lia
      |apply andb_false_intro2, N.leb_gt; lia| |]; apply N.eqb_neq; lia.
  - apply Ascii.eqb_eq in H. subst c. reflexivity.
Qed.

Lemma string_of_uint_number (u : Decimal.uint) :
  all_chars number_char (NilEmpty.string_of_uint u) = true.
Proof. induction u; cbn [NilEmpty.string_of_uint all_chars]; try exact IHu; reflexivity. Qed.

Lemma str_of_int_number (z : Z) :
  all_chars number_char (str_of_int z) = true /\ str_of_int z <> "".
Proof.
  unfold str_of_int, NilZero.string_of_int, NilZero.string_of_uint.
  destruct (Z.to_int z) as [u|u]; destruct u; cbn [all_chars]; split;
    try discriminate; try reflexivity;
    cbn [NilEmpty.string_of_uint all_chars number_char]; try apply string_of_uint_number.
Qed.

(** [str] of an integer value of the data file is such a number. *)
Lemma py_str_int_written_as_number (z : Z) :
  written_as_number (py_str (JInt z)) = true.
Proof.
  unfold written_as_number. cbn [py_str].
  destruct (str_of_int_number z) as [Hd Hne]. rewrite Hd.
  apply String.eqb_neq in Hne. now rewrite Hne.
Qed.

Lemma prefix_length (k s : string) :
  prefix k s = true -> String.length k <= String.length s.
Proof.
  revert s. induction k as [|x k IH]; intros s; [simpl; lia|].
  destruct s as [|y s]; cbn [prefix]; [discriminate|].
  destruct (ascii_dec x y); [|discriminate]. intros H. apply IH in H. simpl. lia.
Qed.

Lemma prefix_same (k : string) : prefix k k = true.
Proof.
  induction k as [|x k IH]; [reflexivity|]. cbn [prefix].
  destruct (ascii_dec x x); [exact IH|contradiction].
Qed.

Lemma prefix_before_space (k a b : string) (c : ascii) :
  all_chars (fun x => negb (isspace x)) k = true -> isspace c = true ->
  prefix k (a ++ String c b) = prefix k a.
Proof.
  intros Hk Hc. revert a. induction k as [|x k IH]; intros a.
  - now rewrite !prefix_empty.
  - cbn [all_chars] in Hk. apply andb_prop in Hk as [Hx Hk].
    destruct a as [|y a]; cbn [append prefix].
    + destruct (ascii_dec x c) as [->|_]; [|reflexivity].
      rewrite Hc in Hx. discriminate.
    + destruct (ascii_dec x y); [now apply IH|reflexivity].
Qed.

Lemma split_ws_word (a cur : string) :
  all_chars (fun x => negb (isspace x)) a = true ->
  split_ws cur a = match cur ++ a with "" => [] | w => [w] end.
Proof.
  revert cur. induction a as [|x a IH]; intros cur Ha.
  - rewrite append_nil_r. now destruct cur.
  - cbn [all_chars] in Ha. apply andb_prop in Ha as [Hx Ha].
    apply negb_true_iff in Hx. cbn [split_ws]. rewrite Hx, (IH _ Ha).
    now rewrite append_assoc.
Qed.

Lemma split_ws_word_space (a b cur : string) (c : ascii) :
  all_chars (fun x => negb (isspace x)) a = true -> isspace c = true ->
  split_ws cur (a ++ String c b)
  = match cur ++ a with "" => split_ws "" b | w => w :: split_ws "" b end.
Proof.
  intros Ha Hc. revert cur. induction a as [|x a IH]; intros cur.
  - rewrite append_nil_r. cbn [append split_ws]. rewrite Hc. now destruct cur.
  - cbn [all_chars] in Ha. apply andb_prop in Ha as [Hx Ha].
    apply negb_true_iff in Hx. cbn [append split_ws]. rewrite Hx, (IH Ha).
    now rewrite append_assoc.
Qed.

Lemma split_ws_words (s cur w : string) :
  all_chars (fun x => negb (isspace x)) cur = true ->
  In w (split_ws cur s) ->
  w <> "" /\ all_chars (fun x => negb (isspace x)) w = true.
Proof.
  revert cur. induction s as [|c s IH]; intros cur Hcur; cbn [split_ws].
  - destruct cur; [intros []|]. intros [<-|[]]. split; [discriminate|exact Hcur].
  - destruct (isspace c) eqn:Hc.
    + destruct cur.
      * now apply IH.
      * intros [<-|H]; [split; [discriminate|exact Hcur]|now apply (IH "")].
    + apply IH. rewrite all_chars_app, Hcur. cbn [all_chars]. now rewrite Hc.
Qed.

(** One [str.replace] of a word by a number. *)
Section ReplaceWord.
Variables k d : string.
Hypothesis k_not_empty : k <> "".
Hypothesis k_no_space : all_chars (fun x => negb (isspace x)) k = true.
Hypothesis d_not_empty : d <> "".
Hypothesis d_number : all_chars number_char d = true.

Lemma d_no_space : all_chars (fun x => negb (isspace x)) d = true.
Proof. exact (all_chars_impl _ _ d number_char_not_space d_number). Qed.

Lemma replace_is_replace_from (s : string) : replace k d s = replace_from k d 0 s.
Proof. unfold replace. destruct k; [contradiction|reflexivity]. Qed.

(** White space ends every occurrence: the text before it and the text
    after it are replaced on their own. *)
Lemma replace_from_space (a b : string) (c : ascii) (n : nat) :
  n <= String.length a -> isspace c = true ->
  replace_from k d n (a ++ String c b)
  = replace_from k d n a ++ String c (replace_from k d 0 b).
Proof.
  intros Hn Hc. revert n Hn. induction a as [|x a IH]; intros n Hn.
  - simpl in Hn. assert (n = 0) as -> by lia. cbn [append replace_from].
    pose proof (prefix_before_space k "" b c k_no_space Hc) as P.
    cbn [append] in P. rewrite P.
    destruct k; [contradiction|reflexivity].
  - cbn [append replace_from]. destruct n as [|n].
    + pose proof (prefix_before_space k (String x a) b c k_no_space Hc) as P'.
      cbn [append] in P'. rewrite P'.
      destruct (prefix k (String x a)) eqn:P.
      * apply prefix_length in P. simpl in P.
        rewrite IH by lia. now rewrite append_assoc.
      * now rewrite IH by lia.
    + apply IH. simpl in Hn. lia.
Qed.

Lemma replace_from_no_space (a : string) (n : nat) :
  all_chars (fun x => negb (isspace x)) a = true ->
  all_chars (fun x => negb (isspace x)) (replace_from k d n a) = true.
Proof.
  revert n. induction a as [|x a IH]; intros n Ha; [reflexivity|].
  cbn [all_chars] in Ha. apply andb_prop in Ha as [Hx Ha]. cbn [replace_from].
  destruct n as [|n]; [|now apply IH].
  destruct (prefix k (String x a)).
  - rewrite all_chars_app, d_no_space. now apply IH.
  - cbn [all_chars]. rewrite Hx. now apply IH.
Qed.

Lemma replace_from_not_empty (a : string) :
  a <> "" -> replace_from k d 0 a <> "".
Proof.
  destruct a as [|x a]; [contradiction|]. intros _. cbn [replace_from].
  destruct (prefix k (String x a)); [|discriminate].
  destruct d; [contradiction|discriminate].
Qed.

(** The words of the new text are the words of the old one, replaced one
    by one. *)
Lemma split_replace_from (s a : string) :
  all_chars (fun x => negb (isspace x)) a = true ->
  split (replace_from k d 0 (a ++ s)) = map (replace_from k d 0) (split (a ++ s)).
Proof.
  revert a. induction s as [|c s IH]; intros a Ha.
  - rewrite append_nil_r. unfold split.
    rewrite (split_ws_word _ "" (replace_from_no_space a 0 Ha)), (split_ws_word _ "" Ha).
    cbn [append]. destruct a as [|x a]; [reflexivity|]. cbn [map].
    destruct (replace_from k d 0 (String x a)) eqn:E; [|reflexivity].
    now apply replace_from_not_empty in E.
  - destruct (isspace c) eqn:Hc.
    + rewrite replace_from_space by (auto; lia). unfold split.
      rewrite (split_ws_word_space _ _ "" c (replace_from_no_space a 0 Ha) Hc).
      rewrite (split_ws_word_space _ _ "" c Ha Hc). cbn [append].
      specialize (IH "" eq_refl). cbn [append] in IH. unfold split in IH.
      destruct a as [|x a]; [exact IH|]. cbn [map].
      destruct (replace_from k d 0 (String x a)) eqn:E;
        [now apply replace_from_not_empty in E|].
      now rewrite IH.
    + replace (a ++ String c s) with ((a ++ String c "") ++ s)
        by now rewrite append_assoc.
      apply IH. rewrite all_chars_app, Ha. cbn [all_chars]. now rewrite Hc.
Qed.

(** A result without a number character is a text that had no
    occurrence. *)
Lemma replace_from_unchanged (s : string) (n : nat) :
  no_number_char (replace_from k d n s) = true -> replace_from k d n s = drop n s.
Proof.
  unfold no_number_char.
  revert n. induction s as [|c s IH]; intros n; [now destruct n|].
  cbn [replace_from]. destruct n as [|n]; [|apply IH].
  destruct (prefix k (String c s)).
  - rewrite all_chars_app. destruct d as [|x d']; [contradiction|].
    cbn [all_chars] in *. apply andb_prop in d_number as [Hx _]. rewrite Hx.
    discriminate.
  - cbn [all_chars drop]. intros H. apply andb_prop in H as [_ H].
    apply IH in H. cbn [drop] in H. destruct s; now rewrite H.
Qed.

Lemma replace_from_word (w : string) :
  no_number_char (replace_from k d 0 w) = true ->
  replace_from k d 0 w = w /\ w <> k.
Proof.
  intros H. split; [now apply replace_from_unchanged in H|].
  intros ->. unfold no_number_char in H.
  destruct k as [|x k'] eqn:E; [contradiction|]. cbn [replace_from] in H.
  rewrite <- E in H. rewrite prefix_same in H. rewrite all_chars_app in H.
  destruct d as [|y d']; [contradiction|].
  cbn [all_chars] in *. apply andb_prop in d_number as [Hy _]. rewrite Hy in H.
  discriminate.
Qed.

Lemma split_replace (s w : string) :
  no_number_char w = true ->
  In w (split (replace k d s)) -> In w (split s) /\ w <> k.
Proof.
  intros Hw. rewrite replace_is_replace_from.
  pose proof (split_replace_from s "" eq_refl) as E. cbn [append] in E. rewrite E.
  intros H. apply in_map_iff in H as (w0 & <- & H).
  destruct (replace_from_word w0 Hw) as [-> Hk]. auto.
Qed.
End ReplaceWord.

(** One pass of the loop over the numerals: afterwards no numeral is a
    word of the name, and every word without a number character was a word
    before. *)
Lemma main_substitute_pass (value : Type) (str : value -> string)
  (numerals : dict value) (found found' : bool) (s s' : string) :
  forallb (fun kv => no_number_char (fst kv) && written_as_number (str (snd kv)))
    numerals = true ->
  fold_left
    (fun (st : bool * string) (kv : string * value) =>
       let (found_numeral, product_name) := st in
       let (numeral, value) := kv in
       if str_in numeral (split product_name)
       then (true, replace numeral (str value) product_name)
       else (found_numeral, product_name))
    numerals (found, s) = (found', s') ->
  (forall kv, In kv numerals -> ~ In (fst kv) (split s'))
  /\ (forall w, no_number_char w = true -> In w (split s') -> In w (split s)).
Proof.
  revert found s. induction numerals as [|[k v] rest IH]; intros found s Hk H.
  - simpl in H. injection H as _ <-. split; [intros kv []|auto].
  - cbn [forallb fst snd] in Hk. apply andb_prop in Hk as [Hkv Hrest].
    apply andb_prop in Hkv as [Hk Hv]. unfold written_as_number in Hv.
    apply andb_prop in Hv as [Hd Hdne]. apply negb_true_iff in Hdne.
    apply String.eqb_neq in Hdne.
    cbn [fold_left] in H. destruct (str_in k (split s)) eqn:E.
    + apply str_in_In in E.
      destruct (split_ws_words s "" k eq_refl E) as [Hne Hns].
      destruct (IH _ _ Hrest H) as [A B]. split.
      * intros kv [<-|Hin]; [|now apply A]. cbn [fst]. intros Hin.
        apply (B k Hk) in Hin.
        now destruct (split_replace k (str v) Hne Hns Hdne Hd s k Hk Hin).
      * intros w Hw Hin. apply (B w Hw) in Hin.
        now destruct (split_replace k (str v) Hne Hns Hdne Hd s w Hw Hin).
    + destruct (IH _ _ Hrest H) as [A B]. split; [|exact B].
      intros kv [<-|Hin]; [|now apply A]. cbn [fst]. intros Hin.
      apply (B k Hk) in Hin. apply str_in_In in Hin. congruence.
Qed.

Lemma main_substitute_none (value : Type) (str : value -> string)
  (numerals : dict value) (s : string) :
  (forall kv, In kv numerals -> ~ In (fst kv) (split s)) ->
  Main.substitute_numerals str numerals s = (false, s).
Proof.
  unfold Main.substitute_numerals. generalize false as found.
  induction numerals as [|[k v] rest IH]; intros found H; [reflexivity|].
  cbn [fold_left]. destruct (str_in k (split s)) eqn:E.
  - apply str_in_In in E. exfalso. exact (H (k, v) (or_introl eq_refl) E).
  - apply IH. intros kv Hin. apply H. now right.
Qed.

(** In [main.py] the search returns after at most two requests when no
    numeral of the data file has a digit or a minus sign in it and every
    value of [ROMAN_NUMERALS] is written by [str] as a number (digits and
    minus signs, at least one): the second name has none of the numerals
    left among its words.  The value returned may be an exception of a
    request. *)
Theorem main_search_at_most_two_requests (value : Type) (str : value -> string)
  (numerals : dict value)
  (download_data : string -> result (option search_response))
  (s : string) (fuel : nat) :
  forallb (fun kv => no_number_char (fst kv) && written_as_number (str (snd kv)))
    numerals = true ->
  exists sent r,
    Main.search_product_id_on_gog str numerals download_data (S (S fuel)) s
    = (sent, Some r)
    /\ List.length sent <= 2.
Proof.
  intros Hk. cbn [Main.search_product_id_on_gog].
  destruct (download_data s) as [[g|]|x];
    try (eexists; eexists; split; [reflexivity|simpl; lia]).
  destruct (totalGamesFound g =? 0)%Z;
    [|eexists; eexists; split; [reflexivity|simpl; lia]].
  destruct (Main.substitute_numerals str numerals s) as [found s'] eqn:E.
  destruct found; [|eexists; eexists; split; [reflexivity|simpl; lia]].
  unfold Main.substitute_numerals in E.
  apply main_substitute_pass in E as [A _]; [|exact Hk].
  destruct (download_data s') as [[g'|]|x'];
    try (eexists; eexists; split; [reflexivity|simpl; lia]).
  destruct (totalGamesFound g' =? 0)%Z;
    [|eexists; eexists; split; [reflexivity|simpl; lia]].
  rewrite (main_substitute_none value str numerals s' A).
  eexists; eexists; split; [reflexivity|simpl; lia].
Qed.

Lemma main_search_at_most_two_requests_witness :
  exists sent r,
    Main.search_product_id_on_gog py_str [("II", JInt 2)] no_games 2 "Game II"
    = (sent, Some r)
    /\ List.length sent <= 2.
Proof.
  exact (main_search_at_most_two_requests jatom py_str [("II", JInt 2)] no_games
           "Game II" 0 eq_refl).
Defined.

(* ================================================================== *)
(** ** compare_versions: the order of the findings *)

Lemma ordered_app_one (l : list (option string)) (x : option string) :
  StronglySorted le_name l -> (forall y, In y l -> le_name y x) ->
  StronglySorted le_name (l ++ [x])%list.
Proof.
  induction l as [|z l IH]; simpl; intros Hs Hx.
  - constructor; constructor.
  - inversion Hs as [|? ? Hs' Hall]; subst. constructor.
    + apply IH; [exact Hs'|]. intros y Hy. apply Hx. now right.
    + apply Forall_app. split; [exact Hall|]. constructor; [|constructor].
      apply Hx. now left.
Qed.

Lemma NoDup_app_one (l : list (option string)) (x : option string) :
  NoDup l -> ~ In x l -> NoDup (l ++ [x])%list.
Proof.
  intros Hl Hx. apply (Permutation_NoDup (l := x :: l)).
  - apply Permutation_cons_append.
  - now constructor.
Qed.

Section FindingsOrder.
Variable versions_should_match : string -> string -> option string -> result bool.
Variable download_builds : string -> result (option (list (string * option string))).

(** One comparison stores at most one finding, under the product id of
    the record and with its product name. *)
Lemma compare_step_stores (l : local_installer) (online_info : dict online_entry)
  (st st' : state) :
  (if old_version l
   then compare_old_versions versions_should_match l online_info st
   else compare_new_versions versions_should_match download_builds l online_info st)
  = Ok st' ->
  new_versions_dict st' = new_versions_dict st
  \/ exists f, new_versions_dict st' = dict_set (product_id l) f (new_versions_dict st)
               /\ found_product_name f = product_name l.
Proof.
  destruct (old_version l); intros H.
  - unfold compare_old_versions, lookup, bind in H.
    break_result H; injection H as <-; cbn [emit store new_versions_dict];
      first [left; reflexivity|right; eexists; split; reflexivity].
  - unfold compare_new_versions, get_local_version_from_gog, lookup, bind, read_build,
      call_normalize in H.
    break_result H; injection H as <-; cbn [emit store new_versions_dict];
      first [left; reflexivity|right; eexists; split; reflexivity].
Qed.

Lemma compare_versions_fold_ordered (online_info : dict online_entry)
  (l : list (string * local_installer)) (st0 st : state) :
  StronglySorted le_name (map (fun kv => product_name (snd kv)) l) ->
  NoDup (map (fun kv => product_name (snd kv)) l) ->
  NoDup (map (fun kv => product_id (snd kv)) l) ->
  (forall kv, In kv l -> ~ In (product_id (snd kv)) (keys (new_versions_dict st0))) ->
  (forall kv n, In kv l ->
     In n (map (fun kf => found_product_name (snd kf)) (new_versions_dict st0)) ->
     le_name n (product_name (snd kv)) /\ n <> product_name (snd kv)) ->
  StronglySorted le_name
    (map (fun kf => found_product_name (snd kf)) (new_versions_dict st0)) ->
  NoDup (map (fun kf => found_product_name (snd kf)) (new_versions_dict st0)) ->
  fold_left
    (fun (acc : result state) (kv : string * local_installer) =>
       st <- acc ;;
       if old_version (snd kv)
       then compare_old_versions versions_should_match (snd kv) online_info st
       else compare_new_versions versions_should_match download_builds (snd kv)
              online_info st)
    l (Ok st0) = Ok st ->
  StronglySorted le_name
    (map (fun kf => found_product_name (snd kf)) (new_versions_dict st))
  /\ NoDup (map (fun kf => found_product_name (snd kf)) (new_versions_dict st)).
Proof.
  revert st0. induction l as [|[p r] t IH]; intros st0 Hs Hn Hi Hk Hb Hs0 Hn0 Hf.
  - simpl in Hf. injection Hf as <-. auto.
  - cbn [fold_left bind snd] in Hf.
    destruct (if old_version r
              then compare_old_versions versions_should_match r online_info st0
              else compare_new_versions versions_should_match download_builds r
                     online_info st0) as [st1|e] eqn:E;
      [|rewrite compare_versions_fold_raise in Hf; discriminate].
    cbn [map snd] in Hs, Hn, Hi.
    inversion Hs as [|? ? Hs' Hall]; subst. rewrite Forall_forall in Hall.
    inversion Hn as [|? ? Hn1 Hn']; subst. inversion Hi as [|? ? Hi1 Hi']; subst.
    apply (IH st1 Hs' Hn' Hi'); [| | | |exact Hf].
    + intros kv Hin. destruct (compare_step_stores _ _ _ _ E) as [->|(f & -> & _)].
      * apply Hk. now right.
      * rewrite keys_dict_set. intros H.
        assert (In (product_id (snd kv)) (keys (new_versions_dict st0)
                                          ++ [product_id r])%list) as H'
            by (destruct (dict_has (product_id r) (new_versions_dict st0));
                [apply in_app_iff; now left|exact H]).
        apply in_app_iff in H' as [H'|[H'|[]]].
        -- now apply (Hk kv (or_intror Hin)).
        -- apply Hi1. rewrite H'. now apply (in_map (fun kv => product_id (snd kv))).
    + intros kv n Hin Hnin.
      destruct (compare_step_stores _ _ _ _ E) as [Heq|(f & Heq & Hname)];
        rewrite Heq in Hnin.
      * apply Hb; [now right|exact Hnin].
      * rewrite dict_set_fresh in Hnin by (apply (Hk (p, r)); now left).
        rewrite map_app in Hnin. apply in_app_iff in Hnin as [Hnin|[<-|[]]].
        -- apply Hb; [now right|exact Hnin].
        -- cbn [snd]. rewrite Hname. split.
           ++ apply Hall. now apply (in_map (fun kv => product_name (snd kv))).
           ++ intros Hsame. apply Hn1. rewrite Hsame.
              now apply (in_map (fun kv => product_name (snd kv))).
    + destruct (compare_step_stores _ _ _ _ E) as [->|(f & -> & Hname)];
        [exact Hs0|].
      rewrite dict_set_fresh by (apply (Hk (p, r)); now left).
      rewrite map_app. cbn [map snd]. apply ordered_app_one; [exact Hs0|].
      intros y Hy. rewrite Hname. now apply (Hb (p, r) y (or_introl eq_refl)).
    + destruct (compare_step_stores _ _ _ _ E) as [->|(f & -> & Hname)];
        [exact Hn0|].
      rewrite dict_set_fresh by (apply (Hk (p, r)); now left).
      rewrite map_app. cbn [map snd]. apply NoDup_app_one; [exact Hn0|].
      intros Hy. rewrite Hname in Hy.
      now destruct (Hb (p, r) _ (or_introl eq_refl) Hy).
Qed.

(** When no two installers have the same product id, [compare_versions]
    records its findings in strictly ascending order of product name. *)
Theorem compare_versions_findings_ordered (local_info : dict local_installer)
  (online_info : dict online_entry) (st : state) :
  (forall p1 p2 l1 l2,
     dict_get p1 local_info = Some l1 -> dict_get p2 local_info = Some l2 ->
     product_id l1 = product_id l2 -> p1 = p2) ->
  compare_versions versions_should_match download_builds local_info online_info = Ok st ->
  StronglySorted le_name
    (map (fun kf => found_product_name (snd kf)) (new_versions_dict st))
  /\ NoDup (map (fun kf => found_product_name (snd kf)) (new_versions_dict st)).
Proof.
  intros Hid Hf. unfold compare_versions in Hf.
  destruct (sort_local_info local_info) as [sorted_info|x] eqn:Es; [|discriminate].
  cbn [bind] in Hf.
  destruct (sort_local_info_shape local_info sorted_info Es) as (Hs & Hn & Hin).
  apply (compare_versions_fold_ordered online_info sorted_info
           {| new_versions_dict := []; events := [Print ""] |} st Hs Hn);
    [| | | | |exact Hf].
  - apply (NoDup_map_other _ _ (fun kv => product_name (snd kv))
                               (fun kv => product_id (snd kv))); [exact Hn|].
    intros [p1 r1] [p2 r2] H1 H2 E. cbn [snd] in *.
    apply Hin in H1, H2. assert (p1 = p2) as -> by exact (Hid _ _ _ _ H1 H2 E).
    congruence.
  - intros kv _ [].
  - intros kv n _ [].
  - constructor.
  - constructor.
Qed.
End FindingsOrder.

Lemma compare_versions_findings_ordered_witness :
  exists st,
    compare_versions (Checker.versions_should_match None) no_builds
      two_installers online_two = Ok st
    /\ map (fun kf => found_product_name (snd kf)) (new_versions_dict st)
       = [Some "Alpha"; Some "Zeta"]
    /\ StronglySorted le_name
         (map (fun kf => found_product_name (snd kf)) (new_versions_dict st))
    /\ NoDup (map (fun kf => found_product_name (snd kf)) (new_versions_dict st)).
Proof.
  eexists. split; [reflexivity|]. split; [reflexivity|].
  apply (compare_versions_findings_ordered (Checker.versions_should_match None)
           no_builds two_installers online_two).
  - intros p1 p2 l1 l2 H1 H2 E. unfold two_installers in H1, H2.
    cbn [dict_get] in H1, H2.
    destruct (String.eqb_spec p1 "b/setup_zeta.exe") as [->|_];
      [|destruct (String.eqb_spec p1 "a/setup_alpha.exe") as [->|_];
        [|discriminate]];
      (destruct (String.eqb_spec p2 "b/setup_zeta.exe") as [->|_];
       [|destruct (String.eqb_spec p2 "a/setup_alpha.exe") as [->|_];
         [|discriminate]]);
      injection H1 as <-; injection H2 as <-; try reflexivity; discriminate E.
  - reflexivity.
Defined.
